(** * melonJS [src/object.js]: class extension, mixins, [_super] and [bind]

    The file under study adds [mixin] and [extend] to the root object
    prototype and a [bind] fallback to the function prototype, with
    fallbacks for [Object.defineProperty] and [Object.create] on hosts that
    lack them.  Its
    behaviour is a matter of the host's object model: prototype chains,
    property attributes, assignment versus [Object.defineProperty], [new]
    and [instanceof].  The development therefore embeds

    - a heap of objects, each with a prototype link, an extensibility flag,
      an optional callable behaviour and an insertion-ordered table of data
      properties carrying the attributes writable/enumerable/configurable;
    - the host operations the source relies on ([[Get]], sloppy-mode
      assignment, [Object.defineProperty], [Object.keys], [for-in],
      [Object.create], function creation, [new], [instanceof]);
    - the source functions themselves, statement by statement, as
      computations over that heap; those that can call other functions
      ([mixin], [bind], [Class], [_super] and [bound]) take the calling
      convention as a parameter and are tied together by a fuelled
      interpreter [call], in which author-written methods are entries of a
      table of Rocq functions.

    Scope of the host model.  Properties are data properties; the one
    accessor taken into account is the legacy [__proto__] of the root
    prototype, whose getter is modelled and whose setter is left to the
    host.  [call], [slice], [concat], [forEach], [Object.keys],
    [Object.create] and [Object.defineProperty], which the source reaches
    through the host's own objects, are the host's own.

    The members the source reaches through an object it is handed are
    looked up on that object: [obj.hasOwnProperty] (line 56), [f.apply]
    (lines 125, 131, 223 and 231), and [valueOf] and [toString] in the
    concatenation of line 120.  The host's own functions of these names are
    not listed in the heap: they stand behind whatever the heap holds under
    the name, for the objects that inherit from the root prototype (from
    the function prototype, for [apply]).  A callable [apply] that a
    program supplies would receive its arguments as an array, which the
    model does not allocate: such a call ends in [Unsupported].  The
    variable [Empty] of line 100 is a member of the global object that any
    program can assign; [bind] reads it each time it names it.

    The attribute objects handed to [Object.defineProperty] are taken as
    the literals are written.  A host looks for the fields a literal leaves
    out on the root prototype; the statements that speak about attributes
    therefore ask for a root prototype that holds no member named like
    such a field ([root_plain]).  A function object is given the own
    members [length] and [prototype]; the read-only members that hosts add
    of their own accord, [name], [arguments] and [caller] on functions and
    [NaN], [Infinity] and [undefined] on the global object, are not listed,
    and the statements leave these names aside ([reserved_names]).

    The file has no strict-mode directive, so a refused assignment is
    silent and a missing receiver is the global object.  Wrapper objects
    for primitive receivers and conversions of non-string property keys are
    left to the host: a computation that needs one ends in [Unsupported].
    Faults carry their kind, not their message text.  Transient objects
    that never escape a call (argument arrays, attribute literals, the
    closures handed to [forEach]) are not allocated. *)

From Stdlib Require Import ZArith Lia.
From stdpp Require Import base list strings numbers.

Local Open Scope string_scope.
Local Open Scope list_scope.
Local Open Scope nat_scope.

(** ** Values and objects *)

Abbreviation loc := nat.

Inductive value :=
| VUndef
| VNull
| VBool (b : bool)
| VNum (z : Z)
| VStr (s : string)
| VObj (l : loc).

#[global] Instance value_eq_dec : EqDecision value.
Proof. solve_decision. Defined.

(** A data property with its three attributes. *)
Record prop := MkProp {
  p_value : value;
  p_writable : bool;
  p_enumerable : bool;
  p_configurable : bool
}.

(** The attribute object handed to [Object.defineProperty]: every field is
    optional, and an absent field has a meaning of its own. *)
Record descriptor := Descriptor {
  d_value : option value;
  d_writable : option bool;
  d_enumerable : option bool;
  d_configurable : option bool
}.

(** What a callable object does when called. *)
Inductive code :=
| CUser (i : nat)            (* a function written by a user of the library *)
| CObject                    (* the host's [Object] constructor *)
| CEmpty                     (* an empty body: [Empty], [Function.prototype] *)
| CMixin                     (* the value of [Object.prototype.mixin] *)
| CBind                      (* the value of [Function.prototype.bind] *)
| CExtend                    (* the value of [Object.prototype.extend] *)
| CBound (target : loc) (that : value) (args : list value)
                             (* a [bound] closure made by [bind] *)
| CClass                     (* a [Class] function made by [extend] *)
| CSuper.                    (* a [_super] closure made by [Class] *)

Record obj := Obj {
  o_proto : option loc;
  o_extensible : bool;
  o_code : option code;
  o_props : list (string * prop)
}.

(** Objects are numbered in allocation order; none is ever freed. *)
Abbreviation heap := (list obj).

Inductive fault :=
| TypeError
| Thrown (v : value).

Inductive outcome (A : Type) :=
| Ret (a : A) (h : heap)
| Throw (e : fault) (h : heap)
| OutOfFuel
| Unsupported.
Arguments Ret {A} a h.
Arguments Throw {A} e h.
Arguments OutOfFuel {A}.
Arguments Unsupported {A}.

(** ** Computations over the heap *)

Definition M (A : Type) := heap -> outcome A.

Definition ret {A} (a : A) : M A := fun h => Ret a h.
Definition throw {A} (e : fault) : M A := fun h => Throw e h.
Definition unsupported {A} : M A := fun _ => Unsupported.

Definition and_then {A B} (m : M A) (k : A -> M B) : M B :=
  fun h =>
    match m h with
    | Ret a h' => k a h'
    | Throw e h' => Throw e h'
    | OutOfFuel => OutOfFuel
    | Unsupported => Unsupported
    end.

Notation "'let*' x ':=' m 'in' k" := (and_then m (fun x => k))
  (at level 10, x name, m at level 100, k at level 200).
Notation "m ;; k" := (and_then m (fun _ => k))
  (at level 100, k at level 200, right associativity).

Fixpoint for_each {A} (xs : list A) (body : A -> M unit) : M unit :=
  match xs with
  | [] => ret tt
  | x :: xs' => body x ;; for_each xs' body
  end.

(** ** Property tables *)

Fixpoint assoc {A} (k : string) (ps : list (string * A)) : option A :=
  match ps with
  | [] => None
  | (k', a) :: ps' => if decide (k = k') then Some a else assoc k ps'
  end.

(** An existing key keeps its place, a new key goes last. *)
Fixpoint assoc_set {A} (k : string) (a : A) (ps : list (string * A))
  : list (string * A) :=
  match ps with
  | [] => [(k, a)]
  | (k', a') :: ps' =>
      if decide (k = k') then (k, a) :: ps' else (k', a') :: assoc_set k a ps'
  end.

Definition own_prop (h : heap) (l : loc) (k : string) : option prop :=
  match h !! l with
  | Some o => assoc k (o_props o)
  | None => None
  end.

Definition own_value (h : heap) (l : loc) (k : string) : option value :=
  p_value <$> own_prop h l k.

Definition proto_of (h : heap) (l : loc) : option loc :=
  match h !! l with
  | Some o => o_proto o
  | None => None
  end.

Definition extensible (h : heap) (l : loc) : bool :=
  match h !! l with
  | Some o => o_extensible o
  | None => false
  end.

Definition code_of (h : heap) (l : loc) : option code :=
  match h !! l with
  | Some o => o_code o
  | None => None
  end.

Definition set_own (h : heap) (l : loc) (k : string) (p : prop) : heap :=
  match h !! l with
  | Some o =>
      <[l := Obj (o_proto o) (o_extensible o) (o_code o)
                 (assoc_set k p (o_props o))]> h
  | None => h
  end.

(** ** Host operations *)

(** The host's own objects come first in every heap: the root prototype,
    the function prototype, the global object and [Object]. *)
Definition Object_prototype : loc := 0.
Definition Function_prototype : loc := 1.
Definition global : loc := 2.
Definition Object_ctor : loc := 3.

(** [[GetProperty]]: the nearest property named [k] on the prototype chain
    of [l].  A chain in a heap of [n] objects has at most [n] links. *)
Fixpoint get_prop_fuel (n : nat) (h : heap) (l : loc) (k : string)
  : option prop :=
  match n with
  | 0 => None
  | S n' =>
      match h !! l with
      | None => None
      | Some o =>
          match assoc k (o_props o) with
          | Some p => Some p
          | None =>
              match o_proto o with
              | Some l' => get_prop_fuel n' h l' k
              | None => None
              end
          end
      end
  end.

Definition get_prop (h : heap) (l : loc) (k : string) : option prop :=
  get_prop_fuel (length h) h l k.

(** Does [target] occur on the prototype chain of [l]? *)
Fixpoint on_chain (n : nat) (h : heap) (l target : loc) : bool :=
  match n with
  | 0 => false
  | S n' =>
      match proto_of h l with
      | None => false
      | Some p => bool_decide (p = target) || on_chain n' h p target
      end
  end.

(** The root prototype carries the host's legacy accessor [__proto__].  It
    answers for the name [k] on [l] when [k] is its name, no data property
    named [k] comes first on the chain of [l], and the root is on that
    chain. *)
Definition accessor_hit (h : heap) (l : loc) (k : string) : bool :=
  bool_decide (k = "__proto__")
  && match get_prop h l k with
     | Some _ => false
     | None =>
         bool_decide (l = Object_prototype)
         || on_chain (length h) h l Object_prototype
     end.

(** [[Get]]: [o[k]] for an object [o].  The accessor's getter gives the
    prototype of the receiver. *)
Definition get (h : heap) (l : loc) (k : string) : value :=
  match get_prop h l k with
  | Some p => p_value p
  | None =>
      if accessor_hit h l k then
        match proto_of h l with
        | Some p => VObj p
        | None => VNull
        end
      else VUndef
  end.

(** [[CanPut]]. *)
Definition can_put (h : heap) (l : loc) (k : string) : bool :=
  match own_prop h l k with
  | Some p => p_writable p
  | None =>
      extensible h l &&
      match get_prop h l k with
      | Some p => p_writable p
      | None => true
      end
  end.

(** [[Put]] without the strict flag: [o[k] = v].  A refused assignment
    leaves the heap as it is. *)
Definition put (h : heap) (l : loc) (k : string) (v : value) : heap :=
  if can_put h l k then
    match own_prop h l k with
    | Some p =>
        set_own h l k (MkProp v (p_writable p) (p_enumerable p) (p_configurable p))
    | None => set_own h l k (MkProp v true true true)
    end
  else h.

(** [[DefineOwnProperty]] for data properties: may the attributes [d] be
    applied to the existing property [c]? *)
Definition define_allowed (c : prop) (d : descriptor) : bool :=
  p_configurable c
  || (negb (bool_decide (d_configurable d = Some true))
      && match d_enumerable d with
         | Some e => bool_decide (e = p_enumerable c)
         | None => true
         end
      && (p_writable c
          || (negb (bool_decide (d_writable d = Some true))
              && match d_value d with
                 | Some v => bool_decide (v = p_value c)
                 | None => true
                 end))).

Definition define_merge (c : prop) (d : descriptor) : prop :=
  MkProp (default (p_value c) (d_value d))
       (default (p_writable c) (d_writable d))
       (default (p_enumerable c) (d_enumerable d))
       (default (p_configurable c) (d_configurable d)).

Definition define_fresh (d : descriptor) : prop :=
  MkProp (default VUndef (d_value d))
       (default false (d_writable d))
       (default false (d_enumerable d))
       (default false (d_configurable d)).

(** [Object.defineProperty(o, k, d)] on an object; [None] is the TypeError
    of a rejected definition. *)
Definition define_own_property (h : heap) (l : loc) (k : string)
    (d : descriptor) : option heap :=
  match h !! l with
  | None => None
  | Some o =>
      match assoc k (o_props o) with
      | None =>
          if o_extensible o then Some (set_own h l k (define_fresh d))
          else None
      | Some c =>
          if define_allowed c d then Some (set_own h l k (define_merge c d))
          else None
      end
  end.

Definition truthy (v : value) : bool :=
  match v with
  | VUndef | VNull => false
  | VBool b => b
  | VNum z => negb (z =? 0)%Z
  | VStr s => negb (bool_decide (s = ""))
  | VObj _ => true
  end.

Definition is_object (v : value) : bool :=
  match v with VObj _ => true | _ => false end.

(** [typeof v === "function"]. *)
Definition is_callable (h : heap) (v : value) : bool :=
  match v with
  | VObj l => match code_of h l with Some _ => true | None => false end
  | _ => false
  end.

(** ** The host's initial objects *)

(** Only the members the source reads or can collide with are listed. *)
Definition host : heap :=
  [ Obj None true None
      [("constructor", MkProp (VObj Object_ctor) true false true)];
    Obj (Some Object_prototype) true (Some CEmpty)
      [("length", MkProp (VNum 0) false false false)];
    Obj (Some Object_prototype) true None [];
    Obj (Some Function_prototype) true (Some CObject)
      [("length", MkProp (VNum 1) false false false);
       ("prototype", MkProp (VObj Object_prototype) false false false)] ].

(** ** Host operations as computations *)

Definition alloc (o : obj) : M loc :=
  fun h => Ret (length h) (h ++ [o]).

Definition getM (l : loc) (k : string) : M value :=
  fun h => Ret (get h l k) h.

(** [o[k] = v].  An assignment that the accessor's setter answers would
    re-target a prototype link, which the model leaves to the host. *)
Definition putM (l : loc) (k : string) (v : value) : M unit :=
  fun h => if accessor_hit h l k then Unsupported else Ret tt (put h l k v).

(** [v.k] for an arbitrary base value. *)
Definition get_v (v : value) (k : string) : M value :=
  match v with
  | VObj l => getM l k
  | VUndef | VNull => throw TypeError
  | _ => unsupported
  end.

(** [v.k = w] for an arbitrary base value. *)
Definition put_v (v : value) (k : string) (w : value) : M unit :=
  match v with
  | VObj l => putM l k w
  | VUndef | VNull => throw TypeError
  | _ => unsupported
  end.

(** [Object.defineProperty(v, k, d)]. *)
Definition defineProperty (v : value) (k : string) (d : descriptor) : M unit :=
  fun h =>
    match v with
    | VObj l =>
        match define_own_property h l k d with
        | Some h' => Ret tt h'
        | None => Throw TypeError h
        end
    | _ => Throw TypeError h
    end.

(** A property key that is already a string is itself; any other value
    goes through the host's conversion. *)
Definition to_key (v : value) : M string :=
  match v with
  | VStr s => ret s
  | _ => unsupported
  end.

(** The receiver a sloppy-mode function body sees in place of a missing
    one. *)
Definition sloppy_receiver (v : value) : value :=
  match v with
  | VUndef | VNull => VObj global
  | _ => v
  end.

(** The receiver of a sloppy-mode function body, as an object. *)
Definition this_object (v : value) : M loc :=
  match v with
  | VObj l => ret l
  | VUndef | VNull => ret global
  | _ => unsupported
  end.

(** A function expression or declaration: the function object and the
    fresh object its [prototype] property starts out with. *)
Definition new_function (c : code) (len : Z) : M loc :=
  fun h =>
    let f := length h in
    Ret f
      (h ++ [ Obj (Some Function_prototype) true (Some c)
                [("length", MkProp (VNum len) false false false);
                 ("prototype", MkProp (VObj (S f)) true false false)];
              Obj (Some Object_prototype) true None
                [("constructor", MkProp (VObj f) true false true)] ]).

(** An object literal [{}]. *)
Definition new_object : M loc :=
  alloc (Obj (Some Object_prototype) true None []).

(** [Object.create(v)]. *)
Definition Object_create (v : value) : M loc :=
  match v with
  | VObj p => alloc (Obj (Some p) true None [])
  | VNull => alloc (Obj None true None [])
  | _ => throw TypeError
  end.

(** The object [new F] starts from: its prototype is [F.prototype] when
    that is an object, the root prototype otherwise. *)
Definition new_instance (F : loc) : M loc :=
  let* p := getM F "prototype" in
  alloc (Obj (Some (match p with VObj l => l | _ => Object_prototype end))
             true None []).

Definition enumerable_keys (ps : list (string * prop)) : list string :=
  (filter (fun kp => p_enumerable kp.2 = true) ps).*1.

Definition own_keys (h : heap) (l : loc) : list string :=
  match h !! l with
  | Some o => enumerable_keys (o_props o)
  | None => []
  end.

(** [Object.keys(v)]: the own enumerable keys, in insertion order.  Hosts
    disagree on primitive arguments. *)
Definition Object_keys (v : value) : M (list string) :=
  match v with
  | VObj l => fun h => Ret (own_keys h l) h
  | VUndef | VNull => throw TypeError
  | _ => unsupported
  end.

(** The keys a [for (i in o)] loop visits: the enumerable properties of
    [o], then those of its prototypes that no nearer object shadows. *)
Fixpoint for_in_fuel (n : nat) (h : heap) (l : loc) (seen : list string)
  : list string :=
  match n with
  | 0 => []
  | S n' =>
      match h !! l with
      | None => []
      | Some o =>
          filter (fun k => k ∉ seen) (enumerable_keys (o_props o))
          ++ match o_proto o with
             | Some l' => for_in_fuel n' h l' (seen ++ (o_props o).*1)
             | None => []
             end
      end
  end.

Definition for_in_keys (v : value) : M (list string) :=
  match v with
  | VObj l => fun h => Ret (for_in_fuel (length h) h l []) h
  | VStr _ => unsupported
  | _ => ret []
  end.

(** What the host's own [hasOwnProperty] answers on the object [l]. *)
Definition has_own (h : heap) (l : loc) (k : string) : bool :=
  bool_decide (is_Some (own_prop h l k)).

(** Is [target] the object [l] itself or on its prototype chain? *)
Definition inherits (h : heap) (l target : loc) : bool :=
  bool_decide (l = target) || on_chain (length h) h l target.

(** [v instanceof F] for a function [F] of the model. *)
Definition instanceof (v : value) (F : loc) : M bool :=
  fun h =>
    match code_of h F with
    | None => Throw TypeError h
    | Some _ =>
        match v with
        | VObj l =>
            match get h F "prototype" with
            | VObj p => Ret (on_chain (length h) h l p) h
            | _ => Throw TypeError h
            end
        | _ => Ret false h
        end
    end.

(** ** Calls, and the members the host gives every object *)

(** How a body calls a function object: receiver, arguments, heap. *)
Definition caller := loc -> value -> list value -> M value.

(** A call [f(args)] or [o.f(args)] of the value [f] with receiver
    [this]. *)
Definition call_function (call : caller) (f : value) (this : value)
    (args : list value) : M value :=
  match f with
  | VObj l => call l this args
  | _ => throw TypeError
  end.

(** The members that every object has from the host ([hasOwnProperty],
    [valueOf] and [toString] of the root prototype, [apply] of the function
    prototype) are not listed in the heap.  The source reaches them by
    member lookup, so a member of the heap that is found under such a name
    takes the place of the host's, and an object that does not inherit from
    the host's prototype finds nothing. *)

(** [v.hasOwnProperty(k)] (line 56), for the values [for_in_keys] iterates
    over.  A member of the heap under that name is called with the key,
    and what it returns is read as a condition. *)
Definition hasOwnProperty (call : caller) (v : value) (k : string) : M bool :=
  match v with
  | VObj l => fun h =>
      match get_prop h l "hasOwnProperty" with
      | Some p =>
          (let* r := call_function call (p_value p) (VObj l) [VStr k] in
           ret (truthy r)) h
      | None =>
          if inherits h l Object_prototype then Ret (has_own h l k) h
          else Throw TypeError h
      end
  | _ => ret false
  end.

(** What [f.apply] is when it is not the host's: a member of the heap that
    is callable would be handed the arguments as an array, which the model
    leaves to the host; one that is not callable cannot be called. *)
Definition apply_member (p : prop) : M value :=
  fun h => if is_callable h (p_value p) then Unsupported else Throw TypeError h.

(** [f.apply(this, args)] (lines 125, 131, 223 and 231): the member [apply]
    is looked up on [f].  The host's [apply] calls [f]; a primitive [f]
    has the members of the root prototype only. *)
Definition apply (call : caller) (f : value) (this : value)
    (args : list value) : M value :=
  fun h =>
    match f with
    | VUndef | VNull => Throw TypeError h
    | VObj l =>
        match get_prop h l "apply" with
        | Some p => apply_member p h
        | None =>
            if inherits h l Function_prototype then call l this args h
            else Throw TypeError h
        end
    | _ =>
        match get_prop h Object_prototype "apply" with
        | Some p => apply_member p h
        | None => Throw TypeError h
        end
    end.

(** One step of the conversion of the object [l] to a primitive: the member
    [k] is called if it is callable; the host's own member gives a
    primitive or not, as [host] says.  The result tells whether a primitive
    came out. *)
Definition conversion_step (call : caller) (l : loc) (k : string)
    (host : bool) : M bool :=
  fun h =>
    match get_prop h l k with
    | Some p =>
        if is_callable h (p_value p) then
          (let* r := call_function call (p_value p) (VObj l) [] in
           ret (negb (is_object r))) h
        else Ret false h
    | None => Ret (inherits h l Object_prototype && host) h
    end.

(** [string + l] for an object [l] (line 120): [valueOf] is tried first,
    then [toString]; when neither gives a primitive the host raises a
    [TypeError]. *)
Definition concatenate (call : caller) (l : loc) : M unit :=
  let* done := conversion_step call l "valueOf" false in
  if done then ret tt
  else
    let* done' := conversion_step call l "toString" true in
    if done' then ret tt else throw TypeError.

(** [new F(args)], with the body of [F] run by [call]. *)
Definition construct_with (call : caller) (F : value) (args : list value)
  : M value :=
  fun h =>
    if is_callable h F then
      match F with
      | VObj f =>
          (let* o := new_instance f in
           let* r := call f (VObj o) args in
           ret (if is_object r then r else VObj o)) h
      | _ => Throw TypeError h
      end
    else Throw TypeError h.

(** ** The source: [mixin] (lines 48-66) *)

Definition mixin (call : caller) (this : value) (arguments : list value)
  : M value :=
  let obj := nth 0 arguments VUndef in
  let* self := this_object this in
  let* keys := for_in_keys obj in
  for_each keys (fun i =>
    let* own := hasOwnProperty call obj i in
    if own then
      let* v := get_v obj i in
      putM self i v
    else ret tt) ;;
  ret (VObj self).

(** ** The source: [bind] (lines 114-140) *)

(** The function object the top level binds to [Empty] (line 100); its
    number follows from the order of the definitions, see [load]. *)
Definition Empty : loc := 6.

(** The variable [Empty] of line 100 as the code reads it: a member of the
    global object, looked up each time it is named.  The model has no
    fault for a variable that was never declared. *)
Definition read_Empty : M value :=
  fun h =>
    match get_prop h global "Empty" with
    | Some p => Ret (p_value p) h
    | None => Unsupported
    end.

Definition bind (call : caller) (this : value) (arguments : list value)
  : M value :=
  fun h =>
    let receiver := sloppy_receiver this in
    if is_callable h receiver then
      match receiver with
      | VObj target =>
          (let that := nth 0 arguments VUndef in
           let args := drop 1 arguments in
           let* bound := new_function (CBound target that args) 0 in
           let* tp := getM target "prototype" in
           (if truthy tp then
              let* E1 := read_Empty in
              let* tp' := getM target "prototype" in
              put_v E1 "prototype" tp' ;;
              let* E2 := read_Empty in
              let* e := construct_with call E2 [] in
              putM bound "prototype" e ;;
              let* E3 := read_Empty in
              put_v E3 "prototype" VNull
            else ret tt) ;;
           ret (VObj bound)) h
      | _ => Throw TypeError h
      end
    else
      match receiver with
      | VObj target => (concatenate call target ;; throw TypeError) h
      | _ => Throw TypeError h
      end.

(** ** The source: [extend] (lines 206-269) *)

Definition apply_methods (Class methods : loc) (descriptor : value) : M unit :=
  let* keys := Object_keys descriptor in
  for_each keys (fun key =>
    let* v := get_v descriptor key in
    putM methods key v ;;
    let* cp := getM Class "prototype" in
    let* v' := get_v descriptor key in
    defineProperty cp key (Descriptor (Some v') None None (Some true))).

Definition extend (this : value) (arguments : list value) : M value :=
  let* self := this_object this in
  let* Class := new_function CClass 0 in
  let* methods := new_object in
  let mixins := arguments in
  let* pp := getM self "prototype" in
  let* cp := Object_create pp in
  putM Class "prototype" (VObj cp) ;;
  for_each mixins (fun mixin =>
    let* mm := get_v mixin "__methods__" in
    apply_methods Class methods (if truthy mm then mm else mixin)) ;;
  let* cp1 := getM Class "prototype" in
  let* cp2 := getM Class "prototype" in
  let* init := get_v cp2 "init" in
  put_v cp1 "constructor" (if truthy init then init else VObj Class) ;;
  defineProperty (VObj Class) "__methods__"
    (Descriptor (Some (VObj methods)) None None None) ;;
  ret (VObj Class).

(** ** The source: the closures [Class], [_super] and [bound] *)

(** Line 222: [this._super = function (superClass, method) {...}]. *)
Definition install_super (self : loc) : M unit :=
  let* s := new_function CSuper 2 in
  putM self "_super" (VObj s).

(** Lines 216-234. *)
Definition Class_fn (call : caller) (this : value) (arguments : list value)
  : M value :=
  let* self := this_object this in
  install_super self ;;
  let* init := getM self "init" in
  (if truthy init then
     let* init' := getM self "init" in
     apply call init' (VObj self) arguments ;; ret tt
   else ret tt) ;;
  ret (VObj self).

(** Lines 222-227. *)
Definition _super (call : caller) (this : value) (arguments : list value)
  : M value :=
  let superClass := nth 0 arguments VUndef in
  let method := nth 1 arguments VUndef in
  let* self := this_object this in
  let* p := get_v superClass "prototype" in
  let* k := to_key method in
  let* m := get_v p k in
  apply call m (VObj self) (drop 2 arguments).

(** Lines 123-133; [bound] is the closure itself, [target], [that] and
    [args] are the variables it captured in [bind]. *)
Definition bound_fn (call : caller) (bound target : loc) (that : value)
    (args : list value) (this : value) (arguments : list value) : M value :=
  let* self := this_object this in
  let* inst := instanceof (VObj self) bound in
  if inst then
    let* result := apply call (VObj target) (VObj self) (args ++ arguments) in
    if is_object result then ret result else ret (VObj self)
  else
    apply call (VObj target) that (args ++ arguments).

(** The host's [Object(v)]. *)
Definition Object_fn (arguments : list value) : M value :=
  match nth 0 arguments VUndef with
  | VObj l => ret (VObj l)
  | VUndef | VNull => let* o := new_object in ret (VObj o)
  | _ => unsupported
  end.

(** ** Calling and constructing *)

(** A function written by a user of the library: it receives the means to
    call back into the heap's functions, its receiver and its arguments. *)
Definition user_function := caller -> value -> list value -> M value.

Section Interpreter.

Variable user : nat -> user_function.

Fixpoint call (n : nat) (f : loc) (this : value) (args : list value)
    (h : heap) : outcome value :=
  match n with
  | 0 => OutOfFuel
  | S n' =>
      match code_of h f with
      | None => Throw TypeError h
      | Some (CUser i) => user i (call n') this args h
      | Some CObject => Object_fn args h
      | Some CEmpty => Ret VUndef h
      | Some CMixin => mixin (call n') this args h
      | Some CBind => bind (call n') this args h
      | Some CExtend => extend this args h
      | Some (CBound target that cs) =>
          bound_fn (call n') f target that cs this args h
      | Some CClass => Class_fn (call n') this args h
      | Some CSuper => _super (call n') this args h
      end
  end.

(** [new F(args)]. *)
Definition construct (n : nat) (F : value) (args : list value) : M value :=
  construct_with (call n) F args.

(** [o.k(args)]. *)
Definition call_method (n : nat) (o : loc) (k : string) (args : list value)
  : M value :=
  let* f := getM o k in
  call_function (call n) f (VObj o) args.

End Interpreter.

(** ** The source: the fallbacks for older hosts (lines 17-39 and 68-90) *)

(** The string thrown on line 36. *)
Definition not_supported : value :=
  VStr "melonJS: Object.defineProperty not supported".

(** Lines 25-38.  The attribute object [desc] is an object of the heap,
    read with [desc.get] and [desc.set]; [__defineGetter__] and
    [__defineSetter__] are whatever the lookup on [obj] finds, and [prop]
    is handed on to them as it came. *)
Definition defineProperty_fallback (call : caller) (arguments : list value)
  : M value :=
  let obj := nth 0 arguments VUndef in
  let prop := nth 1 arguments VUndef in
  let desc := nth 2 arguments VUndef in
  let* dg := get_v obj "__defineGetter__" in
  if truthy dg then
    let* g := get_v desc "get" in
    (if truthy g then
       let* f := get_v obj "__defineGetter__" in
       let* g' := get_v desc "get" in
       call_function call f obj [prop; g'] ;; ret tt
     else ret tt) ;;
    let* s := get_v desc "set" in
    (if truthy s then
       let* f := get_v obj "__defineSetter__" in
       let* s' := get_v desc "set" in
       call_function call f obj [prop; s'] ;; ret tt
     else ret tt) ;;
    ret VUndef
  else throw (Thrown not_supported).

(** Lines 85-89: [Fn] is a new function with an empty body. *)
Definition Object_create_fallback (user : nat -> user_function) (n : nat)
    (arguments : list value) : M value :=
  let o := nth 0 arguments VUndef in
  let* Fn := new_function CEmpty 0 in
  putM Fn "prototype" o ;;
  construct user n (VObj Fn) [].

(** ** The top level of the file *)

(** Lines 48, 98-114 and 206 on a host that has [Object.defineProperty]
    and [Object.create] but no [Function.prototype.bind]. *)
Definition load : M unit :=
  let* m := new_function CMixin 1 in
  defineProperty (VObj Object_prototype) "mixin"
    (Descriptor (Some (VObj m)) None (Some false) (Some false)) ;;
  let* e := new_function CEmpty 0 in
  defineProperty (VObj global) "Empty"
    (Descriptor (Some (VObj e)) (Some true) (Some true) (Some false)) ;;
  let* b := new_function CBind 1 in
  putM Function_prototype "bind" (VObj b) ;;
  let* x := new_function CExtend 0 in
  defineProperty (VObj Object_prototype) "extend"
    (Descriptor (Some (VObj x)) None None None).

(** The heap every program of the library starts from. *)
Definition loaded : heap :=
  match load host with
  | Ret _ h => h
  | _ => host
  end.

(** ** The example of the source's documentation (lines 155-204) *)

Module DocExample.

Definition literal (ms : list (string * value)) : M loc :=
  alloc (Obj (Some Object_prototype) true None
             (map (fun kv => (kv.1, MkProp kv.2 true true true)) ms)).

Definition invoke (call : caller) (o : value) (k : string)
    (args : list value) : M value :=
  let* f := get_v o k in
  call_function call f o args.

Definition user (i : nat) : user_function :=
  fun call this args =>
    match i with
    | 0 => (* Person.init *)
        put_v this "dancing" (nth 0 args VUndef) ;; ret VUndef
    | 1 => (* Person.dance *)
        get_v this "dancing"
    | 2 => (* Ninja.init *)
        let* Person := getM global "Person" in
        invoke call this "_super" [Person; VStr "init"; VBool false]
    | 3 => (* Ninja.dance *)
        let* Person := getM global "Person" in
        invoke call this "_super" [Person; VStr "dance"]
    | 4 => (* Ninja.swingSword *)
        ret (VBool true)
    | 5 => (* Pirate.init *)
        let* Person := getM global "Person" in
        invoke call this "_super" [Person; VStr "init"; VBool true]
    | _ => ret VUndef
    end.

Definition fn (i : nat) (len : Z) : M value :=
  let* f := new_function (CUser i) len in ret (VObj f).

Definition is_instance (v F : value) : M value :=
  match F with
  | VObj f => let* b := instanceof v f in ret (VBool b)
  | _ => throw TypeError
  end.

(** The three classes and one instance of each. *)
Definition setup (n : nat) : M (list value) :=
  let* init0 := fn 0 1 in
  let* dance0 := fn 1 0 in
  let* d0 := literal [("init", init0); ("dance", dance0)] in
  let* Person := invoke (call user n) (VObj Object_ctor) "extend" [VObj d0] in
  putM global "Person" Person ;;
  let* init1 := fn 2 0 in
  let* dance1 := fn 3 0 in
  let* swing := fn 4 0 in
  let* d1 :=
    literal [("init", init1); ("dance", dance1); ("swingSword", swing)] in
  let* Ninja := invoke (call user n) Person "extend" [VObj d1] in
  let* init2 := fn 5 0 in
  let* d2 := literal [("init", init2)] in
  let* Pirate := invoke (call user n) Person "extend" [Ninja; VObj d2] in
  let* p := construct user n Person [VBool true] in
  let* nj := construct user n Ninja [] in
  let* r := construct user n Pirate [] in
  ret [Person; Ninja; Pirate; p; nj; r].

(** The calls and the [instanceof] tests of lines 185-204. *)
Definition script (n : nat) : M (list value) :=
  let* vs := setup n in
  let Person := nth 0 vs VUndef in
  let Ninja := nth 1 vs VUndef in
  let Pirate := nth 2 vs VUndef in
  let p := nth 3 vs VUndef in
  let nj := nth 4 vs VUndef in
  let r := nth 5 vs VUndef in
  let* r1 := invoke (call user n) p "dance" [] in
  let* r2 := invoke (call user n) nj "dance" [] in
  let* r3 := invoke (call user n) nj "swingSword" [] in
  let* r4 := invoke (call user n) r "dance" [] in
  let* r5 := invoke (call user n) r "swingSword" [] in
  let* i1 := is_instance p Person in
  let* i2 := is_instance nj Ninja in
  let* i3 := is_instance nj Person in
  let* i4 := is_instance r Pirate in
  let* i5 := is_instance r Person in
  let* i6 := is_instance r Ninja in
  ret [r1; r2; r3; r4; r5; i1; i2; i3; i4; i5; i6].

(** The heap in which the classes and the three instances exist. *)
Definition world : heap :=
  match setup 5 loaded with
  | Ret _ h => h
  | _ => []
  end.

End DocExample.

(** ** A function bound to a context, then used with [new] *)

Module BindExample.

(** [function f() { return this; }] *)
Definition user (i : nat) : user_function :=
  fun call this args => ret this.

(** [b = f.bind(ctx); o = new b();] *)
Definition setup (n : nat) : M (list value) :=
  let* f := DocExample.fn 0 0 in
  let* ctx := DocExample.literal [] in
  let* b := DocExample.invoke (call user n) f "bind" [VObj ctx] in
  let* o := construct user n b [] in
  ret [f; VObj ctx; b; o].

Definition world : heap :=
  match setup 5 loaded with
  | Ret _ h => h
  | _ => []
  end.

(** The heap in which [f] and [ctx] exist and [bind] is about to run. *)
Definition before : heap :=
  match (let* f := DocExample.fn 0 0 in DocExample.literal []) loaded with
  | Ret _ h => h
  | _ => []
  end.

End BindExample.

(** ** Well-formed heaps *)

(** The prototype chain of [l] ends within [n] links. *)
Fixpoint chain_ok (n : nat) (h : heap) (l : loc) : bool :=
  match n with
  | 0 => false
  | S n' =>
      match h !! l with
      | None => false
      | Some o =>
          match o_proto o with
          | None => true
          | Some l' => chain_ok n' h l'
          end
      end
  end.

(** An object value names an object of the heap. *)
Definition value_ok (h : heap) (v : value) : bool :=
  match v with
  | VObj l => bool_decide (l < length h)
  | _ => true
  end.

Definition obj_ok (h : heap) (o : obj) : bool :=
  forallb (fun kp : string * prop => value_ok h (p_value kp.2)) (o_props o).

(** The host's objects are there, every prototype chain ends, and no
    property holds a dangling reference. *)
Definition wf_heap (h : heap) : Prop :=
  bool_decide (4 <= length h)
  && forallb (chain_ok (length h) h) (seq 0 (length h))
  && forallb (obj_ok h) h = true.

(** No property of the table holds a dangling reference. *)
Definition table_ok (g : heap) (ps : list (string * prop)) : Prop :=
  Forall (fun kp : string * prop => value_ok g (p_value kp.2) = true) ps.

(** ** Where the host's members are the ones found *)

(** [l.apply] is the host's: no member of the heap is named [apply] on the
    chain of [l], and the chain reaches the function prototype. *)
Definition host_apply (h : heap) (l : loc) : bool :=
  match get_prop h l "apply" with
  | Some _ => false
  | None => inherits h l Function_prototype
  end.

(** [f.apply(...)] is bound to fault: [f] has no [apply] at all, or one
    that is not callable, or the host's while not being a function. *)
Definition cannot_apply (h : heap) (f : value) : bool :=
  match f with
  | VUndef | VNull => true
  | VObj l =>
      match get_prop h l "apply" with
      | Some p => negb (is_callable h (p_value p))
      | None => negb (inherits h l Function_prototype && is_callable h f)
      end
  | _ =>
      match get_prop h Object_prototype "apply" with
      | Some p => negb (is_callable h (p_value p))
      | None => true
      end
  end.

(** [l.hasOwnProperty] is the host's. *)
Definition host_hasOwnProperty (h : heap) (l : loc) : bool :=
  match get_prop h l "hasOwnProperty" with
  | Some _ => false
  | None => inherits h l Object_prototype
  end.


(** The variable [Empty] holds a function [E] with an empty body, as line
    100 made it (not the function prototype, which is no constructor), and
    the [prototype] of [E] can be assigned. *)
Definition scratch (h : heap) (E : loc) : bool :=
  match get_prop h global "Empty" with
  | Some p => bool_decide (p_value p = VObj E)
  | None => false
  end
  && negb (bool_decide (E = Function_prototype))
  && match code_of h E with Some CEmpty => true | _ => false end
  && match own_prop h E "prototype" with
     | Some q => p_writable q
     | None => false
     end.

(** The attribute objects of the source are object literals, and the host
    looks for the fields a literal leaves out on the root prototype.  The
    model takes the literals as written; where attributes matter, a
    statement asks for a root prototype that holds no member named like
    such a field. *)
Definition root_plain (h : heap) : bool :=
  forallb (fun k => match get_prop h Object_prototype k with
                    | None => true
                    | Some _ => false
                    end)
          ["writable"; "enumerable"; "configurable"; "get"; "set"].

(** A host gives every function object read-only members named [name],
    [arguments] and [caller], and the global object the read-only members
    [NaN], [Infinity] and [undefined]; the heap does not list them.  What
    an assignment under such a name does to an object that has a function
    or the global object on its chain is left to the host. *)
Definition reserved_names : list string :=
  ["name"; "arguments"; "caller"; "NaN"; "Infinity"; "undefined"].

(** Neither a function nor the global object is on the chain of [l], [l]
    included. *)
Fixpoint plain_chain (n : nat) (h : heap) (l : loc) : bool :=
  match n with
  | 0 => false
  | S n' =>
      negb (is_callable h (VObj l)) && negb (bool_decide (l = global))
      && match proto_of h l with
         | Some p => plain_chain n' h p
         | None => true
         end
  end.

(** [r.mixin(obj)] makes no assignment of that kind: the chain of [r] is
    plain, or [obj] has no enumerable member under a reserved name. *)
Definition spares_reserved (h : heap) (r obj : loc) : bool :=
  plain_chain (length h) h r
  || forallb (fun k => bool_decide (k ∉ own_keys h obj)) reserved_names.

(** ** What a list of mixins contributes *)

(** Line 256: [mixin.__methods__ || mixin]. *)
Definition descriptor_of (h : heap) (mixin : value) : value :=
  match mixin with
  | VObj m =>
      let mm := get h m "__methods__" in
      if truthy mm then mm else mixin
  | _ => mixin
  end.

(** The pairs [key, descriptor[key]] that [apply_methods] walks through. *)
Definition entries (h : heap) (d : value) : list (string * value) :=
  match d with
  | VObj l => map (fun k => (k, get h l k)) (own_keys h l)
  | _ => []
  end.

(** All of them, in argument order. *)
Definition merged (h : heap) (mixins : list value) : list (string * value) :=
  concat (map (fun m => entries h (descriptor_of h m)) mixins).

(** The value the last of the entries named [k] carries. *)
Definition last_entry (k : string) (es : list (string * value))
  : option value :=
  assoc k (rev es).

(** A mixin that [extend] can work through: an object of the heap whose
    descriptor is an object with no enumerable member named [__proto__]. *)
Definition plain_mixin (h : heap) (m : value) : bool :=
  value_ok h m
  && match descriptor_of h m with
     | VObj d => bool_decide ("__proto__" ∉ own_keys h d)
     | _ => false
     end.

(** A value that [Object.create] accepts as a prototype. *)
Definition prototype_like (v : value) : bool :=
  match v with
  | VObj _ | VNull => true
  | _ => false
  end.

(** ** The objects [extend] builds *)

(** What [o[k] = v] makes of the property table [ps] of an extensible
    object that inherits [inherited] under the name [k]. *)
Definition assign (inherited : option prop) (ps : list (string * prop))
    (k : string) (v : value) : list (string * prop) :=
  match assoc k ps with
  | Some p =>
      if p_writable p
      then assoc_set k
             (MkProp v (p_writable p) (p_enumerable p) (p_configurable p)) ps
      else ps
  | None =>
      if match inherited with Some p => p_writable p | None => true end
      then assoc_set k (MkProp v true true true) ps
      else ps
  end.

(** What [Object.defineProperty(o, k, {configurable: true, value: v})]
    makes of a table whose entries are all configurable. *)
Definition define_method (ps : list (string * prop)) (k : string) (v : value)
  : list (string * prop) :=
  assoc_set k
    match assoc k ps with
    | Some c => MkProp v (p_writable c) (p_enumerable c) true
    | None => MkProp v false false true
    end ps.

(** The table of [methods] after the entries [es] went through line 242. *)
Definition methods_table (h : heap) (es : list (string * value))
    (pm : list (string * prop)) : list (string * prop) :=
  fold_left (fun pm kv => assign (get_prop h Object_prototype kv.1) pm kv.1 kv.2)
            es pm.

(** The table of [Class.prototype] after they went through line 244. *)
Definition prototype_table (es : list (string * value))
    (pc : list (string * prop)) : list (string * prop) :=
  fold_left (fun pc kv => define_method pc kv.1 kv.2) es pc.

(** The function object [Class] with its own properties. *)
Definition class_object (h : heap) (extra : list (string * prop)) : obj :=
  Obj (Some Function_prototype) true (Some CClass)
      ([("length", MkProp (VNum 0) false false false);
        ("prototype", MkProp (VObj (length h + 3)) true false false)]
       ++ extra).

(** The prototype object [Class] is created with and [extend] replaces. *)
Definition first_prototype (h : heap) : obj :=
  Obj (Some Object_prototype) true None
      [("constructor", MkProp (VObj (length h)) true false true)].

(** The heap [h] with the four objects of one [extend] call: [Class], its
    first prototype, [methods] with table [pm], and the new prototype with
    parent [parent] and table [pc]. *)
Definition built (h : heap) (parent : option loc)
    (extra pm pc : list (string * prop)) : heap :=
  h ++ [class_object h extra; first_prototype h;
        Obj (Some Object_prototype) true None pm;
        Obj parent true None pc].

(** [[GetProperty]] on that new prototype, in terms of [h]. *)
Definition chain_get (h : heap) (parent : option loc)
    (pc : list (string * prop)) (k : string) : option prop :=
  match assoc k pc with
  | Some p => Some p
  | None =>
      match parent with
      | Some p => get_prop h p k
      | None => None
      end
  end.

Definition chain_value (h : heap) (parent : option loc)
    (pc : list (string * prop)) (k : string) : value :=
  match chain_get h parent pc k with
  | Some p => p_value p
  | None => VUndef
  end.

(** The value line 260 assigns to [constructor]. *)
Definition marker (h : heap) (parent : option loc)
    (pc : list (string * prop)) : value :=
  let init := chain_value h parent pc "init" in
  if truthy init then init else VObj (length h).

(** The prototype link [Object.create(v)] gives. *)
Definition parent_of (v : value) : option loc :=
  match v with
  | VObj p => Some p
  | _ => None
  end.

Definition all_configurable (ps : list (string * prop)) : Prop :=
  ∀ k c, assoc k ps = Some c → p_configurable c = true.


(** May a property named [k] be added by assignment to a fresh object
    whose prototype is [parent]? *)
Definition assignable_under (h : heap) (parent : option loc) (k : string)
  : bool :=
  match parent with
  | Some p =>
      match get_prop h p k with
      | Some q => p_writable q
      | None => true
      end
  | None => true
  end.

(** ** The objects a construction allocates *)

(** The object [new] starts from, for a class whose prototype is [cp]. *)
Definition fresh_instance (cp : loc) : obj := Obj (Some cp) true None [].

(** The [_super] closure allocated at [s], with its prototype object. *)
Definition super_function (s : loc) : list obj :=
  [ Obj (Some Function_prototype) true (Some CSuper)
      [("length", MkProp (VNum 2) false false false);
       ("prototype", MkProp (VObj (S s)) true false false)];
    Obj (Some Object_prototype) true None
      [("constructor", MkProp (VObj s) true false true)] ].

(** The heap after [new] has made the instance and line 222 has run. *)
Definition instantiated (g : heap) (cp : loc) : heap :=
  put ((g ++ [fresh_instance cp]) ++ super_function (S (length g)))
      (length g) "_super" (VObj (S (length g))).

(** What [Class] does after line 222, with the initializer [init]. *)
Definition initialize (call : caller) (init : value) (o : loc)
    (arguments : list value) : M value :=
  (if truthy init then apply call init (VObj o) arguments ;; ret tt
   else ret tt) ;;
  ret (VObj o).

(** ** The objects [bind] allocates *)

(** The [bound] closure allocated at [b], with the prototype object every
    function is created with. *)
Definition bound_function (b target : loc) (that : value)
    (args : list value) : list obj :=
  [ Obj (Some Function_prototype) true (Some (CBound target that args))
      [("length", MkProp (VNum 0) false false false);
       ("prototype", MkProp (VObj (S b)) true false false)];
    Obj (Some Object_prototype) true None
      [("constructor", MkProp (VObj b) true false true)] ].

(** The heap [bind] leaves behind (lines 122-139) when its receiver
    [target] is a function and the variable [Empty] holds the function
    [E]. *)
Definition bound_heap (h : heap) (E target : loc) (arguments : list value)
  : heap :=
  let h1 := h ++ bound_function (length h) target (nth 0 arguments VUndef)
                   (drop 1 arguments) in
  let tp := get h1 target "prototype" in
  if truthy tp then
    put (put (put h1 E "prototype" tp
              ++ [fresh_instance (match tp with
                                  | VObj l => l
                                  | _ => Object_prototype
                                  end)])
             (length h) "prototype" (VObj (length h + 2)))
        E "prototype" VNull
  else h1.

(** ** A class made with a mixin that defines [_super] *)

Module SuperExample.

(** [A = Object.extend({_super: function () { return true; }});
    a = new A();] *)
Definition setup (n : nat) : M (list value) :=
  let* f := DocExample.fn 4 0 in
  let* d := DocExample.literal [("_super", f)] in
  let* A := extend (VObj Object_ctor) [VObj d] in
  let* a := construct DocExample.user n A [] in
  ret [f; VObj d; A; a].

Definition before : heap :=
  match (let* f := DocExample.fn 4 0 in
         let* d := DocExample.literal [("_super", f)] in
         extend (VObj Object_ctor) [VObj d]) loaded with
  | Ret _ h => h
  | _ => []
  end.

Definition world : heap :=
  match setup 5 loaded with
  | Ret _ h => h
  | _ => []
  end.

End SuperExample.

(** ** A mixin with a method that is not enumerable *)

Module HiddenExample.

(** [d = {visible: function () {}}] and then
    [Object.defineProperty(d, "hidden", {value: function () {}})]. *)
Definition before : heap :=
  match (let* f := DocExample.fn 0 0 in
         let* g := DocExample.fn 1 0 in
         let* d := DocExample.literal [("visible", f)] in
         defineProperty (VObj d) "hidden"
           (Descriptor (Some g) None None None)) loaded with
  | Ret _ h => h
  | _ => []
  end.

(** [A = Object.extend({run: function () {}});
    A.create = function () {};] *)
Definition statics : heap :=
  match (let* f := DocExample.fn 0 0 in
         let* g := DocExample.fn 1 0 in
         let* d := DocExample.literal [("run", f)] in
         let* A := extend (VObj Object_ctor) [VObj d] in
         put_v A "create" g) loaded with
  | Ret _ h => h
  | _ => []
  end.

End HiddenExample.

(** ** A class with a method named [extend], used as a mixin *)

Module RegistryExample.

(** [A = Object.extend({extend: f, run: g}); B = Object.extend(A);] *)
Definition setup : M (list value) :=
  let* f := DocExample.fn 0 0 in
  let* g := DocExample.fn 1 0 in
  let* d := DocExample.literal [("extend", f); ("run", g)] in
  let* A := extend (VObj Object_ctor) [VObj d] in
  let* B := extend (VObj Object_ctor) [A] in
  ret [f; g; VObj d; A; B].

Definition world : heap :=
  match setup loaded with
  | Ret _ h => h
  | _ => []
  end.

End RegistryExample.

(** ** A receiver with a property of its own that is not writable *)

Module MixinExample.

(** [r = {}; Object.defineProperty(r, "speed", {value: 1});
    obj = {speed: 2, sound: 3};] *)
Definition before : heap :=
  match (let* r := DocExample.literal [] in
         defineProperty (VObj r) "speed"
           (Descriptor (Some (VNum 1)) None None None) ;;
         DocExample.literal [("speed", VNum 2); ("sound", VNum 3)]) loaded with
  | Ret _ h => h
  | _ => []
  end.

End MixinExample.

(** ** A host that knows [__defineGetter__] but not [Object.defineProperty] *)

Module LegacyExample.

(** [Object.prototype.__defineGetter__] is some function; [o = {}],
    [f = function () {}] and the attribute object [{value: f}]. *)
Definition before : heap :=
  match (let* dg := DocExample.fn 0 2 in
         put_v (VObj Object_prototype) "__defineGetter__" dg ;;
         let* o := DocExample.literal [] in
         let* f := DocExample.fn 1 0 in
         DocExample.literal [("value", f)]) host with
  | Ret _ h => h
  | _ => []
  end.

End LegacyExample.

(** ** A class whose [init] is not a function *)

Module InitExample.

(** [A = Object.extend({init: 5});] *)
Definition before : heap :=
  match (let* d := DocExample.literal [("init", VNum 5)] in
         extend (VObj Object_ctor) [VObj d]) loaded with
  | Ret _ h => h
  | _ => []
  end.

End InitExample.

(** ** A class whose ancestor defines [_super] *)

Module DispatchExample.

(** [P = Object.extend({_super: function () { return true; },
                        dance: function () { return this.dancing; }});
    C = P.extend(); c = new C();] *)
Definition setup (n : nat) : M (list value) :=
  let* s := DocExample.fn 4 0 in
  let* d := DocExample.fn 1 0 in
  let* lit := DocExample.literal [("_super", s); ("dance", d)] in
  let* P := extend (VObj Object_ctor) [VObj lit] in
  let* C := extend P [] in
  let* c := construct DocExample.user n C [] in
  ret [s; d; P; C; c].

Definition world : heap :=
  match setup 5 loaded with
  | Ret _ h => h
  | _ => []
  end.

End DispatchExample.

(** ** Receivers and globals that make [bind] fault *)

Module FaultExample.

(** [function () { throw "no"; }] *)
Definition user (i : nat) : user_function :=
  fun call this args => throw (Thrown (VStr "no")).

(** [o = {toString: function () { throw "no"; }};] *)
Definition before : heap :=
  match (let* f := DocExample.fn 0 0 in
         DocExample.literal [("toString", f)]) loaded with
  | Ret _ h => h
  | _ => []
  end.


End FaultExample.

(** ** Frames *)

(** [g] keeps every object of [h] as it is. *)
Definition preserves (h g : heap) : Prop :=
  ∀ l, l < length h → g !! l = h !! l.

(** Whenever [m] started in [h] ends in a heap, normally or by a fault,
    that heap satisfies [Q]. *)
Definition ensures {A} (m : M A) (h : heap) (Q : heap → Prop) : Prop :=
  match m h with
  | Ret _ h' | Throw _ h' => Q h'
  | _ => True
  end.

(** While [extend] runs: the old objects are as they were, the four new
    ones are there, and [Class.prototype] is the new prototype object. *)
Definition extending (h hc : heap) : Prop :=
  preserves h hc
  ∧ length hc = length h + 4
  ∧ own_value hc (length h) "prototype" = Some (VObj (length h + 3)).

(** ** What [mixin] copies *)

(** The members of [obj] that [r.mixin(obj)] lays hands on: own, enumerable,
    and under a name that [r] accepts an assignment to. *)
Definition copied (h : heap) (r obj : loc) (k : string) : bool :=
  bool_decide (k ∈ own_keys h obj) && can_put h r k.

(** The state of a [mixin] loop that has gone through the keys [seen]. *)
Definition mixing (h : heap) (r obj : loc) (seen : list string) (hc : heap)
  : Prop :=
  length hc = length h
  ∧ (∀ l, l ≠ r → hc !! l = h !! l)
  ∧ proto_of hc r = proto_of h r
  ∧ code_of hc r = code_of h r
  ∧ extensible hc r = extensible h r
  ∧ (∀ k, can_put hc r k = can_put h r k)
  ∧ (∀ k, own_value hc obj k = own_value h obj k)
  ∧ (∀ k, own_value hc r k
          = if bool_decide (k ∈ seen) && bool_decide (is_Some (own_prop h obj k))
               && can_put h r k
            then own_value h obj k else own_value h r k).

(** The property that [o[k] = v] leaves under the name [k], where the
    object held [old] under it: the attributes of an existing property
    stay, a new property gets all three. *)
Definition assigned (old : option prop) (v : value) : prop :=
  match old with
  | Some p => MkProp v (p_writable p) (p_enumerable p) (p_configurable p)
  | None => MkProp v true true true
  end.

(** The heap an outcome ends in, when it has one. *)
Definition final_heap {A} (o : outcome A) : option heap :=
  match o with
  | Ret _ h | Throw _ h => Some h
  | _ => None
  end.

(** * Properties *)

(** ** Stepping through a computation *)

Lemma and_then_Ret {A B} (m : M A) (k : A → M B) h a h' :
  m h = Ret a h' → (let* x := m in k x) h = k a h'.
Proof. intros Hm. unfold and_then. by rewrite Hm. Qed.

Lemma and_then_Throw {A B} (m : M A) (k : A → M B) h e h' :
  m h = Throw e h' → (let* x := m in k x) h = Throw e h'.
Proof. intros Hm. unfold and_then. by rewrite Hm. Qed.

(** ** Property tables *)

Lemma assoc_set_eq {A} k (a : A) ps : assoc k (assoc_set k a ps) = Some a.
Proof.
  induction ps as [|[k' a'] ps IH]; simpl.
  - by rewrite decide_True.
  - destruct (decide (k = k')) as [->|Hne]; simpl.
    + by rewrite decide_True.
    + by rewrite decide_False.
Qed.

Lemma assoc_set_ne {A} k k' (a : A) ps :
  k ≠ k' → assoc k' (assoc_set k a ps) = assoc k' ps.
Proof.
  intros Hne. induction ps as [|[k1 a1] ps IH]; simpl.
  - rewrite decide_False; [done | congruence].
  - destruct (decide (k = k1)) as [->|Hne1]; simpl.
    + rewrite !decide_False; [done | congruence | congruence].
    + destruct (decide (k' = k1)); [done | apply IH].
Qed.

Lemma assoc_set_lookup {A} k k' (a : A) ps :
  assoc k' (assoc_set k a ps) = if decide (k = k') then Some a else assoc k' ps.
Proof.
  destruct (decide (k = k')) as [->|Hne].
  - apply assoc_set_eq.
  - by apply assoc_set_ne.
Qed.

Lemma assoc_app {A} k (ps qs : list (string * A)) :
  assoc k (ps ++ qs) = match assoc k ps with Some a => Some a | None => assoc k qs end.
Proof.
  induction ps as [|[k' a'] ps IH]; simpl; [done|].
  by destruct (decide (k = k')).
Qed.

(** ** Updates touch one object *)

Lemma set_own_length h l k p : length (set_own h l k p) = length h.
Proof. unfold set_own. destruct (h !! l); [apply length_insert | done]. Qed.

Lemma set_own_lookup_ne h l l' k p : l ≠ l' → set_own h l k p !! l' = h !! l'.
Proof.
  intros Hne. unfold set_own. destruct (h !! l); [|done].
  by apply list_lookup_insert_ne.
Qed.

Lemma set_own_lookup_eq h l k p o :
  h !! l = Some o →
  set_own h l k p !! l
  = Some (Obj (o_proto o) (o_extensible o) (o_code o) (assoc_set k p (o_props o))).
Proof.
  intros Hl. unfold set_own. rewrite Hl.
  apply list_lookup_insert_eq. by eapply lookup_lt_Some.
Qed.

Lemma set_own_app h tl i k p :
  set_own (h ++ tl) (length h + i) k p = h ++ set_own tl i k p.
Proof.
  assert (Hi : length h + i - length h = i) by lia.
  unfold set_own. rewrite lookup_app_r, Hi by lia.
  destruct (tl !! i) as [o|]; [|done].
  by rewrite insert_app_r_alt, Hi by lia.
Qed.

Lemma put_length h l k v : length (put h l k v) = length h.
Proof.
  unfold put. destruct (can_put h l k); [|done].
  destruct (own_prop h l k); apply set_own_length.
Qed.

Lemma put_lookup_ne h l l' k v : l ≠ l' → put h l k v !! l' = h !! l'.
Proof.
  intros Hne. unfold put. destruct (can_put h l k); [|done].
  destruct (own_prop h l k); by apply set_own_lookup_ne.
Qed.

Lemma define_length h l k d h' :
  define_own_property h l k d = Some h' → length h' = length h.
Proof.
  unfold define_own_property. intros Hd.
  destruct (h !! l) as [o|]; [|done].
  destruct (assoc k (o_props o)) as [c|].
  - destruct (define_allowed c d); simplify_eq. apply set_own_length.
  - destruct (o_extensible o); simplify_eq. apply set_own_length.
Qed.

Lemma define_lookup_ne h l l' k d h' :
  define_own_property h l k d = Some h' → l ≠ l' → h' !! l' = h !! l'.
Proof.
  unfold define_own_property. intros Hd Hne.
  destruct (h !! l) as [o|]; [|done].
  destruct (assoc k (o_props o)) as [c|].
  - destruct (define_allowed c d); simplify_eq. by apply set_own_lookup_ne.
  - destruct (o_extensible o); simplify_eq. by apply set_own_lookup_ne.
Qed.

(** An update of a property table leaves links, code and flags alone. *)

Lemma set_own_code h l k p l' : code_of (set_own h l k p) l' = code_of h l'.
Proof.
  unfold code_of. destruct (decide (l = l')) as [<-|Hne].
  - destruct (h !! l) as [o|] eqn:Hl.
    + by rewrite (set_own_lookup_eq _ _ _ _ _ Hl).
    + unfold set_own. rewrite Hl. by rewrite Hl.
  - by rewrite set_own_lookup_ne.
Qed.

Lemma set_own_proto h l k p l' : proto_of (set_own h l k p) l' = proto_of h l'.
Proof.
  unfold proto_of. destruct (decide (l = l')) as [<-|Hne].
  - destruct (h !! l) as [o|] eqn:Hl.
    + by rewrite (set_own_lookup_eq _ _ _ _ _ Hl).
    + unfold set_own. rewrite Hl. by rewrite Hl.
  - by rewrite set_own_lookup_ne.
Qed.

Lemma put_code h l k v l' : code_of (put h l k v) l' = code_of h l'.
Proof.
  unfold put. destruct (can_put h l k); [|done].
  destruct (own_prop h l k); apply set_own_code.
Qed.

Lemma put_proto h l k v l' : proto_of (put h l k v) l' = proto_of h l'.
Proof.
  unfold put. destruct (can_put h l k); [|done].
  destruct (own_prop h l k); apply set_own_proto.
Qed.

Lemma code_of_app_l h tl l : l < length h → code_of (h ++ tl) l = code_of h l.
Proof. intros Hl. unfold code_of. by rewrite lookup_app_l. Qed.

Lemma code_of_lt h l c : code_of h l = Some c → l < length h.
Proof.
  unfold code_of. destruct (h !! l) eqn:Hl; [|done].
  intros _. by eapply lookup_lt_Some.
Qed.

Lemma code_of_app_r h tl i : code_of (h ++ tl) (length h + i) = code_of tl i.
Proof.
  unfold code_of. rewrite lookup_app_r by lia.
  by replace (length h + i - length h) with i by lia.
Qed.

Lemma own_prop_app_l h tl l k :
  l < length h → own_prop (h ++ tl) l k = own_prop h l k.
Proof. intros Hl. unfold own_prop. by rewrite lookup_app_l. Qed.

Lemma own_prop_app_r h tl i k :
  own_prop (h ++ tl) (length h + i) k = own_prop tl i k.
Proof.
  unfold own_prop. rewrite lookup_app_r by lia.
  by replace (length h + i - length h) with i by lia.
Qed.

Lemma own_prop_app_0 h tl k :
  own_prop (h ++ tl) (length h) k = own_prop tl 0 k.
Proof. rewrite <- (own_prop_app_r h tl 0 k). by rewrite Nat.add_0_r. Qed.

Lemma code_of_app_0 h tl : code_of (h ++ tl) (length h) = code_of tl 0.
Proof. rewrite <- (code_of_app_r h tl 0). by rewrite Nat.add_0_r. Qed.

Lemma own_prop_set_own_eq h l k p :
  is_Some (h !! l) → own_prop (set_own h l k p) l k = Some p.
Proof.
  intros [o Hl]. unfold own_prop.
  rewrite (set_own_lookup_eq _ _ _ _ _ Hl). simpl. apply assoc_set_eq.
Qed.

Lemma own_prop_set_own_ne h l k p l' k' :
  l ≠ l' ∨ k ≠ k' → own_prop (set_own h l k p) l' k' = own_prop h l' k'.
Proof.
  intros Hne. unfold own_prop.
  destruct (decide (l = l')) as [<-|Hl]; [|by rewrite set_own_lookup_ne].
  destruct Hne as [|Hk]; [done|].
  destruct (h !! l) as [o|] eqn:Hlk.
  - rewrite (set_own_lookup_eq _ _ _ _ _ Hlk). simpl. by apply assoc_set_ne.
  - unfold set_own. rewrite Hlk. by rewrite Hlk.
Qed.

Lemma own_prop_put_ne h l k v l' k' :
  l ≠ l' ∨ k ≠ k' → own_prop (put h l k v) l' k' = own_prop h l' k'.
Proof.
  intros Hne. unfold put. destruct (can_put h l k); [|done].
  destruct (own_prop h l k); by apply own_prop_set_own_ne.
Qed.

Lemma can_put_is_Some h l k : can_put h l k = true → is_Some (h !! l).
Proof.
  unfold can_put, own_prop, extensible.
  destruct (h !! l); [by eauto | done].
Qed.

Lemma own_value_put_eq h l k v :
  can_put h l k = true → own_value (put h l k v) l k = Some v.
Proof.
  intros Hc. pose proof (can_put_is_Some _ _ _ Hc) as Hl.
  unfold own_value, put. rewrite Hc.
  destruct (own_prop h l k); by rewrite own_prop_set_own_eq.
Qed.

(** ** Lookups that stay inside the older part of a heap *)

Lemma preserves_refl h : preserves h h.
Proof. by intros l _. Qed.

Lemma preserves_app h tl : preserves h (h ++ tl).
Proof. intros l Hl. by apply lookup_app_l. Qed.

Lemma preserves_length h g : preserves h g → length h ≤ length g.
Proof.
  intros Hp. destruct (decide (length h ≤ length g)) as [|Hn]; [done|].
  exfalso. assert (Hlt : length g < length h) by lia.
  specialize (Hp (length g) Hlt).
  rewrite (lookup_ge_None_2 g (length g)) in Hp by lia.
  symmetry in Hp. apply lookup_ge_None_1 in Hp. lia.
Qed.

Lemma get_prop_fuel_preserved n m h g l k :
  chain_ok n h l = true → n ≤ m → preserves h g →
  get_prop_fuel m g l k = get_prop_fuel n h l k.
Proof.
  revert m l. induction n as [|n IH]; intros m l Hc Hm Hp; [done|].
  destruct m as [|m]; [lia|]. simpl in *.
  destruct (h !! l) as [o|] eqn:Hl; [|done].
  rewrite Hp by (by eapply lookup_lt_Some). rewrite Hl.
  destruct (assoc k (o_props o)); [done|].
  destruct (o_proto o); [|done]. apply IH; [done | lia | done].
Qed.

Lemma wf_heap_inv h :
  wf_heap h →
  4 ≤ length h
  ∧ (∀ l, l < length h → chain_ok (length h) h l = true)
  ∧ (∀ l k p l', own_prop h l k = Some p → p_value p = VObj l' → l' < length h).
Proof.
  unfold wf_heap. rewrite !andb_true_iff. intros [[H4 Hc] Hv].
  apply bool_decide_eq_true in H4.
  split; [done|]. split.
  - intros l Hl. rewrite forallb_forall in Hc. apply Hc.
    apply in_seq. lia.
  - intros l k p l' Hown Hval. unfold own_prop in Hown.
    destruct (h !! l) as [o|] eqn:Hl; [|done].
    rewrite forallb_forall in Hv.
    assert (Ho : obj_ok h o = true).
    { apply Hv. apply list_elem_of_In. by eapply list_elem_of_lookup_2. }
    unfold obj_ok in Ho. rewrite forallb_forall in Ho.
    clear Hl Hv. induction (o_props o) as [|[k1 p1] ps IHps]; [done|].
    simpl in Hown. destruct (decide (k = k1)) as [->|].
    + simplify_eq. specialize (Ho (k1, p) (or_introl eq_refl)).
      simpl in Ho. rewrite Hval in Ho. by apply bool_decide_eq_true in Ho.
    + apply IHps; [done|]. intros x Hx. apply Ho. by right.
Qed.

Lemma get_prop_in_chain n h l k p :
  get_prop_fuel n h l k = Some p → ∃ l', own_prop h l' k = Some p.
Proof.
  revert l. induction n as [|n IH]; intros l; simpl; [done|].
  destruct (h !! l) as [o|] eqn:Hl; [|done].
  destruct (assoc k (o_props o)) as [q|] eqn:Ha.
  - intros [= <-]. exists l. unfold own_prop. by rewrite Hl.
  - destruct (o_proto o); [apply IH | done].
Qed.

Lemma accessor_hit_ne h l k : k ≠ "__proto__" → accessor_hit h l k = false.
Proof. intros Hk. unfold accessor_hit. by rewrite bool_decide_eq_false_2. Qed.

(** Assignments under the names the source spells out are assignments to
    data properties. *)
Ltac data_keys :=
  unfold putM, accessor_hit;
  repeat match goal with
         | |- context [bool_decide (?k = "__proto__")] =>
             rewrite (bool_decide_eq_false_2 (k = "__proto__")) by done
         end;
  cbn [andb].

Ltac data_keys_in H :=
  unfold putM, accessor_hit in H;
  repeat match type of H with
         | context [bool_decide (?k = "__proto__")] =>
             rewrite (bool_decide_eq_false_2 (k = "__proto__")) in H by done
         end;
  cbn [andb] in H.

(** Under any other name [[Get]] is the lookup of a data property. *)
Lemma get_data h l k :
  k ≠ "__proto__" →
  get h l k = match get_prop h l k with Some p => p_value p | None => VUndef end.
Proof. intros Hk. unfold get. by rewrite accessor_hit_ne. Qed.

Lemma putM_data l k v h : k ≠ "__proto__" → putM l k v h = Ret tt (put h l k v).
Proof. intros Hk. unfold putM. by rewrite accessor_hit_ne. Qed.

Lemma chain_ok_proto n h l p :
  chain_ok n h l = true → proto_of h l = Some p → p < length h.
Proof.
  destruct n as [|n]; [done|]. simpl. unfold proto_of.
  destruct (h !! l) as [o|]; [|done]. intros Hc Hp. rewrite Hp in Hc.
  destruct n as [|n]; [done|]. simpl in Hc.
  destruct (h !! p) eqn:Hl; [|done]. by eapply lookup_lt_Some.
Qed.

Lemma get_value_ok h l k l' :
  wf_heap h → get h l k = VObj l' → l' < length h.
Proof.
  intros (_ & Hc & Hv)%wf_heap_inv. unfold get, get_prop.
  destruct (get_prop_fuel _ h l k) as [p|] eqn:Hg.
  - intros Hp. apply get_prop_in_chain in Hg as [l0 Hown]. eauto.
  - destruct (accessor_hit h l k); [|done].
    destruct (proto_of h l) as [p|] eqn:Hp; [|done]. intros [= <-].
    eapply chain_ok_proto; [|done]. apply Hc.
    unfold proto_of in Hp. destruct (h !! l) eqn:Hl; [|done].
    by eapply lookup_lt_Some.
Qed.

Lemma get_prop_preserved h g l k :
  wf_heap h → l < length h → preserves h g →
  get_prop g l k = get_prop h l k.
Proof.
  intros (_ & Hc & _)%wf_heap_inv Hl Hp. unfold get_prop.
  apply get_prop_fuel_preserved; [by apply Hc | by apply preserves_length | done].
Qed.

Lemma proto_of_preserved h g l :
  preserves h g → l < length h → proto_of g l = proto_of h l.
Proof. intros Hp Hl. unfold proto_of. by rewrite Hp. Qed.

Lemma on_chain_preserved n m h g l t :
  chain_ok n h l = true → n ≤ m → preserves h g →
  on_chain m g l t = on_chain n h l t.
Proof.
  revert m l. induction n as [|n IH]; intros m l Hc Hm Hp; [done|].
  destruct m as [|m]; [lia|]. simpl in *. unfold proto_of.
  destruct (h !! l) as [o|] eqn:Hl; [|done].
  rewrite Hp by (by eapply lookup_lt_Some). rewrite Hl.
  destruct (o_proto o); [|done]. f_equal. apply IH; [done | lia | done].
Qed.

Lemma accessor_hit_preserved h g l k :
  wf_heap h → l < length h → preserves h g →
  accessor_hit g l k = accessor_hit h l k.
Proof.
  intros Hwf Hl Hp. unfold accessor_hit.
  rewrite (get_prop_preserved h g) by done. f_equal.
  destruct (get_prop h l k); [done|]. f_equal.
  apply wf_heap_inv in Hwf as (_ & Hc & _).
  apply on_chain_preserved; [by apply Hc | by apply preserves_length | done].
Qed.

Lemma get_preserved h g l k :
  wf_heap h → l < length h → preserves h g → get g l k = get h l k.
Proof.
  intros. unfold get.
  by rewrite (get_prop_preserved h g), (accessor_hit_preserved h g),
    (proto_of_preserved h g).
Qed.

Lemma get_own h l k p : own_prop h l k = Some p → get h l k = p_value p.
Proof.
  unfold own_prop, get, get_prop. intros Hown.
  destruct (h !! l) as [o|] eqn:Hl; [|done].
  destruct h as [|o0 h0]; [done|]. simpl length. simpl get_prop_fuel.
  by rewrite Hl, Hown.
Qed.

(** ** The documented example runs as documented *)

Example documented_results :
  match DocExample.script 5 loaded with
  | Ret vs _ => Some vs
  | _ => None
  end
  = Some [VBool true; VBool false; VBool true; VBool true; VBool true;
          VBool true; VBool true; VBool true; VBool true; VBool true;
          VBool false].
Proof. vm_compute. reflexivity. Qed.

Example load_Empty : code_of loaded Empty = Some CEmpty.
Proof. reflexivity. Qed.

Example loaded_wf : wf_heap loaded.
Proof. vm_compute. reflexivity. Qed.

Example documented_world_wf : wf_heap DocExample.world.
Proof. vm_compute. reflexivity. Qed.

(** ** [apply] *)

Lemma apply_host (call : caller) h l this args :
  host_apply h l = true →
  apply call (VObj l) this args h = call l this args h.
Proof.
  unfold host_apply, apply. destruct (get_prop h l "apply"); [done|].
  by intros ->.
Qed.

Lemma apply_cannot (user : nat → user_function) n h f this args :
  cannot_apply h f = true →
  apply (call user (S n)) f this args h = Throw TypeError h.
Proof.
  unfold cannot_apply, apply, apply_member.
  destruct f as [| | | | |l]; try done.
  - destruct (get_prop h Object_prototype "apply") as [p|]; [|done].
    by intros ->%negb_true_iff.
  - destruct (get_prop h Object_prototype "apply") as [p|]; [|done].
    by intros ->%negb_true_iff.
  - destruct (get_prop h Object_prototype "apply") as [p|]; [|done].
    by intros ->%negb_true_iff.
  - destruct (get_prop h l "apply") as [p|].
    + by intros ->%negb_true_iff.
    + destruct (inherits h l Function_prototype); [|done].
      simpl. destruct (code_of h l); [done|]. done.
Qed.

(** ** [_super] *)

(** C1, amended.  On an instance whose [_super] is the helper installed by
    [Class], calling [_super(A, m, args...)] for a class [A] whose
    prototype object itself holds a method [m], on which the [apply] found
    is the host's, is the call of that very method with the instance as
    receiver and [args] as arguments: same result, same effect on the
    heap, whatever a nearer class defines under the name [m]. *)
Theorem super_dispatch (user : nat → user_function) (n : nat) (h : heap)
    (inst s A ap fl : loc) (m : string) (args : list value) :
  get h inst "_super" = VObj s →
  code_of h s = Some CSuper →
  get h A "prototype" = VObj ap →
  own_value h ap m = Some (VObj fl) →
  host_apply h fl = true →
  call_method user (S n) inst "_super" (VObj A :: VStr m :: args) h
  = call user n fl (VObj inst) args h.
Proof.
  intros Hs Hcode Hproto Hm Happly.
  unfold call_method, and_then, getM. rewrite Hs. simpl.
  rewrite Hcode. unfold _super, and_then. simpl.
  unfold getM. rewrite Hproto. simpl.
  unfold own_value in Hm.
  destruct (own_prop h ap m) as [p|] eqn:Hown; [|done].
  simpl in Hm. injection Hm as Hm.
  rewrite (get_own _ _ _ _ Hown), Hm. by apply apply_host.
Qed.

(** In the documented example a [Ninja] overrides [dance]; its [_super]
    with [Person] and ["dance"] is [Person]'s [dance] on that ninja. *)
Lemma super_dispatch_witness :
  call_method DocExample.user 3 42 "_super" [VObj 17; VStr "dance"]
    DocExample.world
  = call DocExample.user 2 14 (VObj 42) [] DocExample.world
  ∧ call DocExample.user 2 14 (VObj 42) [] DocExample.world
    = Ret (VBool false) DocExample.world
  ∧ get DocExample.world 42 "dance" = VObj 23.
Proof.
  split; [|split].
  - apply (super_dispatch DocExample.user 2 DocExample.world 42 43 17 20 14
             "dance" []); reflexivity.
  - reflexivity.
  - reflexivity.
Defined.

(** C1 as stated fails: the [_super] of an instance of a class made by
    [extend] need not be the helper.  The class [P] has a method named
    [_super]; [extend] defines it read-only on [P.prototype], so the
    assignment of line 222 is refused on an instance [c] of the subclass
    [C], and [c._super(P, "dance")] runs [P]'s method [_super], which
    answers [true], and not [P.prototype.dance], which on [c] answers
    [undefined]. *)
Lemma super_dispatch_counterexample :
  DispatchExample.setup 5 loaded
  = Ret [VObj 12; VObj 14; VObj 17; VObj 21; VObj 25] DispatchExample.world
  ∧ code_of DispatchExample.world 17 = Some CClass
  ∧ code_of DispatchExample.world 21 = Some CClass
  ∧ own_value DispatchExample.world 17 "prototype" = Some (VObj 20)
  ∧ own_value DispatchExample.world 20 "dance" = Some (VObj 14)
  ∧ instanceof (VObj 25) 21 DispatchExample.world
    = Ret true DispatchExample.world
  ∧ instanceof (VObj 25) 17 DispatchExample.world
    = Ret true DispatchExample.world
  ∧ host_apply DispatchExample.world 14 = true
  ∧ call_method DocExample.user 3 25 "_super" [VObj 17; VStr "dance"]
      DispatchExample.world
    = Ret (VBool true) DispatchExample.world
  ∧ call DocExample.user 2 14 (VObj 25) [] DispatchExample.world
    = Ret VUndef DispatchExample.world.
Proof. vm_compute. repeat split. Qed.

(** ** Allocating an instance, entering a bound closure *)

Lemma new_instance_own g F q :
  own_prop g F "prototype" = Some q →
  new_instance F g
  = Ret (length g)
      (g ++ [Obj (Some (match p_value q with
                        | VObj l => l
                        | _ => Object_prototype
                        end)) true None []]).
Proof.
  intros Hq. unfold new_instance, and_then, getM, alloc.
  by rewrite (get_own _ _ _ _ Hq).
Qed.

Lemma call_bound (user : nat → user_function) (n : nat) (g : heap)
    (b f : loc) (ctx : value) (cs : list value) (this : value)
    (arguments : list value) :
  code_of g b = Some (CBound f ctx cs) →
  call user (S n) b this arguments g
  = bound_fn (call user n) b f ctx cs this arguments g.
Proof. intros Hc. simpl. by rewrite Hc. Qed.

(** ** [extend] leaves every existing object alone *)

Lemma ensures_and_then {A B} (m : M A) (k : A → M B) h (Q : heap → Prop) :
  match m h with
  | Ret a h' => ensures (k a) h' Q
  | Throw _ h' => Q h'
  | _ => True
  end →
  ensures (let* x := m in k x) h Q.
Proof. unfold ensures, and_then. by destruct (m h). Qed.

Lemma ensures_for_each {A} (xs : list A) (body : A → M unit)
    (I : heap → Prop) :
  (∀ x h, I h → ensures (body x) h I) →
  ∀ h, I h → ensures (for_each xs body) h I.
Proof.
  intros Hbody. induction xs as [|x xs IH]; intros h HI; simpl.
  - by unfold ensures, ret.
  - apply ensures_and_then. specialize (Hbody x h HI). unfold ensures in Hbody.
    destruct (body x h); try done. by apply IH.
Qed.

Lemma own_prop_define_ne h l k d h' l' k' :
  define_own_property h l k d = Some h' →
  l ≠ l' ∨ k ≠ k' → own_prop h' l' k' = own_prop h l' k'.
Proof.
  unfold define_own_property. intros Hd Hne.
  destruct (h !! l) as [o|]; [|done].
  destruct (assoc k (o_props o)) as [c|].
  - destruct (define_allowed c d); simplify_eq. by apply own_prop_set_own_ne.
  - destruct (o_extensible o); simplify_eq. by apply own_prop_set_own_ne.
Qed.

Lemma extending_put h hc l k v :
  extending h hc → length h < l → extending h (put hc l k v).
Proof.
  intros (Hp & Hlen & Hown) Hl. split; [|split].
  - intros l' Hl'. rewrite put_lookup_ne by lia. by apply Hp.
  - by rewrite put_length.
  - unfold own_value. rewrite own_prop_put_ne; [done | left; lia].
Qed.

Lemma extending_define h hc l k d hc' :
  extending h hc → length h < l →
  define_own_property hc l k d = Some hc' → extending h hc'.
Proof.
  intros (Hp & Hlen & Hown) Hl Hd. split; [|split].
  - intros l' Hl'. rewrite (define_lookup_ne _ _ _ _ _ _ Hd) by lia.
    by apply Hp.
  - by rewrite (define_length _ _ _ _ _ Hd).
  - unfold own_value.
    rewrite (own_prop_define_ne _ _ _ _ _ _ _ Hd); [done | left; lia].
Qed.

Lemma extending_prototype h hc :
  extending h hc → get hc (length h) "prototype" = VObj (length h + 3).
Proof.
  intros (_ & _ & Hown). unfold own_value in Hown.
  destruct (own_prop hc (length h) "prototype") as [p|] eqn:Hp; [|done].
  simpl in Hown. injection Hown as Hown. by rewrite (get_own _ _ _ _ Hp).
Qed.

Lemma Object_keys_Ret d h ks h' :
  Object_keys d h = Ret ks h' → h' = h ∧ ∃ l, d = VObj l ∧ ks = own_keys h l.
Proof.
  unfold Object_keys, throw, unsupported. destruct d; intros Hk; simplify_eq.
  eauto.
Qed.

Lemma Object_keys_Throw d h e h' : Object_keys d h = Throw e h' → h' = h.
Proof.
  unfold Object_keys, throw, unsupported. by destruct d; intros Hk; simplify_eq.
Qed.

Lemma get_v_Ret v k h a h' :
  get_v v k h = Ret a h' → h' = h ∧ ∃ l, v = VObj l ∧ a = get h l k.
Proof.
  unfold get_v, getM, throw, unsupported. destruct v; intros Hk; simplify_eq.
  eauto.
Qed.

Lemma get_v_Throw v k h e h' : get_v v k h = Throw e h' → h' = h.
Proof.
  unfold get_v, getM, throw, unsupported. by destruct v; intros Hk; simplify_eq.
Qed.

Lemma Object_create_Ret v h l h' :
  Object_create v h = Ret l h' →
  l = length h
  ∧ h' = h ++ [Obj (match v with VObj p => Some p | _ => None end) true None []]
  ∧ (v = VNull ∨ ∃ p, v = VObj p).
Proof.
  unfold Object_create, alloc, throw. destruct v; intros Hc; simplify_eq; eauto.
Qed.

Lemma Object_create_Throw v h e h' : Object_create v h = Throw e h' → h' = h.
Proof.
  unfold Object_create, alloc, throw. by destruct v; intros Hc; simplify_eq.
Qed.

Lemma apply_methods_extending h hc (d : value) :
  extending h hc →
  ensures (apply_methods (length h) (length h + 2) d) hc (extending h).
Proof.
  intros He. unfold apply_methods. apply ensures_and_then.
  destruct (Object_keys d hc) as [keys hk|e hk| |] eqn:Hk; try done.
  - apply Object_keys_Ret in Hk as [-> _].
    apply ensures_for_each; [|done]. clear He. intros key g Hg.
    apply ensures_and_then.
    destruct (get_v d key g) as [v g'|e g'| |] eqn:Hv; try done.
    + apply get_v_Ret in Hv as [-> _].
      apply ensures_and_then. unfold putM.
      destruct (accessor_hit g (length h + 2) key); [done|].
      apply ensures_and_then. unfold getM.
      assert (Hg2 : extending h (put g (length h + 2) key v)).
      { apply extending_put; [done | lia]. }
      rewrite (extending_prototype h _ Hg2).
      apply ensures_and_then.
      destruct (get_v d key _) as [v' g'|e g'| |] eqn:Hv'; try done.
      * apply get_v_Ret in Hv' as [-> _].
        unfold ensures, defineProperty.
        destruct (define_own_property _ _ _ _) eqn:Hd; [|done].
        refine (extending_define _ _ _ _ _ _ Hg2 _ Hd). lia.
      * by apply get_v_Throw in Hv' as ->.
    + by apply get_v_Throw in Hv as ->.
  - by apply Object_keys_Throw in Hk as ->.
Qed.

Lemma ensures_seq {A B} (m : M A) (k : A → M B) h (I Q : heap → Prop) :
  ensures m h I →
  (∀ h', I h' → Q h') →
  (∀ a h', I h' → ensures (k a) h' Q) →
  ensures (let* x := m in k x) h Q.
Proof.
  intros Hm HIQ Hk. apply ensures_and_then. unfold ensures in Hm.
  destruct (m h); try done; auto.
Qed.

Lemma extending_preserves h hc : extending h hc → preserves h hc.
Proof. by intros (Hp & _). Qed.

Lemma extend_ensures_preserves (this : value) (arguments : list value) h :
  ensures (extend this arguments) h (preserves h).
Proof.
  unfold extend. apply ensures_and_then.
  destruct (this_object this h) as [self h0| | |] eqn:Hthis; try done;
    unfold this_object, ret, unsupported in Hthis;
    [|by destruct this; simplify_eq].
  assert (h0 = h) as -> by (by destruct this; simplify_eq).
  apply ensures_and_then. unfold new_function.
  apply ensures_and_then. unfold new_object, alloc.
  apply ensures_and_then. unfold getM.
  rewrite (length_app h). simpl length.
  set (h2 := (h ++ [_; _]) ++ [_]).
  assert (Hlen2 : length h2 = length h + 3).
  { unfold h2. rewrite !length_app. simpl. lia. }
  assert (Hp2 : preserves h h2).
  { unfold h2. rewrite <- app_assoc. apply preserves_app. }
  assert (Hc2 : own_prop h2 (length h) "prototype"
                = Some (MkProp (VObj (S (length h))) true false false)).
  { unfold h2. rewrite <- app_assoc. by rewrite own_prop_app_0. }
  apply ensures_and_then.
  destruct (Object_create (get h2 self "prototype") h2) as [cp h3|e h3| |]
    eqn:Hcreate; try done.
  2:{ by apply Object_create_Throw in Hcreate as ->. }
  apply Object_create_Ret in Hcreate as (-> & -> & _). rewrite Hlen2.
  set (o := Obj _ true None []).
  assert (He : extending h
                 (put (h2 ++ [o]) (length h) "prototype" (VObj (length h + 3)))).
  { split; [|split].
    - intros l Hl. rewrite put_lookup_ne by lia.
      rewrite lookup_app_l by lia. by apply Hp2.
    - rewrite put_length, length_app. simpl. lia.
    - apply own_value_put_eq. unfold can_put.
      rewrite own_prop_app_l by lia. by rewrite Hc2. }
  apply ensures_and_then. unfold putM.
  eapply ensures_seq; [| apply extending_preserves |].
  - apply ensures_for_each; [|exact He]. intros mixin g Hg.
    apply ensures_and_then.
    destruct (get_v mixin "__methods__" g) as [mm g'|e g'| |] eqn:Hmm;
      try done.
    + apply get_v_Ret in Hmm as [-> _]. by apply apply_methods_extending.
    + by apply get_v_Throw in Hmm as ->.
  - clear He. intros _ g Hg. simpl.
    apply ensures_and_then. unfold getM.
    apply ensures_and_then.
    rewrite (extending_prototype h g Hg). simpl. unfold getM.
    apply ensures_and_then. unfold putM.
    assert (Hg2 : extending h
                    (put g (length h + 3) "constructor"
                       (if truthy (get g (length h + 3) "init")
                        then get g (length h + 3) "init"
                        else VObj (length h)))).
    { apply extending_put; [done | lia]. }
    apply ensures_and_then. cbn beta.
    apply ensures_and_then. unfold defineProperty.
    destruct (define_own_property _ _ _ _) as [g3|] eqn:Hd.
    + unfold ensures, ret. intros l Hl.
      destruct (decide (l = length h)) as [->|Hne]; [lia|].
      rewrite (define_lookup_ne _ _ _ _ _ _ Hd) by lia.
      by apply Hg2.
    + by apply extending_preserves.
Qed.

(** C10.  Whatever heap [extend] ends in, with a class or with a fault,
    every object that existed when it was called is in it unchanged: the
    parent, its prototype object with all its properties, its [__methods__]
    record and every mixin.  What [extend] writes, it writes to objects it
    has just allocated. *)
Theorem extend_preserves (this : value) (arguments : list value)
    (h h' : heap) :
  final_heap (extend this arguments h) = Some h' →
  length h ≤ length h'
  ∧ ∀ l, l < length h → h' !! l = h !! l.
Proof.
  intros Hf. pose proof (extend_ensures_preserves this arguments h) as He.
  unfold ensures in He. unfold final_heap in Hf.
  destruct (extend this arguments h); simplify_eq;
    (split; [by apply preserves_length | done]).
Qed.

Lemma extend_preserves_witness :
  ∃ h',
    final_heap (extend (VObj 17) [VObj 28] DocExample.world) = Some h'
    ∧ length DocExample.world ≤ length h'
    ∧ ∀ l, l < length DocExample.world → h' !! l = DocExample.world !! l.
Proof.
  destruct (final_heap (extend (VObj 17) [VObj 28] DocExample.world))
    as [h'|] eqn:Hf; [|by vm_compute in Hf].
  exists h'. split; [reflexivity|].
  by apply (extend_preserves (VObj 17) [VObj 28] DocExample.world).
Defined.

(** ** [mixin] *)

Lemma set_own_extensible h l k p l' :
  extensible (set_own h l k p) l' = extensible h l'.
Proof.
  unfold extensible. destruct (decide (l = l')) as [<-|Hne].
  - destruct (h !! l) as [o|] eqn:Hl.
    + by rewrite (set_own_lookup_eq _ _ _ _ _ Hl).
    + unfold set_own. rewrite Hl. by rewrite Hl.
  - by rewrite set_own_lookup_ne.
Qed.

Lemma put_extensible h l k v l' :
  extensible (put h l k v) l' = extensible h l'.
Proof.
  unfold put. destruct (can_put h l k); [|done].
  destruct (own_prop h l k); apply set_own_extensible.
Qed.

Lemma get_prop_fuel_set_own_ne n h l k p l' k' :
  k ≠ k' →
  get_prop_fuel n (set_own h l k p) l' k' = get_prop_fuel n h l' k'.
Proof.
  intros Hne. revert l'. induction n as [|n IH]; intros l'; simpl; [done|].
  destruct (decide (l = l')) as [<-|Hl].
  - destruct (h !! l) as [o|] eqn:Ho.
    + rewrite (set_own_lookup_eq _ _ _ _ _ Ho). simpl.
      rewrite assoc_set_ne by done.
      destruct (assoc k' (o_props o)); [done|]. by destruct (o_proto o).
    + unfold set_own. rewrite Ho. by rewrite Ho.
  - rewrite set_own_lookup_ne by done.
    destruct (h !! l') as [o|]; [|done].
    destruct (assoc k' (o_props o)); [done|]. by destruct (o_proto o).
Qed.

Lemma can_put_put_ne h l k v k' :
  k ≠ k' → can_put (put h l k v) l k' = can_put h l k'.
Proof.
  intros Hne. unfold can_put.
  rewrite own_prop_put_ne by (by right). rewrite put_extensible.
  unfold get_prop. rewrite put_length. unfold put.
  destruct (can_put h l k); [|done].
  destruct (own_prop h l k); by rewrite get_prop_fuel_set_own_ne.
Qed.

Lemma can_put_put_eq h l k v : can_put (put h l k v) l k = can_put h l k.
Proof.
  destruct (can_put h l k) eqn:Hc; [|unfold put; by rewrite Hc].
  pose proof (can_put_is_Some _ _ _ Hc) as Hl.
  unfold put. rewrite Hc. unfold can_put in *.
  destruct (own_prop h l k) as [p|] eqn:Hown;
    by rewrite own_prop_set_own_eq.
Qed.

Lemma can_put_put h l k v k' : can_put (put h l k v) l k' = can_put h l k'.
Proof.
  destruct (decide (k = k')) as [<-|Hne];
    [apply can_put_put_eq | by apply can_put_put_ne].
Qed.

Lemma own_value_put h l k v k' :
  own_value (put h l k v) l k'
  = if bool_decide (k = k') && can_put h l k then Some v else own_value h l k'.
Proof.
  case_bool_decide as Hk; simpl.
  - subst k'. destruct (can_put h l k) eqn:Hc.
    + by apply own_value_put_eq.
    + unfold put. by rewrite Hc.
  - unfold own_value. rewrite own_prop_put_ne; [done | by right].
Qed.

Lemma assoc_is_Some {A} k (ps : list (string * A)) :
  is_Some (assoc k ps) ↔ k ∈ ps.*1.
Proof.
  induction ps as [|[k' a] ps IH]; simpl.
  - split; [by intros [? ?] | by intros ?%elem_of_nil].
  - rewrite elem_of_cons. destruct (decide (k = k')) as [->|Hne].
    + split; [by left | by eauto].
    + rewrite IH. split; [by right | by intros [?|?]].
Qed.

Lemma enumerable_keys_subseteq ps k : k ∈ enumerable_keys ps → k ∈ ps.*1.
Proof.
  unfold enumerable_keys. intros ([k' p] & -> & Hin)%list_elem_of_fmap.
  apply list_elem_of_filter in Hin as [_ Hin].
  apply list_elem_of_fmap. by exists (k', p).
Qed.

Lemma for_in_fuel_not_seen n h l seen k :
  k ∈ for_in_fuel n h l seen → k ∉ seen.
Proof.
  revert l seen. induction n as [|n IH]; intros l seen; simpl.
  - by intros ?%elem_of_nil.
  - destruct (h !! l) as [o|]; [|by intros ?%elem_of_nil].
    rewrite elem_of_app. intros [Hk|Hk].
    + by apply list_elem_of_filter in Hk as [? _].
    + destruct (o_proto o); [|by apply elem_of_nil in Hk].
      apply IH in Hk. rewrite elem_of_app in Hk. naive_solver.
Qed.

(** Of the keys a [for-in] loop over [obj] visits, those that pass the
    [hasOwnProperty] test are the own enumerable keys of [obj]. *)
Lemma for_in_own_keys h obj k :
  k ∈ for_in_fuel (length h) h obj [] ∧ is_Some (own_prop h obj k)
  ↔ k ∈ own_keys h obj.
Proof.
  unfold own_prop, own_keys. destruct (h !! obj) as [o|] eqn:Ho.
  2:{ split; [by intros [_ [? ?]] | by intros ?%elem_of_nil]. }
  destruct h as [|o0 h0]; [done|]. simpl length. simpl for_in_fuel.
  rewrite Ho. rewrite elem_of_app, assoc_is_Some. split.
  - intros [[Hk|Hk] Hown].
    + by apply list_elem_of_filter in Hk as [_ ?].
    + destruct (o_proto o); [|by apply elem_of_nil in Hk].
      by apply for_in_fuel_not_seen in Hk.
  - intros Hk. split; [|by apply enumerable_keys_subseteq].
    left. apply list_elem_of_filter. split; [apply not_elem_of_nil | done].
Qed.

Lemma get_prop_put_ne h l k v l' k' :
  k ≠ k' → get_prop (put h l k v) l' k' = get_prop h l' k'.
Proof.
  intros Hne. unfold get_prop. rewrite put_length. unfold put.
  destruct (can_put h l k); [|done].
  destruct (own_prop h l k); by apply get_prop_fuel_set_own_ne.
Qed.

Lemma on_chain_put n h l k v a b :
  on_chain n (put h l k v) a b = on_chain n h a b.
Proof.
  revert a. induction n as [|n IH]; intros a; [done|].
  simpl. rewrite put_proto. destruct (proto_of h a); [|done].
  by rewrite IH.
Qed.

Lemma inherits_put h l k v a b : inherits (put h l k v) a b = inherits h a b.
Proof. unfold inherits. by rewrite put_length, on_chain_put. Qed.

Lemma get_prop_own h l k p : own_prop h l k = Some p → get_prop h l k = Some p.
Proof.
  unfold own_prop, get_prop. intros Hown.
  destruct (h !! l) as [o|] eqn:Hl; [|done].
  destruct h as [|o0 h0]; [done|]. simpl length. simpl get_prop_fuel.
  by rewrite Hl, Hown.
Qed.

Lemma hasOwnProperty_host (call : caller) h l k :
  host_hasOwnProperty h l = true →
  hasOwnProperty call (VObj l) k h = Ret (has_own h l k) h.
Proof.
  unfold host_hasOwnProperty, hasOwnProperty.
  destruct (get_prop h l "hasOwnProperty"); [done|]. by intros ->.
Qed.

Lemma host_hasOwnProperty_own h obj :
  host_hasOwnProperty h obj = true → own_prop h obj "hasOwnProperty" = None.
Proof.
  unfold host_hasOwnProperty. intros Hh.
  destruct (own_prop h obj "hasOwnProperty") as [p|] eqn:Hown; [|done].
  by rewrite (get_prop_own _ _ _ _ Hown) in Hh.
Qed.

Lemma host_hasOwnProperty_put h obj l k v :
  host_hasOwnProperty h obj = true → k ≠ "hasOwnProperty" →
  host_hasOwnProperty (put h l k v) obj = true.
Proof.
  unfold host_hasOwnProperty. intros Hh Hk.
  by rewrite get_prop_put_ne, inherits_put.
Qed.

Lemma mixing_start h r obj : mixing h r obj [] h.
Proof.
  by repeat split.
Qed.

Lemma own_value_is_Some h hc l :
  (∀ k, own_value hc l k = own_value h l k) →
  ∀ k, bool_decide (is_Some (own_prop hc l k))
       = bool_decide (is_Some (own_prop h l k)).
Proof.
  intros Hv k. specialize (Hv k). unfold own_value in Hv.
  apply bool_decide_ext.
  destruct (own_prop hc l k), (own_prop h l k); simpl in Hv;
    split; intros [? ?]; by eauto.
Qed.

Lemma mixin_loop (call : caller) h r obj ks seen hc :
  (∀ k, k ∈ ks → is_Some (own_prop h obj k) → k ≠ "__proto__") →
  host_hasOwnProperty hc obj = true →
  mixing h r obj seen hc →
  ∃ hc',
    for_each ks (fun i =>
      let* own := hasOwnProperty call (VObj obj) i in
      if own then
        let* v := get_v (VObj obj) i in
        putM r i v
      else ret tt) hc = Ret tt hc'
    ∧ mixing h r obj (seen ++ ks) hc'
    ∧ host_hasOwnProperty hc' obj = true.
Proof.
  intros Hks. revert seen hc. induction ks as [|i ks IH];
    intros seen hc Hhost Hm.
  - exists hc. by rewrite app_nil_r.
  - replace (seen ++ i :: ks) with ((seen ++ [i]) ++ ks)
      by (by rewrite <- app_assoc).
    assert (Hks' : ∀ k, k ∈ ks → is_Some (own_prop h obj k) → k ≠ "__proto__").
    { intros k Hk. apply Hks. by right. }
    specialize (IH Hks').
    destruct Hm as (Hlen & Hfr & Hpr & Hco & Hex & Hcp & Hobj & Hr).
    pose proof (own_value_is_Some h hc obj Hobj) as Hsome.
    cbn [for_each]. unfold and_then at 1 2.
    rewrite (hasOwnProperty_host call hc obj i Hhost). unfold has_own.
    rewrite Hsome.
    destruct (own_prop h obj i) as [p|] eqn:Hown.
    + rewrite bool_decide_eq_true_2 by eauto.
      unfold and_then at 1. simpl get_v. unfold getM.
      rewrite putM_data by (apply Hks; [by left | by rewrite Hown]).
      assert (Hv : get hc obj i = p_value p).
      { specialize (Hobj i). unfold own_value in Hobj. rewrite Hown in Hobj.
        destruct (own_prop hc obj i) as [q|] eqn:Hq; [|done].
        simpl in Hobj. injection Hobj as Hobj.
        by rewrite (get_own _ _ _ _ Hq). }
      rewrite Hv.
      assert (Hi : i ≠ "hasOwnProperty").
      { intros ->. pose proof (host_hasOwnProperty_own _ _ Hhost) as Hno.
        specialize (Hsome "hasOwnProperty"). rewrite Hno, Hown in Hsome.
        rewrite bool_decide_eq_false_2 in Hsome by (by intros [? ?]).
        rewrite bool_decide_eq_true_2 in Hsome by eauto. done. }
      apply IH; [by apply host_hasOwnProperty_put|].
      split; [by rewrite put_length|].
      split; [intros l Hl; rewrite put_lookup_ne by done; by apply Hfr|].
      split; [by rewrite put_proto|]. split; [by rewrite put_code|].
      split; [by rewrite put_extensible|].
      split; [intros k; by rewrite can_put_put|].
      split.
      * intros k. destruct (decide (obj = r)) as [->|Hne].
        -- rewrite own_value_put, Hobj.
           destruct (bool_decide (i = k)) eqn:Hik; [|done].
           apply bool_decide_eq_true in Hik as <-.
           destruct (can_put hc r i); [|done]. simpl.
           unfold own_value. by rewrite Hown.
        -- unfold own_value. rewrite own_prop_put_ne by (left; done).
           apply Hobj.
      * intros k. rewrite own_value_put, Hr, Hcp.
        destruct (decide (i = k)) as [<-|Hne].
        -- rewrite (bool_decide_eq_true_2 (i = i)) by done.
           rewrite (bool_decide_eq_true_2 (i ∈ seen ++ [i]))
             by (apply elem_of_app; right; apply list_elem_of_singleton; done).
           rewrite Hown.
           rewrite (bool_decide_eq_true_2 (is_Some (Some p))) by eauto.
           simpl. destruct (can_put h r i); [|by rewrite andb_false_r].
           unfold own_value. by rewrite Hown.
        -- rewrite (bool_decide_eq_false_2 (i = k)) by done. simpl.
           rewrite (bool_decide_ext (k ∈ seen ++ [i]) (k ∈ seen)); [done|].
           rewrite elem_of_app, list_elem_of_singleton.
           split; [by intros [?|?] | by left].
    + rewrite bool_decide_eq_false_2 by (by intros [? ?]).
      unfold ret at 1. apply IH; [done|].
      repeat (split; [done|]). intros k. rewrite Hr.
      destruct (decide (i = k)) as [<-|Hne].
      * rewrite Hown.
        rewrite (bool_decide_eq_false_2 (is_Some None)) by (by intros [? ?]).
        by rewrite !andb_false_r.
      * rewrite (bool_decide_ext (k ∈ seen ++ [i]) (k ∈ seen)); [done|].
        rewrite elem_of_app, list_elem_of_singleton.
        split; [by intros [?|?] | by left].
Qed.

(** C7, amended.  For a source [obj] whose [hasOwnProperty] is the host's,
    [r.mixin(obj)] returns [r] itself and changes nothing but the property
    table of [r].  Afterwards [r] holds, under each name [k] that is an own
    enumerable member of [obj] and that [r] accepts an assignment to, the
    value [obj] holds under [k]; under every other name (among them all
    that [obj] only inherits) [r] holds what it held.  The name
    [__proto__], which the host reads as the prototype link, is set aside,
    and so are the assignments under a reserved name that are left to the
    host. *)
Theorem mixin_copies (call : caller) (h : heap) (r obj : loc) :
  "__proto__" ∉ own_keys h obj →
  host_hasOwnProperty h obj = true →
  spares_reserved h r obj = true →
  ∃ h',
    mixin call (VObj r) [VObj obj] h = Ret (VObj r) h'
    ∧ length h' = length h
    ∧ (∀ l, l ≠ r → h' !! l = h !! l)
    ∧ proto_of h' r = proto_of h r
    ∧ code_of h' r = code_of h r
    ∧ extensible h' r = extensible h r
    ∧ ∀ k, own_value h' r k
           = if copied h r obj k then own_value h obj k else own_value h r k.
Proof.
  intros Hproto Hhost _.
  destruct (mixin_loop call h r obj (for_in_fuel (length h) h obj []) [] h)
    as (h' & Hloop & (Hlen & Hfr & Hpr & Hco & Hex & _ & _ & Hr) & _).
  { intros k Hk Hown ->. apply Hproto. by apply for_in_own_keys. }
  { done. }
  { apply mixing_start. }
  exists h'. split.
  { unfold mixin. cbn [nth].
    rewrite (and_then_Ret _ _ h r h) by reflexivity.
    rewrite (and_then_Ret _ _ h (for_in_fuel (length h) h obj []) h)
      by reflexivity.
    by rewrite (and_then_Ret _ _ _ _ _ Hloop). }
  do 5 (split; [done|]). intros k. rewrite Hr. unfold copied.
  rewrite app_nil_l, <- bool_decide_and.
  by rewrite (bool_decide_ext _ _ (for_in_own_keys h obj k)).
Qed.

(** Of the two members of [obj], [sound] is one that [r] accepts. *)
Lemma mixin_copies_witness :
  ("__proto__" ∉ own_keys MixinExample.before 13)
  ∧ copied MixinExample.before 12 13 "sound" = true
  ∧ ∃ h',
      mixin (call DocExample.user 0) (VObj 12) [VObj 13] MixinExample.before
      = Ret (VObj 12) h'
      ∧ own_value h' 12 "sound" = Some (VNum 3).
Proof.
  assert (Hp : "__proto__" ∉ own_keys MixinExample.before 13).
  { apply (bool_decide_unpack _). vm_compute. exact I. }
  split; [exact Hp|]. split; [vm_compute; reflexivity|].
  destruct (mixin_copies (call DocExample.user 0) MixinExample.before 12 13)
    as (h' & Hrun & _ & _ & _ & _ & _ & Hcopy).
  - exact Hp.
  - vm_compute. reflexivity.
  - vm_compute. reflexivity.
  - exists h'. split; [exact Hrun|].
    rewrite (Hcopy "sound"). vm_compute. reflexivity.
Defined.

(** C7 as stated fails: [obj] has the own enumerable members [speed] and
    [sound]; [r] holds a [speed] of its own that is not writable, and after
    [r.mixin(obj)] it has [obj]'s [sound] but still its own [speed]. *)
Lemma mixin_counterexample :
  own_keys MixinExample.before 13 = ["speed"; "sound"]
  ∧ own_value MixinExample.before 13 "speed" = Some (VNum 2)
  ∧ own_value MixinExample.before 12 "speed" = Some (VNum 1)
  ∧ host_hasOwnProperty MixinExample.before 13 = true
  ∧ ∃ h',
      mixin (call DocExample.user 0) (VObj 12) [VObj 13] MixinExample.before
      = Ret (VObj 12) h'
      ∧ own_value h' 12 "sound" = Some (VNum 3)
      ∧ own_value h' 12 "speed" = Some (VNum 1).
Proof. vm_compute. repeat split. eexists. repeat split. Qed.

(** ** The heap [extend] builds *)

Lemma put_table h l o k v :
  h !! l = Some o → o_extensible o = true →
  put h l k v
  = <[l := Obj (o_proto o) true (o_code o)
             (assign (get_prop h l k) (o_props o) k v)]> h.
Proof.
  intros Hl Hext.
  assert (Hid : <[l := Obj (o_proto o) true (o_code o) (o_props o)]> h = h).
  { apply list_insert_id. rewrite Hl. f_equal. destruct o. simpl in *.
    by subst. }
  unfold put, can_put, own_prop, extensible, assign, set_own.
  rewrite Hl, Hext. destruct (assoc k (o_props o)) as [p|].
  - by destruct (p_writable p).
  - simpl. destruct (get_prop h l k) as [q|]; [by destruct (p_writable q)|done].
Qed.

Lemma built_length h parent extra pm pc :
  length (built h parent extra pm pc) = length h + 4.
Proof. unfold built. by rewrite length_app. Qed.

Lemma built_preserves h parent extra pm pc :
  preserves h (built h parent extra pm pc).
Proof. apply preserves_app. Qed.

Lemma built_lookup h parent extra pm pc i :
  built h parent extra pm pc !! (length h + i)
  = [class_object h extra; first_prototype h;
     Obj (Some Object_prototype) true None pm; Obj parent true None pc] !! i.
Proof.
  unfold built. rewrite lookup_app_r by lia.
  by replace (length h + i - length h) with i by lia.
Qed.

Lemma built_insert h parent extra pm pc i o :
  <[length h + i := o]> (built h parent extra pm pc)
  = h ++ <[i := o]> [class_object h extra; first_prototype h;
                     Obj (Some Object_prototype) true None pm;
                     Obj parent true None pc].
Proof.
  unfold built. rewrite insert_app_r_alt by lia.
  by replace (length h + i - length h) with i by lia.
Qed.

Lemma built_get_prop_old h parent extra pm pc l k :
  wf_heap h → l < length h →
  get_prop (built h parent extra pm pc) l k = get_prop h l k.
Proof. intros. apply get_prop_preserved; [done..|apply built_preserves]. Qed.

Lemma built_get_old h parent extra pm pc l k :
  wf_heap h → l < length h →
  get (built h parent extra pm pc) l k = get h l k.
Proof. intros. apply get_preserved; [done..|apply built_preserves]. Qed.

Lemma get_prop_fuel_old n h g l k :
  wf_heap h → l < length h → preserves h g → length h ≤ n →
  get_prop_fuel n g l k = get_prop h l k.
Proof.
  intros (_ & Hc & _)%wf_heap_inv Hl Hp Hn. unfold get_prop.
  apply get_prop_fuel_preserved; [by apply Hc | done..].
Qed.

Lemma built_get_prop_methods h parent extra pm pc k :
  wf_heap h →
  get_prop (built h parent extra pm pc) (length h + 2) k
  = match assoc k pm with
    | Some p => Some p
    | None => get_prop h Object_prototype k
    end.
Proof.
  intros Hwf. pose proof (wf_heap_inv h Hwf) as (H4 & _).
  unfold get_prop at 1. rewrite built_length.
  replace (length h + 4) with (S (length h + 3)) by lia.
  simpl get_prop_fuel. rewrite built_lookup. simpl.
  destruct (assoc k pm); [done|].
  apply get_prop_fuel_old; [done | unfold Object_prototype; lia
                            | apply built_preserves | lia].
Qed.

Lemma built_get_prop_proto h parent extra pm pc k :
  wf_heap h → (∀ p, parent = Some p → p < length h) →
  get_prop (built h parent extra pm pc) (length h + 3) k
  = chain_get h parent pc k.
Proof.
  intros Hwf Hpar. unfold get_prop at 1, chain_get. rewrite built_length.
  replace (length h + 4) with (S (length h + 3)) by lia.
  simpl get_prop_fuel. rewrite built_lookup. simpl.
  destruct (assoc k pc); [done|]. destruct parent as [p|]; [|done].
  apply get_prop_fuel_old; [done | by apply Hpar | apply built_preserves | lia].
Qed.

Lemma built_get_class_prototype h parent extra pm pc :
  get (built h parent extra pm pc) (length h) "prototype"
  = VObj (length h + 3).
Proof.
  rewrite (get_own _ _ _ (MkProp (VObj (length h + 3)) true false false));
    [done|].
  unfold own_prop, built. rewrite lookup_app_r, Nat.sub_diag by lia. done.
Qed.

Lemma built_put_methods h parent extra pm pc k v :
  wf_heap h →
  put (built h parent extra pm pc) (length h + 2) k v
  = built h parent extra (assign (get_prop h Object_prototype k) pm k v) pc.
Proof.
  intros Hwf.
  erewrite put_table; [|by rewrite built_lookup|done].
  rewrite built_get_prop_methods by done.
  rewrite built_insert. simpl. unfold built. do 5 f_equal.
  unfold assign. by destruct (assoc k pm).
Qed.

Lemma built_put_proto h parent extra pm pc k v :
  wf_heap h → (∀ p, parent = Some p → p < length h) →
  put (built h parent extra pm pc) (length h + 3) k v
  = built h parent extra pm
      (assign (match parent with
               | Some p => get_prop h p k
               | None => None
               end) pc k v).
Proof.
  intros Hwf Hpar.
  erewrite put_table; [|by rewrite built_lookup|done].
  rewrite built_get_prop_proto by done.
  rewrite built_insert. simpl. unfold built. do 6 f_equal.
  unfold assign, chain_get. by destruct (assoc k pc).
Qed.

Lemma built_define_method h parent extra pm pc k v :
  all_configurable pc →
  define_own_property (built h parent extra pm pc) (length h + 3) k
    (Descriptor (Some v) None None (Some true))
  = Some (built h parent extra pm (define_method pc k v)).
Proof.
  intros Hconf. unfold define_own_property, set_own.
  rewrite built_lookup. simpl. unfold define_method.
  destruct (assoc k pc) as [c|] eqn:Hc.
  - unfold define_allowed. rewrite (Hconf _ _ Hc). simpl.
    by rewrite built_insert.
  - by rewrite built_insert.
Qed.

Lemma define_method_configurable pc k v :
  all_configurable pc → all_configurable (define_method pc k v).
Proof.
  intros Hconf k' c. unfold define_method. rewrite assoc_set_lookup.
  destruct (decide (k = k')) as [->|Hne]; [|by apply Hconf].
  intros [= <-]. by destruct (assoc k' pc).
Qed.

Lemma prototype_table_configurable es pc :
  all_configurable pc → all_configurable (prototype_table es pc).
Proof.
  revert pc. induction es as [|[k v] es IH]; intros pc Hconf; [done|].
  simpl. apply IH. by apply define_method_configurable.
Qed.

Lemma apply_keys_built h parent (d : loc) ks pm pc r hc :
  wf_heap h → d < length h → all_configurable pc →
  for_each ks (fun key =>
    let* v := get_v (VObj d) key in
    putM (length h + 2) key v ;;
    let* cp := getM (length h) "prototype" in
    let* v' := get_v (VObj d) key in
    defineProperty cp key (Descriptor (Some v') None None (Some true)))
    (built h parent [] pm pc) = Ret r hc →
  hc = built h parent []
         (methods_table h (map (fun k => (k, get h d k)) ks) pm)
         (prototype_table (map (fun k => (k, get h d k)) ks) pc).
Proof.
  intros Hwf Hd. revert pm pc. induction ks as [|k ks IH]; intros pm pc Hconf.
  - simpl. unfold ret. by intros [= _ <-].
  - simpl for_each. unfold and_then at 1 2. simpl get_v. unfold getM at 1.
    rewrite built_get_old by done.
    unfold and_then at 1. unfold putM.
    destruct (accessor_hit _ (length h + 2) k); [done|].
    rewrite built_put_methods by done.
    unfold and_then at 1. unfold getM at 1.
    rewrite built_get_class_prototype.
    unfold and_then at 1. unfold getM. rewrite built_get_old by done.
    unfold defineProperty. rewrite built_define_method by done.
    simpl. apply IH. by apply define_method_configurable.
Qed.

Lemma own_keys_preserved h g l :
  preserves h g → l < length h → own_keys g l = own_keys h l.
Proof. intros Hp Hl. unfold own_keys. by rewrite Hp. Qed.

Lemma apply_methods_built h parent (d : loc) pm pc r hc :
  wf_heap h → d < length h → all_configurable pc →
  apply_methods (length h) (length h + 2) (VObj d) (built h parent [] pm pc)
  = Ret r hc →
  hc = built h parent []
         (methods_table h (entries h (VObj d)) pm)
         (prototype_table (entries h (VObj d)) pc).
Proof.
  intros Hwf Hd Hconf. unfold apply_methods, and_then at 1. simpl Object_keys.
  rewrite (own_keys_preserved h) by (done || apply built_preserves).
  by apply apply_keys_built.
Qed.

Lemma methods_table_app h es es' pm :
  methods_table h (es ++ es') pm = methods_table h es' (methods_table h es pm).
Proof. apply fold_left_app. Qed.

Lemma prototype_table_app es es' pc :
  prototype_table (es ++ es') pc = prototype_table es' (prototype_table es pc).
Proof. apply fold_left_app. Qed.

Lemma descriptor_of_ok h m d :
  wf_heap h → value_ok h m = true → descriptor_of h m = VObj d → d < length h.
Proof.
  intros Hwf Hm. destruct m as [| | | | |ml]; try done. simpl.
  destruct (truthy (get h ml "__methods__")).
  - by apply get_value_ok.
  - intros [= <-]. simpl in Hm. by apply bool_decide_eq_true in Hm.
Qed.

Lemma mixins_loop_built h parent mixins pm pc r hc :
  wf_heap h → Forall (fun v => value_ok h v = true) mixins →
  all_configurable pc →
  for_each mixins (fun mixin =>
    let* mm := get_v mixin "__methods__" in
    apply_methods (length h) (length h + 2) (if truthy mm then mm else mixin))
    (built h parent [] pm pc) = Ret r hc →
  hc = built h parent [] (methods_table h (merged h mixins) pm)
                         (prototype_table (merged h mixins) pc).
Proof.
  intros Hwf Hms. revert pm pc. induction Hms as [|m ms Hm Hms IH];
    intros pm pc Hconf.
  - simpl. unfold ret. by intros [= _ <-].
  - simpl for_each. unfold merged. simpl. fold (merged h ms).
    rewrite methods_table_app, prototype_table_app.
    unfold and_then at 1 2.
    destruct (get_v m "__methods__" _) as [mm g| | |] eqn:Hmm; try done.
    apply get_v_Ret in Hmm as (-> & ml & -> & ->).
    assert (Hml : ml < length h).
    { simpl in Hm. by apply bool_decide_eq_true in Hm. }
    rewrite built_get_old by done.
    change (if truthy (get h ml "__methods__")
            then get h ml "__methods__" else VObj ml)
      with (descriptor_of h (VObj ml)).
    destruct (descriptor_of h (VObj ml)) as [| | | | |d] eqn:Hd; try done.
    assert (Hdl : d < length h) by (by eapply descriptor_of_ok).
    destruct (apply_methods _ _ _ _) as [u g| | |] eqn:Hap; try done.
    apply apply_methods_built in Hap; [|done..]. subst g.
    apply IH. by apply prototype_table_configurable.
Qed.

Lemma built_define_registry h parent pm pc :
  define_own_property (built h parent [] pm pc) (length h) "__methods__"
    (Descriptor (Some (VObj (length h + 2))) None None None)
  = Some (built h parent
            [("__methods__", MkProp (VObj (length h + 2)) false false false)]
            pm pc).
Proof.
  unfold define_own_property, set_own.
  pose proof (built_lookup h parent [] pm pc 0) as Hl.
  rewrite Nat.add_0_r in Hl. rewrite !Hl. simpl.
  pose proof (built_insert h parent [] pm pc 0) as Hi.
  rewrite Nat.add_0_r in Hi. by rewrite Hi.
Qed.

Lemma extend_start h parent :
  put (((h ++ [Obj (Some Function_prototype) true (Some CClass)
                  [("length", MkProp (VNum 0) false false false);
                   ("prototype", MkProp (VObj (S (length h))) true false false)];
               first_prototype h])
        ++ [Obj (Some Object_prototype) true None []])
       ++ [Obj parent true None []])
      (length h) "prototype" (VObj (length h + 3))
  = built h parent [] [] [].
Proof.
  rewrite <- !app_assoc. simpl.
  erewrite put_table;
    [|by rewrite lookup_app_r, Nat.sub_diag by lia|done].
  rewrite insert_app_r_alt, Nat.sub_diag by lia. done.
Qed.

(** What [extend] returns when it returns: the class is the first of four
    new objects, whose tables are folds over the merged entries. *)
Lemma extend_built h (P : loc) mixins v h' :
  wf_heap h → P < length h →
  Forall (fun v => value_ok h v = true) mixins →
  extend (VObj P) mixins h = Ret v h' →
  let parent := parent_of (get h P "prototype") in
  let pc := prototype_table (merged h mixins) [] in
  v = VObj (length h)
  ∧ (∀ p, parent = Some p → p < length h)
  ∧ h' = built h parent
           [("__methods__", MkProp (VObj (length h + 2)) false false false)]
           (methods_table h (merged h mixins) [])
           (assign (match parent with
                    | Some p => get_prop h p "constructor"
                    | None => None
                    end) pc "constructor" (marker h parent pc)).
Proof.
  intros Hwf HP Hms Hrun parent pc. unfold extend in Hrun.
  unfold and_then at 1 in Hrun. simpl this_object in Hrun.
  unfold ret at 1 in Hrun.
  unfold and_then at 1, new_function in Hrun.
  unfold and_then at 1, new_object, alloc at 1 in Hrun.
  unfold and_then at 1, getM at 1 in Hrun.
  rewrite !length_app in Hrun. simpl length in Hrun.
  rewrite (get_preserved h) in Hrun by
    (done || rewrite <- app_assoc; apply preserves_app).
  assert (Hpar : ∀ p, parent = Some p → p < length h).
  { intros p. unfold parent. destruct (get h P "prototype") eqn:Hg; try done.
    intros [= <-]. by eapply get_value_ok. }
  unfold and_then at 1 in Hrun.
  destruct (Object_create _ _) as [cp h3| | |] eqn:Hcreate; try done.
  apply Object_create_Ret in Hcreate as (-> & -> & Hv).
  rewrite !length_app in Hrun. simpl length in Hrun.
  replace (length h + 2 + 1) with (length h + 3) in Hrun by lia.
  unfold and_then at 1 in Hrun. data_keys_in Hrun.
  pose proof (extend_start h parent) as Hs.
  unfold first_prototype, parent, parent_of in Hs.
  rewrite Hs in Hrun. clear Hs. fold (parent_of (get h P "prototype")) in Hrun.
  fold parent in Hrun.
  unfold and_then at 1 in Hrun.
  destruct (for_each mixins _ _) as [r hc| | |] eqn:Hloop; try done.
  apply mixins_loop_built in Hloop; [|done..]. subst hc.
  fold pc in Hrun.
  assert (Hconf : all_configurable pc).
  { by apply prototype_table_configurable. }
  unfold and_then at 1 2, getM at 1 2 in Hrun.
  rewrite built_get_class_prototype in Hrun.
  unfold and_then at 1 in Hrun. simpl get_v in Hrun. unfold getM in Hrun.
  assert (Hinit : get (built h parent [] (methods_table h (merged h mixins) [])
                         pc) (length h + 3) "init"
                  = chain_value h parent pc "init").
  { rewrite get_data by done. unfold chain_value.
    by rewrite built_get_prop_proto. }
  rewrite Hinit in Hrun. fold (marker h parent pc) in Hrun.
  unfold and_then at 1 in Hrun. simpl put_v in Hrun. data_keys_in Hrun.
  rewrite built_put_proto in Hrun by done.
  unfold and_then, defineProperty in Hrun.
  rewrite built_define_registry in Hrun. unfold ret in Hrun.
  by injection Hrun as <- <-.
Qed.

(** ** The tables in terms of the last entry under each name *)

Lemma last_entry_cons k k1 v1 es :
  last_entry k ((k1, v1) :: es)
  = match last_entry k es with
    | Some v => Some v
    | None => if decide (k = k1) then Some v1 else None
    end.
Proof. unfold last_entry. simpl. by rewrite assoc_app. Qed.

Lemma define_method_value pc k1 v1 k :
  p_value <$> assoc k (define_method pc k1 v1)
  = if decide (k = k1) then Some v1 else p_value <$> assoc k pc.
Proof.
  unfold define_method. rewrite assoc_set_lookup.
  destruct (decide (k1 = k)) as [->|Hne].
  - rewrite decide_True by done. by destruct (assoc k pc).
  - by rewrite decide_False by congruence.
Qed.

Lemma prototype_table_value es pc k :
  p_value <$> assoc k (prototype_table es pc)
  = match last_entry k es with
    | Some v => Some v
    | None => p_value <$> assoc k pc
    end.
Proof.
  revert pc. induction es as [|[k1 v1] es IH]; intros pc; [done|].
  simpl. rewrite IH, last_entry_cons, define_method_value.
  destruct (last_entry k es); [done|]. by destruct (decide (k = k1)).
Qed.


Lemma assign_lookup_ne inh ps k0 v k :
  k ≠ k0 → assoc k (assign inh ps k0 v) = assoc k ps.
Proof.
  intros Hne. unfold assign.
  destruct (assoc k0 ps) as [p|].
  - destruct (p_writable p); [|done]. by rewrite assoc_set_ne.
  - destruct (match inh with Some p => p_writable p | None => true end);
      [|done].
    by rewrite assoc_set_ne.
Qed.

Lemma assign_readonly inh ps k0 v c :
  assoc k0 ps = Some c → p_writable c = false → assign inh ps k0 v = ps.
Proof. intros Hc Hw. unfold assign. by rewrite Hc, Hw. Qed.

Lemma built_own_class_prototype h parent extra pm pc :
  own_value (built h parent extra pm pc) (length h) "prototype"
  = Some (VObj (length h + 3)).
Proof.
  unfold own_value, own_prop, built.
  by rewrite lookup_app_r, Nat.sub_diag by lia.
Qed.

Lemma built_own_proto h parent extra pm pc k :
  own_prop (built h parent extra pm pc) (length h + 3) k = assoc k pc.
Proof. unfold own_prop. by rewrite built_lookup. Qed.

Lemma built_own_methods h parent extra pm pc k :
  own_prop (built h parent extra pm pc) (length h + 2) k = assoc k pm.
Proof. unfold own_prop. by rewrite built_lookup. Qed.

(** ** [extend]: the later mixin wins *)




(** ** The [__methods__] record *)

(** C3 at a class [A] made from [{extend: f, run: g}] and a class [B]
    made with [A] as its only mixin: [A]'s prototype has both methods, but
    [A.__methods__] has [run] only, and so has [B]'s prototype, on which
    [extend] resolves to the root prototype's. *)
Lemma registry_misses_extend :
  RegistryExample.setup loaded
  = Ret [VObj 12; VObj 14; VObj 16; VObj 17; VObj 21] RegistryExample.world
  ∧ own_value RegistryExample.world 17 "__methods__" = Some (VObj 19)
  ∧ own_value RegistryExample.world 17 "prototype" = Some (VObj 20)
  ∧ own_value RegistryExample.world 20 "extend" = Some (VObj 12)
  ∧ own_value RegistryExample.world 20 "run" = Some (VObj 14)
  ∧ own_value RegistryExample.world 19 "extend" = None
  ∧ own_value RegistryExample.world 19 "run" = Some (VObj 14)
  ∧ own_value RegistryExample.world 21 "prototype" = Some (VObj 24)
  ∧ own_value RegistryExample.world 24 "run" = Some (VObj 14)
  ∧ own_value RegistryExample.world 24 "extend" = None
  ∧ get RegistryExample.world 24 "extend" = VObj 10.
Proof. vm_compute. repeat split. Qed.

(** ** Constructing an instance *)

Lemma chain_ok_preserved n m h g l :
  chain_ok n h l = true → n ≤ m → preserves h g → chain_ok m g l = true.
Proof.
  revert m l. induction n as [|n IH]; intros m l Hc Hm Hp; [done|].
  destruct m as [|m]; [lia|]. simpl in *.
  destruct (h !! l) as [o|] eqn:Hl; [|done].
  rewrite Hp by (by eapply lookup_lt_Some). rewrite Hl.
  destruct (o_proto o); [|done]. apply IH; [done | lia | done].
Qed.

Lemma get_prop_fuel_step n h l k o :
  h !! l = Some o →
  get_prop_fuel (S n) h l k
  = match assoc k (o_props o) with
    | Some p => Some p
    | None =>
        match o_proto o with
        | Some l' => get_prop_fuel n h l' k
        | None => None
        end
    end.
Proof. intros Hl. simpl. by rewrite Hl. Qed.

Lemma instantiate_run g C cp :
  own_value g C "prototype" = Some (VObj cp) →
  (let* o := new_instance C in install_super o ;; ret o) g
  = Ret (length g) (instantiated g cp).
Proof.
  intros Hown. unfold own_value in Hown.
  destruct (own_prop g C "prototype") as [q|] eqn:Hq; [|done].
  simpl in Hown. injection Hown as Hown.
  rewrite (and_then_Ret _ _ _ _ _ (new_instance_own _ _ _ Hq)), Hown.
  unfold install_super, and_then, new_function, putM, ret, instantiated.
  rewrite length_app. simpl length.
  by replace (length g + 1) with (S (length g)) by lia.
Qed.

Lemma instantiated_table g cp :
  cp < length g → chain_ok (length g) g cp = true →
  instantiated g cp
  = (g ++ [Obj (Some cp) true None
             (assign (get_prop g cp "_super") [] "_super"
                     (VObj (S (length g))))])
    ++ super_function (S (length g)).
Proof.
  intros Hcp Hchain. unfold instantiated.
  set (g1 := (g ++ [fresh_instance cp]) ++ super_function (S (length g))).
  assert (Hl : g1 !! length g = Some (fresh_instance cp)).
  { unfold g1. rewrite lookup_app_l by (rewrite length_app; simpl; lia).
    by rewrite lookup_app_r, Nat.sub_diag by lia. }
  rewrite (put_table _ _ _ _ _ Hl) by done.
  assert (Hget : get_prop g1 (length g) "_super" = get_prop g cp "_super").
  { unfold get_prop at 1.
    assert (Hlen : length g1 = S (length g + 2)).
    { unfold g1. rewrite !length_app. simpl. lia. }
    rewrite Hlen. simpl get_prop_fuel. rewrite Hl. simpl.
    apply get_prop_fuel_preserved; [done | lia |].
    unfold g1. rewrite <- app_assoc. apply preserves_app. }
  rewrite Hget. simpl. unfold g1.
  rewrite insert_app_l by (rewrite length_app; simpl; lia).
  by rewrite insert_app_r_alt, Nat.sub_diag by lia.
Qed.

Lemma instantiated_preserves g cp :
  cp < length g → chain_ok (length g) g cp = true →
  preserves g (instantiated g cp).
Proof.
  intros. rewrite instantiated_table by done. rewrite <- app_assoc.
  apply preserves_app.
Qed.

Lemma instantiated_lookup g cp :
  cp < length g → chain_ok (length g) g cp = true →
  instantiated g cp !! length g
  = Some (Obj (Some cp) true None
            (assign (get_prop g cp "_super") [] "_super"
                    (VObj (S (length g))))).
Proof.
  intros. rewrite instantiated_table by done.
  rewrite lookup_app_l by (rewrite length_app; simpl; lia).
  by rewrite lookup_app_r, Nat.sub_diag by lia.
Qed.

Lemma instantiated_length g cp :
  length (instantiated g cp) = S (S (S (length g))).
Proof.
  unfold instantiated. rewrite put_length, !length_app. simpl. lia.
Qed.

(** On the new instance every name but [_super] (and [__proto__])
    resolves through the class's prototype. *)
Lemma instantiated_get g cp k :
  cp < length g → chain_ok (length g) g cp = true →
  k ≠ "_super" → k ≠ "__proto__" →
  get (instantiated g cp) (length g) k = get g cp k.
Proof.
  intros Hcp Hchain Hk Hk'.
  assert (Hg : get_prop (instantiated g cp) (length g) k = get_prop g cp k).
  { unfold get_prop at 1. rewrite instantiated_length.
    rewrite (get_prop_fuel_step _ _ _ _ _
               (instantiated_lookup g cp Hcp Hchain)).
    cbn [o_props o_proto]. rewrite assign_lookup_ne by done. cbn [assoc].
    apply get_prop_fuel_preserved; [done | lia |].
    by apply instantiated_preserves. }
  rewrite !get_data by done. by rewrite Hg.
Qed.


Lemma instantiated_code g cp :
  code_of (instantiated g cp) (S (length g)) = Some CSuper.
Proof.
  unfold instantiated. rewrite put_code. unfold code_of.
  rewrite lookup_app_r by (rewrite length_app; simpl; lia).
  rewrite length_app. simpl.
  by replace (S (length g) - (length g + 1)) with 0 by lia.
Qed.

Lemma call_class (user : nat → user_function) n g C this arguments :
  code_of g C = Some CClass →
  call user (S n) C this arguments g = Class_fn (call user n) this arguments g.
Proof. intros Hc. simpl. by rewrite Hc. Qed.

(** [new C(args)] for a class [C]: allocate, install [_super], then hand
    the instance and the arguments to whatever [init] resolves to. *)
Lemma construct_class (user : nat → user_function) n g C cp arguments :
  code_of g C = Some CClass →
  own_value g C "prototype" = Some (VObj cp) →
  cp < length g → chain_ok (length g) g cp = true →
  construct user (S n) (VObj C) arguments g
  = initialize (call user n) (get g cp "init") (length g) arguments
      (instantiated g cp).
Proof.
  intros Hcode Hown Hcp Hchain.
  pose proof (instantiate_run g C cp Hown) as Hrun.
  pose proof (code_of_lt _ _ _ Hcode) as HC.
  unfold construct, construct_with, is_callable. rewrite Hcode.
  unfold and_then at 1 in Hrun. unfold and_then at 1.
  destruct (new_instance C g) as [o g1| | |] eqn:Hnew; try done.
  assert (code_of g1 C = Some CClass ∧ o = length g) as [Hcode1 ->].
  { unfold own_value in Hown.
    destruct (own_prop g C "prototype") as [q|] eqn:Hq; [|done].
    rewrite (new_instance_own _ _ _ Hq) in Hnew. injection Hnew as <- <-.
    by rewrite code_of_app_l. }
  unfold and_then at 1. rewrite (call_class _ _ _ _ _ _ Hcode1).
  unfold Class_fn. unfold and_then at 1. simpl this_object. unfold ret at 1.
  unfold and_then at 1. unfold and_then at 1 in Hrun.
  destruct (install_super (length g) g1) as [u g2| | |] eqn:Hinst; try done.
  unfold ret in Hrun. injection Hrun as ->.
  unfold and_then at 1, getM at 1.
  rewrite instantiated_get by done.
  unfold initialize.
  destruct (truthy (get g cp "init")).
  - unfold and_then at 1 3. unfold and_then at 1 3. unfold getM.
    rewrite instantiated_get by done. unfold and_then.
    by destruct (apply _ _ _ _ _) as [r hr| | |].
  - done.
Qed.

(** ** [_super] on a new instance *)

Lemma wf_own_value_lt h l k l' :
  wf_heap h → own_value h l k = Some (VObj l') → l' < length h.
Proof.
  intros (_ & _ & Hv)%wf_heap_inv. unfold own_value.
  destruct (own_prop h l k) as [p|] eqn:Hp; [|done].
  simpl. intros [= Hval]. eauto.
Qed.

Lemma wf_chain_ok h l : wf_heap h → l < length h → chain_ok (length h) h l = true.
Proof. intros (_ & Hc & _)%wf_heap_inv. apply Hc. Qed.




(** ** The initializer and the [constructor] marker *)

Lemma built_chain_ok h parent extra pm pc :
  wf_heap h → (∀ p, parent = Some p → p < length h) →
  chain_ok (length (built h parent extra pm pc))
    (built h parent extra pm pc) (length h + 3) = true.
Proof.
  intros Hwf Hpar. rewrite built_length.
  replace (length h + 4) with (S (length h + 3)) by lia.
  simpl. rewrite built_lookup. simpl.
  destruct parent as [p|]; [|done].
  eapply chain_ok_preserved;
    [apply wf_chain_ok; [done | by apply Hpar] | lia | apply built_preserves].
Qed.

Lemma built_code_class h parent extra pm pc :
  code_of (built h parent extra pm pc) (length h) = Some CClass.
Proof.
  unfold code_of, built. by rewrite lookup_app_r, Nat.sub_diag by lia.
Qed.

Lemma built_get_proto h parent extra pm pc k :
  wf_heap h → (∀ p, parent = Some p → p < length h) → k ≠ "__proto__" →
  get (built h parent extra pm pc) (length h + 3) k = chain_value h parent pc k.
Proof.
  intros. rewrite get_data by done. unfold chain_value.
  by rewrite built_get_prop_proto.
Qed.

Lemma chain_value_assign_ne h parent inh pc k0 v k :
  k ≠ k0 →
  chain_value h parent (assign inh pc k0 v) k = chain_value h parent pc k.
Proof.
  intros Hne. unfold chain_value, chain_get. by rewrite assign_lookup_ne.
Qed.

Lemma chain_value_prototype_table h parent es k :
  k ≠ "__proto__" →
  chain_value h parent (prototype_table es []) k
  = match last_entry k es with
    | Some v => v
    | None =>
        match parent with
        | Some pp => get h pp k
        | None => VUndef
        end
    end.
Proof.
  intros Hk. pose proof (prototype_table_value es [] k) as Hv.
  unfold chain_value, chain_get.
  destruct (assoc k (prototype_table es [])) as [c|]; simpl in Hv.
  - destruct (last_entry k es); by simplify_eq.
  - destruct (last_entry k es); [done|]. destruct parent; [|done].
    by rewrite get_data.
Qed.

(** ** The prototype chain of a class *)

Lemma get_through_prototype h g o cp k :
  cp < length h → chain_ok (length h) h cp = true →
  preserves h g → length h ≤ o → proto_of g o = Some cp →
  k ≠ "__proto__" →
  get g o k
  = match own_value g o k with
    | Some v => v
    | None => get h cp k
    end.
Proof.
  intros Hcp Hchain Hp Ho Hproto Hk. unfold proto_of in Hproto.
  destruct (g !! o) as [oo|] eqn:Hoo; [|done].
  pose proof (lookup_lt_Some _ _ _ Hoo) as Hlt.
  rewrite !get_data by done. unfold get_prop, own_value, own_prop.
  rewrite Hoo.
  destruct (length g) as [|m] eqn:Hlen; [lia|].
  rewrite (get_prop_fuel_step _ _ _ _ _ Hoo).
  destruct (assoc k (o_props oo)) as [p|]; [done|]. simpl.
  rewrite Hproto.
  by rewrite (get_prop_fuel_preserved (length h) m h g) by (done || lia).
Qed.

(** C4.  The class [extend] returns has a prototype object that did not
    exist before and whose prototype is the parent's prototype object; the
    object [new] starts from has that new object as its prototype; and on
    any object with that prototype a name resolves to the object's own
    property, else to the new prototype's own property, else to what the
    parent's prototype gives.  A class built without mixins has no own
    property on its prototype but [constructor], so every other name its
    instances do not hold themselves resolves to the parent's.  (The name
    [__proto__] is the host's accessor for the link itself and is set
    aside.) *)
Theorem extend_prototype_chain (h : heap) (P pp : loc) (mixins : list value)
    (C : loc) (h' : heap) :
  wf_heap h → P < length h →
  Forall (fun v => value_ok h v = true) mixins →
  get h P "prototype" = VObj pp →
  extend (VObj P) mixins h = Ret (VObj C) h' →
  ∃ cp,
    own_value h' C "prototype" = Some (VObj cp)
    ∧ length h ≤ cp
    ∧ proto_of h' cp = Some pp
    ∧ new_instance C h' = Ret (length h') (h' ++ [fresh_instance cp])
    ∧ (∀ g o k,
          preserves h' g → length h' ≤ o → proto_of g o = Some cp →
          k ≠ "__proto__" →
          get g o k
          = match own_value g o k with
            | Some v => v
            | None =>
                match own_value h' cp k with
                | Some v => v
                | None => get h pp k
                end
            end)
    ∧ (mixins = [] →
       ∀ g o k,
         preserves h' g → length h' ≤ o → proto_of g o = Some cp →
         own_value g o k = None → k ≠ "constructor" → k ≠ "__proto__" →
         get g o k = get h pp k).
Proof.
  intros Hwf HP Hms Hpp Hrun.
  destruct (extend_built h P mixins _ h' Hwf HP Hms Hrun) as (HC & Hpar & Hh').
  injection HC as ->. rewrite Hpp in Hpar, Hh'. simpl in Hpar, Hh'.
  set (pc := assign _ _ _ _) in Hh'.
  set (pm := methods_table _ _ _) in Hh'.
  assert (Hcp : length h + 3 < length h').
  { rewrite Hh', built_length. lia. }
  assert (Hchain : chain_ok (length h') h' (length h + 3) = true).
  { rewrite Hh'. by apply built_chain_ok. }
  assert (Hcls : own_value h' (length h) "prototype"
                 = Some (VObj (length h + 3))).
  { rewrite Hh'. apply built_own_class_prototype. }
  assert (Hget : ∀ k, k ≠ "__proto__" →
                      get h' (length h + 3) k
                      = match own_value h' (length h + 3) k with
                        | Some v => v
                        | None => get h pp k
                        end).
  { intros k Hk. rewrite Hh'. rewrite built_get_proto by done.
    unfold own_value. rewrite built_own_proto.
    unfold chain_value, chain_get. destruct (assoc k pc); [done|].
    by rewrite get_data. }
  assert (Hlook : ∀ g o k,
             preserves h' g → length h' ≤ o →
             proto_of g o = Some (length h + 3) →
             k ≠ "__proto__" →
             get g o k
             = match own_value g o k with
               | Some v => v
               | None =>
                   match own_value h' (length h + 3) k with
                   | Some v => v
                   | None => get h pp k
                   end
               end).
  { intros g o k Hp Ho Hproto Hk.
    rewrite (get_through_prototype h' g o (length h + 3) k) by done.
    by rewrite Hget. }
  exists (length h + 3). split; [done|]. split; [lia|]. split.
  { rewrite Hh'. unfold proto_of. by rewrite built_lookup. }
  split.
  { unfold own_value in Hcls.
    destruct (own_prop h' (length h) "prototype") as [q|] eqn:Hq; [|done].
    simpl in Hcls. injection Hcls as Hcls.
    by rewrite (new_instance_own _ _ _ Hq), Hcls. }
  split; [done|].
  intros -> g o k Hp Ho Hproto Hown Hk Hk'.
  rewrite Hlook by done. rewrite Hown.
  assert (Hnone : own_value h' (length h + 3) k = None).
  { rewrite Hh'. unfold own_value. rewrite built_own_proto.
    unfold pc. by rewrite assign_lookup_ne. }
  by rewrite Hnone.
Qed.

(** A class made from [Person] without mixins: [dance] on its instance is
    [Person]'s. *)
Lemma extend_prototype_chain_witness :
  ∃ C h' cp,
    extend (VObj 17) [] DocExample.world = Ret (VObj C) h'
    ∧ own_value h' C "prototype" = Some (VObj cp)
    ∧ proto_of h' cp = Some 20
    ∧ get (h' ++ [fresh_instance cp]) (length h') "dance" = VObj 14
    ∧ get DocExample.world 20 "dance" = VObj 14.
Proof.
  destruct (extend (VObj 17) [] DocExample.world)
    as [[| | | | |C] h'| | |] eqn:Hrun; try (by vm_compute in Hrun).
  destruct (extend_prototype_chain DocExample.world 17 20 [] C h')
    as (cp & Hcp & _ & Hproto & _ & _ & Hno).
  - vm_compute. reflexivity.
  - vm_compute. lia.
  - constructor.
  - vm_compute. reflexivity.
  - exact Hrun.
  - exists C, h', cp. split; [reflexivity|]. split; [exact Hcp|].
    split; [exact Hproto|]. split; [|vm_compute; reflexivity].
    rewrite (Hno eq_refl (h' ++ [fresh_instance cp]) (length h') "dance").
    + vm_compute. reflexivity.
    + apply preserves_app.
    + lia.
    + unfold proto_of. by rewrite lookup_app_r, Nat.sub_diag by lia.
    + unfold own_value, own_prop.
      by rewrite lookup_app_r, Nat.sub_diag by lia.
    + discriminate.
    + discriminate.
Defined.

(** ** [extend] keeps the heap well formed *)

Lemma value_ok_mono h g v :
  length h ≤ length g → value_ok h v = true → value_ok g v = true.
Proof.
  intros Hle. destruct v; try done. simpl.
  intros Hv%bool_decide_eq_true. apply bool_decide_eq_true. lia.
Qed.

Lemma table_ok_mono h g ps :
  length h ≤ length g → table_ok h ps → table_ok g ps.
Proof.
  intros Hle. apply Forall_impl. intros kp. by apply value_ok_mono.
Qed.

Lemma obj_ok_table g o : obj_ok g o = true ↔ table_ok g (o_props o).
Proof.
  unfold obj_ok, table_ok. by rewrite forallb_forall, Forall_forall.
Qed.

Lemma wf_heap_intro h :
  4 ≤ length h →
  (∀ l, l < length h → chain_ok (length h) h l = true) →
  (∀ o, o ∈ h → table_ok h (o_props o)) →
  wf_heap h.
Proof.
  intros H4 Hc Hv. unfold wf_heap. rewrite !andb_true_iff. split; [split|].
  - by apply bool_decide_eq_true.
  - apply forallb_forall. intros l Hl%in_seq. apply Hc. lia.
  - apply forallb_forall. intros o Ho%list_elem_of_In.
    apply obj_ok_table. by apply Hv.
Qed.

Lemma wf_heap_tables h o : wf_heap h → o ∈ h → table_ok h (o_props o).
Proof.
  unfold wf_heap. rewrite !andb_true_iff. intros [_ Hv] Ho.
  rewrite forallb_forall in Hv. apply obj_ok_table, Hv.
  by apply list_elem_of_In.
Qed.

Lemma get_ok h l k : wf_heap h → value_ok h (get h l k) = true.
Proof.
  intros Hwf. destruct (get h l k) eqn:Hg; try done. simpl.
  apply bool_decide_eq_true. by eapply get_value_ok.
Qed.

Lemma assoc_set_ok g k p ps :
  value_ok g (p_value p) = true → table_ok g ps →
  table_ok g (assoc_set k p ps).
Proof.
  intros Hp. induction ps as [|[k' p'] ps IH]; intros Hps; simpl.
  - by constructor.
  - inversion Hps as [|? ? Hp' Hps']; subst.
    destruct (decide (k = k')); constructor; try done. by apply IH.
Qed.

Lemma assign_ok g inh ps k v :
  value_ok g v = true → table_ok g ps → table_ok g (assign inh ps k v).
Proof.
  intros Hv Hps. unfold assign. destruct (assoc k ps) as [p|].
  - destruct (p_writable p); [by apply assoc_set_ok | done].
  - destruct (match inh with Some p => p_writable p | None => true end);
      [by apply assoc_set_ok | done].
Qed.

Lemma define_method_ok g ps k v :
  value_ok g v = true → table_ok g ps → table_ok g (define_method ps k v).
Proof.
  intros Hv Hps. unfold define_method. apply assoc_set_ok; [|done].
  by destruct (assoc k ps).
Qed.

Lemma methods_table_ok g h es pm :
  Forall (fun kv : string * value => value_ok g kv.2 = true) es →
  table_ok g pm → table_ok g (methods_table h es pm).
Proof.
  intros Hes. revert pm. induction Hes as [|[k v] es Hv Hes IH]; intros pm Hpm;
    [done|].
  simpl. apply IH. by apply assign_ok.
Qed.

Lemma prototype_table_ok g es pc :
  Forall (fun kv : string * value => value_ok g kv.2 = true) es →
  table_ok g pc → table_ok g (prototype_table es pc).
Proof.
  intros Hes. revert pc. induction Hes as [|[k v] es Hv Hes IH]; intros pc Hpc;
    [done|].
  simpl. apply IH. by apply define_method_ok.
Qed.

Lemma entries_ok h d :
  wf_heap h →
  Forall (fun kv : string * value => value_ok h kv.2 = true) (entries h d).
Proof.
  intros Hwf. unfold entries. destruct d as [| | | | |l]; try by constructor.
  induction (own_keys h l) as [|k ks IH]; simpl; constructor; [|done].
  by apply get_ok.
Qed.

Lemma merged_ok h mixins :
  wf_heap h →
  Forall (fun kv : string * value => value_ok h kv.2 = true) (merged h mixins).
Proof.
  intros Hwf. unfold merged. induction mixins as [|m ms IH]; simpl.
  - constructor.
  - apply Forall_app. split; [by apply entries_ok | done].
Qed.

Lemma assoc_table_ok g ps k p :
  table_ok g ps → assoc k ps = Some p → value_ok g (p_value p) = true.
Proof.
  induction ps as [|[k' p'] ps IH]; [done|]. simpl.
  intros Hall. inversion Hall as [|? ? Hp Hps]; subst.
  destruct (decide (k = k')).
  - by intros [= <-].
  - by apply IH.
Qed.

Lemma built_wf h parent extra pm pc :
  wf_heap h → (∀ p, parent = Some p → p < length h) →
  let g := built h parent extra pm pc in
  table_ok g extra → table_ok g pm → table_ok g pc →
  wf_heap g.
Proof.
  intros Hwf Hpar g Hextra Hpm Hpc.
  pose proof (wf_heap_inv h Hwf) as (H4 & Hc & _).
  assert (Hlen : length g = length h + 4) by apply built_length.
  assert (Hold : ∀ l, l < length h → chain_ok (length g) g l = true).
  { intros l Hl. eapply chain_ok_preserved;
      [by apply Hc | lia | apply built_preserves]. }
  apply wf_heap_intro.
  - lia.
  - intros l Hl. destruct (decide (l < length h)) as [|Hge]; [by apply Hold|].
    assert (∃ i, l = length h + i ∧ i < 4) as (i & -> & Hi)
      by (exists (l - length h); lia).
    rewrite Hlen. replace (length h + 4) with (S (length h + 3)) by lia.
    simpl. unfold g. rewrite built_lookup.
    assert (Hstep : ∀ p, p < length h →
              chain_ok (length h + 3) (built h parent extra pm pc) p = true).
    { intros p Hp. eapply chain_ok_preserved;
        [by apply Hc | lia | apply built_preserves]. }
    destruct i as [|[|[|[|]]]]; simpl; try lia.
    + apply Hstep. unfold Function_prototype. lia.
    + apply Hstep. unfold Object_prototype. lia.
    + apply Hstep. unfold Object_prototype. lia.
    + destruct parent as [p|]; [|done]. apply Hstep. by apply Hpar.
  - intros o Ho. unfold g, built in Ho. apply elem_of_app in Ho as [Ho|Ho].
    + eapply table_ok_mono; [|by apply wf_heap_tables]. lia.
    + assert (Hv : ∀ l, l < length g → value_ok g (VObj l) = true).
      { intros l Hl. by apply bool_decide_eq_true. }
      repeat (apply elem_of_cons in Ho as [->|Ho]); simpl.
      * repeat constructor; simpl; [apply Hv; lia | done].
      * repeat constructor. simpl. apply Hv. lia.
      * done.
      * done.
      * by apply elem_of_nil in Ho.
Qed.

(** A class made in a well-formed heap leaves a well-formed heap. *)
Lemma extend_wf h (P : loc) mixins v h' :
  wf_heap h → P < length h →
  Forall (fun v => value_ok h v = true) mixins →
  extend (VObj P) mixins h = Ret v h' →
  wf_heap h'.
Proof.
  intros Hwf HP Hms Hrun.
  destruct (extend_built h P mixins v h' Hwf HP Hms Hrun) as (_ & Hpar & ->).
  set (parent := parent_of _) in *.
  set (pc := prototype_table (merged h mixins) []).
  assert (Hle : length h ≤ length h + 4) by lia.
  assert (Hes : Forall (fun kv : string * value =>
                          value_ok h kv.2 = true) (merged h mixins))
    by (by apply merged_ok).
  assert (Hpc : table_ok h pc).
  { apply prototype_table_ok; [done | constructor]. }
  apply built_wf; try done; cbv zeta.
  - repeat constructor. simpl. apply bool_decide_eq_true.
    rewrite built_length. lia.
  - apply (table_ok_mono h); [rewrite built_length; lia|].
    apply methods_table_ok; [done | constructor].
  - apply assign_ok.
    + unfold marker.
      destruct (truthy (chain_value h parent pc "init")) eqn:Ht.
      * apply (value_ok_mono h); [rewrite built_length; lia|].
        unfold chain_value, chain_get in *.
        destruct (assoc "init" pc) as [c|] eqn:Hc.
        -- by eapply assoc_table_ok.
        -- destruct parent as [p|]; [|done].
           destruct (get_prop h p "init") as [q|] eqn:Hq; [|done].
           pose proof (get_ok h p "init" Hwf) as Hg.
           by rewrite get_data, Hq in Hg.
      * simpl. apply bool_decide_eq_true. rewrite built_length. lia.
    + apply (table_ok_mono h); [rewrite built_length; lia | done].
Qed.

(** ** The fallbacks for older hosts *)

(** X1.  On an object that has no [__defineGetter__] the
    [Object.defineProperty] fallback throws the string of line 36 (a
    string, not an error object), whatever the property and the
    attributes, and leaves the heap as it is. *)
Theorem defineProperty_fallback_unsupported (call : caller) (l : loc)
    (rest : list value) (h : heap) :
  truthy (get h l "__defineGetter__") = false →
  defineProperty_fallback call (VObj l :: rest) h
  = Throw (Thrown (VStr "melonJS: Object.defineProperty not supported")) h.
Proof.
  intros Ht. unfold defineProperty_fallback. cbn [nth].
  unfold and_then, get_v, getM. by rewrite Ht.
Qed.

Lemma defineProperty_fallback_unsupported_witness :
  defineProperty_fallback (call DocExample.user 3)
    [VObj global; VStr "x"; VObj 4] loaded
  = Throw (Thrown (VStr "melonJS: Object.defineProperty not supported")) loaded.
Proof.
  apply (defineProperty_fallback_unsupported (call DocExample.user 3) global
           [VStr "x"; VObj 4] loaded).
  vm_compute. reflexivity.
Defined.

(** X2.  The fallback knows accessors only: given attributes with neither
    [get] nor [set] (every attribute object this file itself passes, such as
    [{value: f}]), it returns without calling anything and without defining
    anything. *)
Theorem defineProperty_fallback_ignores_value (call : caller) (l d : loc)
    (prop : value) (rest : list value) (h : heap) :
  truthy (get h l "__defineGetter__") = true →
  truthy (get h d "get") = false →
  truthy (get h d "set") = false →
  defineProperty_fallback call (VObj l :: prop :: VObj d :: rest) h
  = Ret VUndef h.
Proof.
  intros Hdg Hget Hset. unfold defineProperty_fallback. cbn [nth].
  unfold and_then, get_v, getM, ret. by rewrite Hdg, Hget, Hset.
Qed.

Lemma defineProperty_fallback_ignores_value_witness :
  own_value LegacyExample.before 9 "value" = Some (VObj 7)
  ∧ defineProperty_fallback (call DocExample.user 3)
      [VObj 6; VStr "run"; VObj 9] LegacyExample.before
    = Ret VUndef LegacyExample.before.
Proof.
  split; [vm_compute; reflexivity|].
  apply (defineProperty_fallback_ignores_value (call DocExample.user 3) 6 9
           (VStr "run") [] LegacyExample.before);
    vm_compute; reflexivity.
Defined.

Lemma get_put_eq h l k v :
  can_put h l k = true → get (put h l k v) l k = v.
Proof.
  intros Hc. pose proof (own_value_put_eq h l k v Hc) as Hv.
  unfold own_value in Hv.
  destruct (own_prop (put h l k v) l k) as [q|] eqn:Hq; [|done].
  simpl in Hv. injection Hv as <-. by apply get_own.
Qed.

(** X3.  The [Object.create] fallback never faults: it returns a new object
    with no property of its own, whose prototype is the argument when that
    is an object and the root prototype for every other argument ([null],
    [undefined], a missing argument, a primitive), and it leaves the objects
    that existed alone. *)
Theorem Object_create_fallback_result (user : nat → user_function) (n : nat)
    (arguments : list value) (h : heap) :
  ∃ h',
    Object_create_fallback user (S n) arguments h
    = Ret (VObj (length h + 2)) h'
    ∧ length h' = length h + 3
    ∧ preserves h h'
    ∧ h' !! (length h + 2)
      = Some (Obj (Some (match nth 0 arguments VUndef with
                         | VObj p => p
                         | _ => Object_prototype
                         end)) true None []).
Proof.
  unfold Object_create_fallback. set (v := nth 0 arguments VUndef).
  unfold and_then at 1, new_function. set (h1 := h ++ [_; _]).
  assert (Hlen1 : length h1 = length h + 2).
  { unfold h1. rewrite length_app. simpl. lia. }
  assert (Hown1 : own_prop h1 (length h) "prototype"
                  = Some (MkProp (VObj (S (length h))) true false false)).
  { unfold h1. by rewrite own_prop_app_0. }
  assert (Hput : can_put h1 (length h) "prototype" = true).
  { unfold can_put. by rewrite Hown1. }
  unfold and_then at 1. rewrite putM_data by done.
  set (h2 := put h1 (length h) "prototype" v).
  assert (Hlen2 : length h2 = length h + 2).
  { unfold h2. by rewrite put_length. }
  assert (Hcode2 : code_of h2 (length h) = Some CEmpty).
  { unfold h2. rewrite put_code. unfold h1. by rewrite code_of_app_0. }
  unfold construct, construct_with, is_callable. rewrite Hcode2.
  unfold and_then at 1, new_instance, and_then at 1, getM, alloc.
  assert (Hget : get h2 (length h) "prototype" = v).
  { unfold h2. by apply get_put_eq. }
  rewrite Hget. set (o := Obj _ true None []). set (h3 := h2 ++ [o]).
  assert (Hcode3 : code_of h3 (length h) = Some CEmpty).
  { unfold h3. rewrite code_of_app_l by lia. done. }
  unfold and_then. cbn [call]. rewrite Hcode3. unfold ret. cbn [is_object].
  rewrite Hlen2. exists h3. split; [done|]. split; [|split].
  - unfold h3. rewrite length_app, Hlen2. simpl. lia.
  - intros l Hl. unfold h3. rewrite lookup_app_l by lia.
    unfold h2. rewrite put_lookup_ne by lia.
    unfold h1. by rewrite lookup_app_l.
  - unfold h3. rewrite lookup_app_r by lia.
    by replace (length h + 2 - length h2) with 0 by lia.
Qed.

(** ** [Class] and [_super] at their edges *)

Lemma can_put_preserved h g l k :
  wf_heap h → l < length h → preserves h g → can_put g l k = can_put h l k.
Proof.
  intros Hwf Hl Hp. unfold can_put, own_prop, extensible.
  rewrite (get_prop_preserved h g) by done. by rewrite (Hp l Hl).
Qed.

Lemma get_put_ne h l k v l' k' :
  k ≠ k' → k' ≠ "__proto__" → get (put h l k v) l' k' = get h l' k'.
Proof.
  intros Hne Hk. rewrite !get_data by done. by rewrite get_prop_put_ne.
Qed.

(** X4.  A class called as a plain function (without [new], so with no
    receiver) works on the global object: it installs a new [_super]
    closure there and, when the global object has no [init], returns the
    global object; no other object that existed is touched. *)
Theorem class_plain_call (user : nat → user_function) (n : nat) (g : heap)
    (C : loc) (this : value) (arguments : list value) :
  wf_heap g →
  code_of g C = Some CClass →
  this = VUndef ∨ this = VNull →
  can_put g global "_super" = true →
  truthy (get g global "init") = false →
  ∃ g',
    call user (S n) C this arguments g = Ret (VObj global) g'
    ∧ length g' = length g + 2
    ∧ (∀ l, l < length g → l ≠ global → g' !! l = g !! l)
    ∧ own_value g' global "_super" = Some (VObj (length g))
    ∧ code_of g' (length g) = Some CSuper.
Proof.
  intros Hwf HC Hthis Hput Hinit.
  pose proof (wf_heap_inv g Hwf) as (H4 & _).
  assert (Hgl : global < length g) by (unfold global; lia).
  rewrite (call_class _ _ _ _ _ _ HC). unfold Class_fn.
  assert (Hself : this_object this g = Ret global g)
    by (by destruct Hthis as [-> | ->]).
  rewrite (and_then_Ret _ _ _ _ _ Hself).
  unfold install_super, and_then at 1 2, new_function.
  set (g1 := g ++ [_; _]).
  assert (Hp1 : preserves g g1) by apply preserves_app.
  rewrite putM_data by done.
  set (g2 := put g1 global "_super" (VObj (length g))).
  assert (Hput1 : can_put g1 global "_super" = true).
  { by rewrite (can_put_preserved g g1). }
  assert (Hget : get g2 global "init" = get g global "init").
  { unfold g2. rewrite get_put_ne by done. by apply get_preserved. }
  unfold and_then at 1, getM at 1. rewrite Hget, Hinit.
  unfold and_then, ret. exists g2. split; [done|]. split; [|split; [|split]].
  - unfold g2, g1. rewrite put_length, length_app. simpl. lia.
  - intros l Hl Hne. unfold g2. rewrite put_lookup_ne by done. by apply Hp1.
  - unfold g2. by apply own_value_put_eq.
  - unfold g2. rewrite put_code. unfold g1. by rewrite code_of_app_0.
Qed.

Lemma class_plain_call_witness :
  ∃ g',
    call DocExample.user 3 17 VUndef [VBool true] DocExample.world
    = Ret (VObj global) g'
    ∧ own_value g' global "_super" = Some (VObj (length DocExample.world)).
Proof.
  destruct (class_plain_call DocExample.user 2 DocExample.world 17 VUndef
              [VBool true]) as (g' & Hrun & _ & _ & Hs & _).
  - vm_compute. reflexivity.
  - vm_compute. reflexivity.
  - by left.
  - vm_compute. reflexivity.
  - vm_compute. reflexivity.
  - exists g'. exact (conj Hrun Hs).
Defined.

(** X5.  [new C(...)] for a class [C] made by [extend] never yields what
    [init] returns: when the construction returns, its result is the newly
    allocated instance. *)
Theorem construct_returns_instance (user : nat → user_function) (n : nat)
    (g : heap) (C cp : loc) (arguments : list value) (v : value) (g' : heap) :
  wf_heap g →
  code_of g C = Some CClass →
  own_value g C "prototype" = Some (VObj cp) →
  construct user (S n) (VObj C) arguments g = Ret v g' →
  v = VObj (length g).
Proof.
  intros Hwf HC Hp Hrun.
  assert (Hcp : cp < length g) by (by eapply wf_own_value_lt).
  rewrite (construct_class user n g C cp arguments HC Hp Hcp) in Hrun
    by (by apply wf_chain_ok).
  unfold initialize, and_then, ret in Hrun.
  destruct (truthy (get g cp "init")).
  - destruct (apply _ _ _ _ _) as [r hr| | |]; [|done..].
    by injection Hrun as <- _.
  - by injection Hrun as <- _.
Qed.

Lemma construct_returns_instance_witness :
  ∃ g',
    construct DocExample.user 3 (VObj 17) [VBool true] DocExample.world
    = Ret (VObj (length DocExample.world)) g'.
Proof.
  destruct (construct DocExample.user 3 (VObj 17) [VBool true]
              DocExample.world) as [v g'| | |] eqn:Hrun;
    try (by vm_compute in Hrun).
  exists g'.
  rewrite (construct_returns_instance DocExample.user 2 DocExample.world
             17 20 [VBool true] v g'); [reflexivity | | | | exact Hrun].
  - vm_compute. reflexivity.
  - vm_compute. reflexivity.
  - vm_compute. reflexivity.
Defined.



(** ** [mixin] at its edges *)

(** X7.  With a source that has nothing to iterate over ([undefined],
    [null], a number, a boolean, or no argument at all) [mixin] returns its
    receiver and changes nothing. *)
Theorem mixin_without_source (call : caller) (this : value) (self : loc)
    (arguments : list value) (h : heap) :
  this_object this h = Ret self h →
  is_object (nth 0 arguments VUndef) = false →
  (∀ s, nth 0 arguments VUndef ≠ VStr s) →
  mixin call this arguments h = Ret (VObj self) h.
Proof.
  intros Hself Hobj Hstr. unfold mixin.
  rewrite (and_then_Ret _ _ _ _ _ Hself).
  by destruct (nth 0 arguments VUndef) as [| | | |s|]; try done;
    destruct (Hstr s).
Qed.

Lemma mixin_without_source_witness :
  mixin (call DocExample.user 0) (VObj 12) [] MixinExample.before
  = Ret (VObj 12) MixinExample.before
  ∧ mixin (call DocExample.user 0) (VObj 12) [VNull] MixinExample.before
    = Ret (VObj 12) MixinExample.before.
Proof.
  split.
  - by apply (mixin_without_source (call DocExample.user 0) (VObj 12) 12 []
                MixinExample.before).
  - by apply (mixin_without_source (call DocExample.user 0) (VObj 12) 12
                [VNull] MixinExample.before).
Defined.

Lemma assoc_set_id {A} k (a : A) ps : assoc k ps = Some a → assoc_set k a ps = ps.
Proof.
  induction ps as [|[k' a'] ps IH]; simpl; [done|].
  destruct (decide (k = k')) as [->|Hne].
  - by intros [= ->].
  - intros Ha. by rewrite IH.
Qed.

Lemma set_own_id h l k p : own_prop h l k = Some p → set_own h l k p = h.
Proof.
  unfold own_prop, set_own. destruct (h !! l) as [o|] eqn:Hl; [|done].
  intros Ha. rewrite (assoc_set_id _ _ _ Ha). apply list_insert_id.
  rewrite Hl. by destruct o.
Qed.

Lemma put_same h l k v : own_value h l k = Some v → put h l k v = h.
Proof.
  unfold own_value, put. destruct (can_put h l k); [|done].
  destruct (own_prop h l k) as [p|] eqn:Hp; [|done]. simpl.
  intros [= <-]. apply set_own_id. by destruct p.
Qed.

Lemma put_refused h l k v : can_put h l k = false → put h l k v = h.
Proof. intros Hc. unfold put. by rewrite Hc. Qed.

Lemma own_prop_put h l k v k' :
  own_prop (put h l k v) l k'
  = if bool_decide (k = k') && can_put h l k
    then Some (assigned (own_prop h l k) v)
    else own_prop h l k'.
Proof.
  case_bool_decide as Hk; simpl.
  - subst k'. destruct (can_put h l k) eqn:Hc.
    + pose proof (can_put_is_Some _ _ _ Hc) as Hl. unfold put. rewrite Hc.
      destruct (own_prop h l k); by rewrite own_prop_set_own_eq.
    + by rewrite put_refused.
  - rewrite own_prop_put_ne; [done | by right].
Qed.

(** One round of the loop of lines 54-60. *)
Lemma mixin_step (call : caller) h r obj seen hc i :
  mixing h r obj seen hc →
  host_hasOwnProperty hc obj = true →
  (is_Some (own_prop h obj i) → i ≠ "__proto__") →
  (let* own := hasOwnProperty call (VObj obj) i in
   if own then
     let* v := get_v (VObj obj) i in
     putM r i v
   else ret tt) hc
  = Ret tt (if bool_decide (is_Some (own_prop h obj i))
            then put hc r i (get h obj i) else hc).
Proof.
  intros (_ & _ & _ & _ & _ & _ & Hobj & _) Hhost Hi.
  pose proof (own_value_is_Some h hc obj Hobj) as Hsome.
  unfold and_then at 1. rewrite (hasOwnProperty_host call hc obj i Hhost).
  unfold has_own. rewrite Hsome.
  case_bool_decide as Hown; [|done].
  unfold and_then. simpl get_v. unfold getM. rewrite putM_data by auto.
  destruct Hown as [p Hown].
  specialize (Hobj i). unfold own_value in Hobj. rewrite Hown in Hobj.
  destruct (own_prop hc obj i) as [q|] eqn:Hq; [|done].
  simpl in Hobj. injection Hobj as Hobj.
  by rewrite (get_own _ _ _ _ Hq), (get_own _ _ _ _ Hown), Hobj.
Qed.

Lemma mixin_loop_props (call : caller) h r obj ks seen hc hc' :
  (∀ k, k ∈ ks → is_Some (own_prop h obj k) → k ≠ "__proto__") →
  host_hasOwnProperty hc obj = true →
  mixing h r obj seen hc →
  (∀ k, own_prop hc r k
        = if bool_decide (k ∈ seen) && bool_decide (is_Some (own_prop h obj k))
             && can_put h r k
          then Some (assigned (own_prop h r k) (get h obj k))
          else own_prop h r k) →
  for_each ks (fun i =>
    let* own := hasOwnProperty call (VObj obj) i in
    if own then
      let* v := get_v (VObj obj) i in
      putM r i v
    else ret tt) hc = Ret tt hc' →
  ∀ k, own_prop hc' r k
       = if bool_decide (k ∈ seen ++ ks)
            && bool_decide (is_Some (own_prop h obj k)) && can_put h r k
         then Some (assigned (own_prop h r k) (get h obj k))
         else own_prop h r k.
Proof.
  intros Hks. revert seen hc. induction ks as [|i ks IH];
    intros seen hc Hhost Hm Hp Hrun.
  - simpl in Hrun. unfold ret in Hrun. injection Hrun as <-.
    intros k. rewrite app_nil_r. apply Hp.
  - assert (Hi : is_Some (own_prop h obj i) → i ≠ "__proto__").
    { apply Hks. by left. }
    assert (Hks' : ∀ k, k ∈ ks → is_Some (own_prop h obj k) → k ≠ "__proto__").
    { intros k Hk. apply Hks. by right. }
    destruct (mixin_loop call h r obj [i] seen hc)
      as (hc1 & Hone & Hm1 & Hhost1); [|done|done|].
    { intros k ->%list_elem_of_singleton. done. }
    cbn [for_each] in Hone, Hrun.
    rewrite (and_then_Ret _ _ _ _ _
               (mixin_step call h r obj seen hc i Hm Hhost Hi)) in Hone.
    rewrite (and_then_Ret _ _ _ _ _
               (mixin_step call h r obj seen hc i Hm Hhost Hi)) in Hrun.
    unfold ret in Hone. injection Hone as Hone.
    replace (seen ++ i :: ks) with ((seen ++ [i]) ++ ks)
      by (by rewrite <- app_assoc).
    rewrite Hone in Hrun.
    apply (IH Hks' (seen ++ [i]) hc1 Hhost1 Hm1); [|done].
    destruct Hm as (_ & _ & _ & _ & _ & Hcp & _ & _).
    intros k. rewrite <- Hone.
    assert (Hin : bool_decide (k ∈ seen ++ [i])
                  = bool_decide (k ∈ seen) || bool_decide (i = k)).
    { apply eq_true_iff_eq.
      rewrite orb_true_iff, !bool_decide_eq_true, elem_of_app,
        list_elem_of_singleton.
      split; (intros [?|?]; [by left | by right]). }
    rewrite Hin. clear Hin.
    destruct (decide (is_Some (own_prop h obj i))) as [Hown|Hown].
    + rewrite (bool_decide_eq_true_2 _ Hown).
      rewrite own_prop_put, Hcp, !Hp.
      destruct (decide (i = k)) as [<-|Hik].
      * rewrite (bool_decide_eq_true_2 (i = i)) by done.
        rewrite (bool_decide_eq_true_2 _ Hown), orb_true_r.
        simpl. destruct (can_put h r i).
        -- rewrite ?andb_true_r.
           by destruct (bool_decide (i ∈ seen)), (own_prop h r i).
        -- by rewrite ?andb_false_r.
      * rewrite (bool_decide_eq_false_2 (i = k)) by done.
        simpl. by rewrite orb_false_r.
    + rewrite (bool_decide_eq_false_2 _ Hown). rewrite Hp.
      destruct (decide (i = k)) as [<-|Hik].
      * rewrite (bool_decide_eq_false_2 _ Hown). by rewrite !andb_false_r.
      * rewrite (bool_decide_eq_false_2 (i = k)) by done.
        by rewrite orb_false_r.
Qed.



Lemma mixin_loop_idle (call : caller) h r obj ks :
  host_hasOwnProperty h obj = true →
  (∀ k, k ∈ ks → is_Some (own_prop h obj k) →
        k ≠ "__proto__"
        ∧ (can_put h r k = true → own_value h r k = own_value h obj k)) →
  for_each ks (fun i =>
    let* own := hasOwnProperty call (VObj obj) i in
    if own then
      let* v := get_v (VObj obj) i in
      putM r i v
    else ret tt) h = Ret tt h.
Proof.
  intros Hhost. induction ks as [|i ks IH]; intros Hks; [done|].
  cbn [for_each].
  assert (Hi : is_Some (own_prop h obj i) → i ≠ "__proto__").
  { intros Hown. by apply Hks; [left|]. }
  rewrite (and_then_Ret _ _ _ _ _
             (mixin_step call h r obj [] h i (mixing_start h r obj)
                Hhost Hi)).
  assert (Hsame : (if bool_decide (is_Some (own_prop h obj i))
                   then put h r i (get h obj i) else h) = h).
  { case_bool_decide as Hown; [|done].
    destruct (Hks i) as [_ Hv]; [by left | done |].
    destruct (can_put h r i) eqn:Hc; [|by apply put_refused].
    apply put_same. rewrite Hv by done.
    destruct Hown as [p Hown]. unfold own_value. rewrite Hown.
    by rewrite (get_own _ _ _ _ Hown). }
  rewrite Hsame. apply IH. intros k Hk. apply Hks. by right.
Qed.

(** X9.  With a source whose [hasOwnProperty] is the host's, mixing the
    same source into the same receiver a second time changes nothing: the
    second call returns the receiver and leaves the heap exactly as the
    first call left it. *)
Theorem mixin_twice (call : caller) (h : heap) (r obj : loc) (v : value)
    (h1 : heap) :
  "__proto__" ∉ own_keys h obj →
  host_hasOwnProperty h obj = true →
  r ≠ obj →
  mixin call (VObj r) [VObj obj] h = Ret v h1 →
  mixin call (VObj r) [VObj obj] h1 = Ret (VObj r) h1.
Proof.
  intros Hproto Hhost Hne Hrun.
  assert (Hks : ∀ k, k ∈ for_in_fuel (length h) h obj [] →
                     is_Some (own_prop h obj k) → k ≠ "__proto__").
  { intros k Hk Hown ->. apply Hproto. by apply for_in_own_keys. }
  destruct (mixin_loop call h r obj (for_in_fuel (length h) h obj []) [] h
              Hks Hhost (mixing_start h r obj))
    as (h' & Hloop & (_ & Hfr & _ & _ & _ & Hcp & Hobj & Hr) & Hhost').
  assert (h1 = h') as ->.
  { unfold mixin in Hrun. cbn [nth] in Hrun.
    rewrite (and_then_Ret _ _ h r h) in Hrun by reflexivity.
    rewrite (and_then_Ret _ _ h (for_in_fuel (length h) h obj []) h) in Hrun
      by reflexivity.
    rewrite (and_then_Ret _ _ _ _ _ Hloop) in Hrun. unfold ret in Hrun.
    by injection Hrun as _ <-. }
  assert (Hsrc : h' !! obj = h !! obj) by (by apply Hfr).
  assert (Hkeys : own_keys h' obj = own_keys h obj).
  { unfold own_keys. by rewrite Hsrc. }
  unfold mixin. cbn [nth].
  rewrite (and_then_Ret _ _ h' r h') by reflexivity.
  rewrite (and_then_Ret _ _ h' (for_in_fuel (length h') h' obj []) h')
    by reflexivity.
  rewrite (and_then_Ret _ _ h' tt h'); [done|].
  apply mixin_loop_idle; [done|]. intros k Hk Hown.
  assert (Hin : k ∈ own_keys h obj).
  { rewrite <- Hkeys. by apply for_in_own_keys. }
  split; [by intros ->|]. intros Hc.
  rewrite Hr, Hobj. rewrite Hcp in Hc. rewrite Hc, andb_true_r.
  apply for_in_own_keys in Hin as [Hin Hown0].
  by rewrite app_nil_l, !bool_decide_eq_true_2.
Qed.

Lemma mixin_twice_witness :
  ∃ h1,
    mixin (call DocExample.user 0) (VObj 12) [VObj 13] MixinExample.before
    = Ret (VObj 12) h1
    ∧ mixin (call DocExample.user 0) (VObj 12) [VObj 13] h1
      = Ret (VObj 12) h1.
Proof.
  destruct (mixin (call DocExample.user 0) (VObj 12) [VObj 13]
              MixinExample.before)
    as [v h1| | |] eqn:Hrun; try (by vm_compute in Hrun).
  exists h1. split.
  - vm_compute in Hrun. injection Hrun as <- <-. reflexivity.
  - apply (mixin_twice (call DocExample.user 0) MixinExample.before 12 13
             v h1).
    + apply (bool_decide_unpack _). vm_compute. exact I.
    + vm_compute. reflexivity.
    + discriminate.
    + exact Hrun.
Defined.

(** ** Objects that stay *)

Lemma own_value_Some_get h l k v : own_value h l k = Some v → get h l k = v.
Proof.
  unfold own_value. destruct (own_prop h l k) as [q|] eqn:Hq; [|done].
  simpl. intros [= <-]. by apply get_own.
Qed.

Lemma preserves_trans h g g' : preserves h g → preserves g g' → preserves h g'.
Proof.
  intros Hp Hq l Hl. rewrite Hq, Hp; [done..|].
  pose proof (preserves_length _ _ Hp). lia.
Qed.

Lemma preserves_own_prop h g l k :
  preserves h g → l < length h → own_prop g l k = own_prop h l k.
Proof. intros Hp Hl. unfold own_prop. by rewrite Hp. Qed.

Lemma preserves_code h g l :
  preserves h g → l < length h → code_of g l = code_of h l.
Proof. intros Hp Hl. unfold code_of. by rewrite Hp. Qed.

(** ** [extend] runs to its end *)

Lemma apply_keys_runs h parent (d : loc) ks pm pc :
  wf_heap h → d < length h → all_configurable pc → "__proto__" ∉ ks →
  for_each ks (fun key =>
    let* v := get_v (VObj d) key in
    putM (length h + 2) key v ;;
    let* cp := getM (length h) "prototype" in
    let* v' := get_v (VObj d) key in
    defineProperty cp key (Descriptor (Some v') None None (Some true)))
    (built h parent [] pm pc)
  = Ret tt (built h parent []
              (methods_table h (map (fun k => (k, get h d k)) ks) pm)
              (prototype_table (map (fun k => (k, get h d k)) ks) pc)).
Proof.
  intros Hwf Hd. revert pm pc. induction ks as [|k ks IH];
    intros pm pc Hconf Hks; [done|].
  apply not_elem_of_cons in Hks as [Hk Hks].
  simpl for_each. unfold and_then at 1 2. simpl get_v. unfold getM at 1.
  rewrite built_get_old by done.
  unfold and_then at 1. rewrite putM_data by done.
  rewrite built_put_methods by done.
  unfold and_then at 1. unfold getM at 1.
  rewrite built_get_class_prototype.
  unfold and_then at 1. unfold getM. rewrite built_get_old by done.
  unfold defineProperty. rewrite built_define_method by done.
  simpl. apply IH; [by apply define_method_configurable | done].
Qed.

Lemma apply_methods_runs h parent (d : loc) pm pc :
  wf_heap h → d < length h → all_configurable pc →
  "__proto__" ∉ own_keys h d →
  apply_methods (length h) (length h + 2) (VObj d) (built h parent [] pm pc)
  = Ret tt (built h parent []
              (methods_table h (entries h (VObj d)) pm)
              (prototype_table (entries h (VObj d)) pc)).
Proof.
  intros Hwf Hd Hconf Hks. unfold apply_methods, and_then at 1.
  simpl Object_keys.
  rewrite (own_keys_preserved h) by (done || apply built_preserves).
  by apply apply_keys_runs.
Qed.

Lemma plain_mixin_inv h m :
  plain_mixin h m = true →
  ∃ ml d, m = VObj ml ∧ ml < length h ∧ descriptor_of h m = VObj d
          ∧ "__proto__" ∉ own_keys h d.
Proof.
  unfold plain_mixin. rewrite andb_true_iff. intros [Hok Hd].
  destruct (descriptor_of h m) as [| | | | |d] eqn:Hdesc; try done.
  apply bool_decide_eq_true in Hd.
  destruct m as [| | | | |ml]; try done.
  exists ml, d. simpl in Hok. apply bool_decide_eq_true in Hok. done.
Qed.

Lemma plain_mixin_ok h ms :
  Forall (fun m => plain_mixin h m = true) ms →
  Forall (fun v => value_ok h v = true) ms.
Proof.
  apply Forall_impl. intros m. unfold plain_mixin.
  rewrite andb_true_iff. by intros [? _].
Qed.

Lemma mixins_loop_runs h parent mixins pm pc :
  wf_heap h → Forall (fun m => plain_mixin h m = true) mixins →
  all_configurable pc →
  for_each mixins (fun mixin =>
    let* mm := get_v mixin "__methods__" in
    apply_methods (length h) (length h + 2) (if truthy mm then mm else mixin))
    (built h parent [] pm pc)
  = Ret tt (built h parent [] (methods_table h (merged h mixins) pm)
                              (prototype_table (merged h mixins) pc)).
Proof.
  intros Hwf Hms. revert pm pc. induction Hms as [|m ms Hm Hms IH];
    intros pm pc Hconf; [done|].
  destruct (plain_mixin_inv h m Hm) as (ml & d & -> & Hml & Hd & Hks).
  simpl for_each. unfold merged. simpl map. simpl concat. fold (merged h ms).
  rewrite methods_table_app, prototype_table_app.
  unfold and_then at 1 2. simpl get_v. unfold getM.
  rewrite built_get_old by done.
  change (if truthy (get h ml "__methods__")
          then get h ml "__methods__" else VObj ml)
    with (descriptor_of h (VObj ml)).
  rewrite Hd.
  assert (Hdl : d < length h).
  { eapply descriptor_of_ok; [done| |exact Hd]. simpl.
    by apply bool_decide_eq_true. }
  rewrite apply_methods_runs by done.
  apply IH. by apply prototype_table_configurable.
Qed.

(** [extend] up to its loop over the mixins. *)
Lemma extend_enter h (P : loc) mixins :
  wf_heap h → P < length h →
  prototype_like (get h P "prototype") = true →
  extend (VObj P) mixins h
  = (for_each mixins (fun mixin =>
       let* mm := get_v mixin "__methods__" in
       apply_methods (length h) (length h + 2)
         (if truthy mm then mm else mixin)) ;;
     let* cp1 := getM (length h) "prototype" in
     let* cp2 := getM (length h) "prototype" in
     let* init := get_v cp2 "init" in
     put_v cp1 "constructor" (if truthy init then init else VObj (length h)) ;;
     defineProperty (VObj (length h)) "__methods__"
       (Descriptor (Some (VObj (length h + 2))) None None None) ;;
     ret (VObj (length h)))
      (built h (parent_of (get h P "prototype")) [] [] []).
Proof.
  intros Hwf HP Hpp. unfold extend.
  unfold and_then at 1. simpl this_object. unfold ret at 1.
  unfold and_then at 1, new_function.
  unfold and_then at 1, new_object, alloc at 1.
  unfold and_then at 1, getM at 1.
  rewrite !length_app. simpl length.
  rewrite (get_preserved h) by
    (done || rewrite <- app_assoc; apply preserves_app).
  unfold and_then at 1.
  assert (Hcreate : ∀ g,
    Object_create (get h P "prototype") g
    = Ret (length g) (g ++ [Obj (parent_of (get h P "prototype")) true None
                              []])).
  { intros g. by destruct (get h P "prototype"). }
  rewrite Hcreate. rewrite !length_app. simpl length.
  replace (length h + 2 + 1) with (length h + 3) by lia.
  unfold and_then at 1. rewrite putM_data by done.
  pose proof (extend_start h (parent_of (get h P "prototype"))) as Hs.
  unfold first_prototype in Hs. by rewrite Hs.
Qed.

(** [extend] from its loop on, on the tables the loop has built. *)
Lemma extend_leave h parent pm pc :
  wf_heap h → (∀ p, parent = Some p → p < length h) →
  (let* cp1 := getM (length h) "prototype" in
   let* cp2 := getM (length h) "prototype" in
   let* init := get_v cp2 "init" in
   put_v cp1 "constructor" (if truthy init then init else VObj (length h)) ;;
   defineProperty (VObj (length h)) "__methods__"
     (Descriptor (Some (VObj (length h + 2))) None None None) ;;
   ret (VObj (length h)))
    (built h parent [] pm pc)
  = Ret (VObj (length h))
      (built h parent
         [("__methods__", MkProp (VObj (length h + 2)) false false false)]
         pm
         (assign (match parent with
                  | Some p => get_prop h p "constructor"
                  | None => None
                  end) pc "constructor" (marker h parent pc))).
Proof.
  intros Hwf Hpar.
  unfold and_then at 1 2, getM at 1 2.
  rewrite built_get_class_prototype.
  unfold and_then at 1. simpl get_v. unfold getM.
  assert (Hinit : get (built h parent [] pm pc) (length h + 3) "init"
                  = chain_value h parent pc "init").
  { rewrite get_data by done. unfold chain_value.
    by rewrite built_get_prop_proto. }
  rewrite Hinit. fold (marker h parent pc).
  unfold and_then at 1. simpl put_v. rewrite putM_data by done.
  rewrite built_put_proto by done.
  unfold and_then, defineProperty.
  by rewrite built_define_registry.
Qed.

Lemma parent_of_lt h P p :
  wf_heap h → parent_of (get h P "prototype") = Some p → p < length h.
Proof.
  intros Hwf. destruct (get h P "prototype") eqn:Hg; try done.
  intros [= <-]. by eapply get_value_ok.
Qed.

Lemma extend_runs h (P : loc) mixins :
  wf_heap h → P < length h →
  prototype_like (get h P "prototype") = true →
  Forall (fun m => plain_mixin h m = true) mixins →
  let parent := parent_of (get h P "prototype") in
  let pc := prototype_table (merged h mixins) [] in
  extend (VObj P) mixins h
  = Ret (VObj (length h))
      (built h parent
         [("__methods__", MkProp (VObj (length h + 2)) false false false)]
         (methods_table h (merged h mixins) [])
         (assign (match parent with
                  | Some p => get_prop h p "constructor"
                  | None => None
                  end) pc "constructor" (marker h parent pc))).
Proof.
  intros Hwf HP Hpp Hms parent pc.
  rewrite extend_enter by done. fold parent.
  unfold and_then at 1. rewrite mixins_loop_runs by done.
  apply extend_leave; [done|]. intros p. by apply parent_of_lt.
Qed.

(** X13.  Where the root prototype holds no member named like a field of
    an attribute record: called on an object whose [prototype] is an object
    or [null], with mixins that are objects of the heap (none of them with
    an enumerable member named [__proto__]), [extend] does not fault: it
    returns a new function object, the class, after allocating four
    objects, and it leaves a heap in which every prototype chain still
    ends and every property still refers to an object that exists. *)
Theorem extend_returns (h : heap) (P : loc) (mixins : list value) :
  wf_heap h → root_plain h = true → P < length h →
  prototype_like (get h P "prototype") = true →
  Forall (fun m => plain_mixin h m = true) mixins →
  ∃ h',
    extend (VObj P) mixins h = Ret (VObj (length h)) h'
    ∧ length h' = length h + 4
    ∧ code_of h' (length h) = Some CClass
    ∧ wf_heap h'.
Proof.
  intros Hwf _ HP Hpp Hms. eexists. split; [by apply extend_runs|].
  split; [apply built_length|]. split; [apply built_code_class|].
  eapply extend_wf; [exact Hwf | exact HP | by apply plain_mixin_ok|].
  by apply extend_runs.
Qed.

Lemma extend_returns_witness :
  ∃ h',
    extend (VObj 17) [VObj 28; VObj 34] DocExample.world
    = Ret (VObj (length DocExample.world)) h'
    ∧ wf_heap h'.
Proof.
  destruct (extend_returns DocExample.world 17 [VObj 28; VObj 34])
    as (h' & Hrun & _ & _ & Hwf).
  - vm_compute. reflexivity.
  - vm_compute. reflexivity.
  - vm_compute. lia.
  - vm_compute. reflexivity.
  - repeat constructor.
  - exists h'. exact (conj Hrun Hwf).
Defined.

(** X14.  [extend] is a member of every object, but it needs a receiver
    with a [prototype]: on a receiver whose [prototype] is neither an
    object nor [null] (a plain object, for one) it faults with a
    [TypeError] on line 252, whatever the mixins, and leaves the objects
    that existed as they were. *)
Theorem extend_without_prototype (h : heap) (P : loc) (mixins : list value) :
  wf_heap h → P < length h →
  prototype_like (get h P "prototype") = false →
  ∃ h',
    extend (VObj P) mixins h = Throw TypeError h'
    ∧ preserves h h'.
Proof.
  intros Hwf HP Hpp. unfold extend.
  unfold and_then at 1. simpl this_object. unfold ret at 1.
  unfold and_then at 1, new_function.
  unfold and_then at 1, new_object, alloc at 1.
  unfold and_then at 1, getM at 1.
  rewrite (get_preserved h) by
    (done || rewrite <- app_assoc; apply preserves_app).
  unfold and_then at 1.
  eexists. split.
  - by destruct (get h P "prototype").
  - rewrite <- app_assoc. apply preserves_app.
Qed.

Lemma extend_without_prototype_witness :
  ∃ h',
    extend (VObj 13) [VObj 13] MixinExample.before = Throw TypeError h'
    ∧ preserves MixinExample.before h'.
Proof.
  apply (extend_without_prototype MixinExample.before 13 [VObj 13]).
  - vm_compute. reflexivity.
  - vm_compute. lia.
  - vm_compute. reflexivity.
Defined.

Lemma for_each_app {A} (xs ys : list A) (body : A → M unit) h :
  for_each (xs ++ ys) body h = (for_each xs body ;; for_each ys body) h.
Proof.
  revert h. induction xs as [|x xs IH]; intros h; [done|].
  simpl. unfold and_then.
  destruct (body x h) as [[] h1| | |]; [|done..].
  specialize (IH h1). unfold and_then in IH. exact IH.
Qed.

(** X15.  A mixin that is [undefined] or [null] makes [extend] fault with
    a [TypeError] on line 256, also when the mixins before it are in
    order; the objects that existed are as they were. *)
Theorem extend_missing_mixin (h : heap) (P : loc) (ms rest : list value)
    (v : value) :
  wf_heap h → P < length h →
  prototype_like (get h P "prototype") = true →
  Forall (fun m => plain_mixin h m = true) ms →
  v = VUndef ∨ v = VNull →
  ∃ h',
    extend (VObj P) (ms ++ v :: rest) h = Throw TypeError h'
    ∧ preserves h h'.
Proof.
  intros Hwf HP Hpp Hms Hv.
  rewrite extend_enter by done.
  unfold and_then at 1. rewrite for_each_app.
  unfold and_then at 1. rewrite mixins_loop_runs by done.
  simpl for_each. unfold and_then at 1 2.
  eexists. split.
  - by destruct Hv as [-> | ->].
  - apply built_preserves.
Qed.

Lemma extend_missing_mixin_witness :
  ∃ h',
    extend (VObj 17) ([VObj 28] ++ [VUndef; VObj 34]) DocExample.world
    = Throw TypeError h'
    ∧ preserves DocExample.world h'.
Proof.
  apply (extend_missing_mixin DocExample.world 17 [VObj 28] [VObj 34] VUndef).
  - vm_compute. reflexivity.
  - vm_compute. lia.
  - vm_compute. reflexivity.
  - repeat constructor.
  - by left.
Defined.

(** ** The attributes [extend] gives *)

Lemma prototype_table_method es pc k :
  (∀ k c, assoc k pc = Some c → p_writable c = false ∧ p_enumerable c = false) →
  assoc k (prototype_table es pc)
  = match last_entry k es with
    | Some v => Some (MkProp v false false true)
    | None => assoc k pc
    end.
Proof.
  revert pc. induction es as [|[k1 v1] es IH]; intros pc Hpc; [done|].
  simpl. rewrite IH, last_entry_cons.
  - destruct (last_entry k es); [done|].
    unfold define_method. rewrite assoc_set_lookup.
    destruct (decide (k1 = k)) as [->|Hne].
    + rewrite decide_True by done.
      destruct (assoc k pc) as [c|] eqn:Hc; [|done].
      by destruct (Hpc _ _ Hc) as [-> ->].
    + by rewrite decide_False by congruence.
  - intros k' c. unfold define_method. rewrite assoc_set_lookup.
    destruct (decide (k1 = k')) as [->|Hne]; [|by apply Hpc].
    intros [= <-]. destruct (assoc k' pc) as [c|] eqn:Hc; [|done].
    simpl. by apply Hpc in Hc.
Qed.

Lemma get_prop_through h o ob cp k p :
  2 ≤ length h →
  h !! o = Some ob → o_proto ob = Some cp → assoc k (o_props ob) = None →
  own_prop h cp k = Some p →
  get_prop h o k = Some p.
Proof.
  intros Hlen Ho Hproto Hown Hp. unfold get_prop.
  destruct (length h) as [|[|n]]; [lia..|].
  rewrite (get_prop_fuel_step _ _ _ _ _ Ho), Hown, Hproto.
  unfold own_prop in Hp. destruct (h !! cp) as [c|] eqn:Hc; [|done].
  by rewrite (get_prop_fuel_step _ _ _ _ _ Hc), Hp.
Qed.

(** X16.  Where the root prototype holds no member named like a field of
    an attribute record, every member that [extend] defines on the new
    prototype is read-only, hidden from enumeration and configurable,
    whatever its attributes were on the mixin.  An object that inherits such a member
    therefore cannot override it by assignment: the assignment is
    ignored. *)
Theorem extend_methods_readonly (h : heap) (P : loc) (mixins : list value)
    (C : loc) (h' : heap) :
  wf_heap h → root_plain h = true → P < length h →
  Forall (fun v => value_ok h v = true) mixins →
  extend (VObj P) mixins h = Ret (VObj C) h' →
  ∃ cp,
    own_value h' C "prototype" = Some (VObj cp)
    ∧ ∀ k v,
        last_entry k (merged h mixins) = Some v →
        own_prop h' cp k = Some (MkProp v false false true)
        ∧ ∀ g o w,
            preserves h' g → proto_of g o = Some cp →
            own_prop g o k = None →
            put g o k w = g.
Proof.
  intros Hwf _ HP Hms Hrun.
  destruct (extend_built h P mixins _ h' Hwf HP Hms Hrun) as (HC & Hpar & ->).
  injection HC as ->. set (parent := parent_of _) in *.
  set (pc := prototype_table (merged h mixins) []) in *.
  exists (length h + 3). split; [apply built_own_class_prototype|].
  intros k v Hlast.
  assert (Hk : assoc k pc = Some (MkProp v false false true)).
  { unfold pc. rewrite prototype_table_method by done. by rewrite Hlast. }
  assert (Hown : own_prop (built h parent
             [("__methods__", MkProp (VObj (length h + 2)) false false false)]
             (methods_table h (merged h mixins) [])
             (assign match parent with
                     | Some p => get_prop h p "constructor"
                     | None => None
                     end pc "constructor" (marker h parent pc)))
           (length h + 3) k = Some (MkProp v false false true)).
  { rewrite built_own_proto.
    destruct (decide (k = "constructor")) as [->|Hne].
    - by rewrite (assign_readonly _ _ _ _ _ Hk).
    - by rewrite assign_lookup_ne. }
  split; [done|]. intros g o w Hg Ho Hno.
  apply put_refused. unfold can_put. rewrite Hno.
  pose proof (preserves_length _ _ Hg) as Hlen. rewrite built_length in Hlen.
  unfold proto_of in Ho. destruct (g !! o) as [ob|] eqn:Hob; [|done].
  rewrite (get_prop_through g o ob (length h + 3) k
             (MkProp v false false true)); [by rewrite andb_false_r|lia|done..| |].
  - unfold own_prop in Hno. by rewrite Hob in Hno.
  - rewrite (preserves_own_prop _ _ _ _ Hg); [done|].
    rewrite built_length. lia.
Qed.

Lemma extend_methods_readonly_witness :
  ∃ C h' cp,
    extend (VObj 17) [VObj 28; VObj 34] DocExample.world = Ret (VObj C) h'
    ∧ own_value h' C "prototype" = Some (VObj cp)
    ∧ own_prop h' cp "dance" = Some (MkProp (VObj 23) false false true)
    ∧ put (h' ++ [fresh_instance cp]) (length h') "dance" (VNum 0)
      = h' ++ [fresh_instance cp].
Proof.
  destruct (extend (VObj 17) [VObj 28; VObj 34] DocExample.world)
    as [[| | | | |C] h'| | |] eqn:Hrun; try (by vm_compute in Hrun).
  destruct (extend_methods_readonly DocExample.world 17
              [VObj 28; VObj 34] C h') as (cp & Hcp & Hk).
  - vm_compute. reflexivity.
  - vm_compute. reflexivity.
  - vm_compute. lia.
  - repeat constructor.
  - exact Hrun.
  - destruct (Hk "dance" (VObj 23)) as [Hown Hput];
      [vm_compute; reflexivity|].
    exists C, h', cp. split; [reflexivity|]. split; [exact Hcp|].
    split; [exact Hown|]. apply Hput.
    + apply preserves_app.
    + unfold proto_of. by rewrite lookup_app_r, Nat.sub_diag by lia.
    + unfold own_prop. by rewrite lookup_app_r, Nat.sub_diag by lia.
Defined.

(** ** The registry of a class *)

Lemma methods_table_value h es pm k :
  (∀ k p, assoc k pm = Some p →
          p_writable p = true
          ∧ assignable_under h (Some Object_prototype) k = true) →
  p_value <$> assoc k (methods_table h es pm)
  = match (if assignable_under h (Some Object_prototype) k
           then last_entry k es else None) with
    | Some v => Some v
    | None => p_value <$> assoc k pm
    end.
Proof.
  revert pm. induction es as [|[k1 v1] es IH]; intros pm Hpm.
  - change (methods_table h [] pm) with pm.
    change (last_entry k []) with (@None value).
    by destruct (assignable_under h (Some Object_prototype) k).
  - simpl methods_table. cbn [fst snd]. rewrite IH, last_entry_cons.
    + destruct (assignable_under h (Some Object_prototype) k) eqn:Hk.
      * destruct (last_entry k es); [done|].
        destruct (decide (k = k1)) as [->|Hne];
          [|by rewrite assign_lookup_ne].
        unfold assign. unfold assignable_under in Hk.
        destruct (assoc k1 pm) as [p|] eqn:Hp.
        -- destruct (Hpm _ _ Hp) as [-> _]. by rewrite assoc_set_eq.
        -- rewrite Hk. by rewrite assoc_set_eq.
      * destruct (decide (k = k1)) as [->|Hne];
          [|by rewrite assign_lookup_ne].
        unfold assign. unfold assignable_under in Hk.
        destruct (assoc k1 pm) as [p|] eqn:Hp.
        -- destruct (Hpm _ _ Hp) as [_ Ha]. unfold assignable_under in Ha.
           congruence.
        -- rewrite Hk. by rewrite Hp.
    + intros k' p. unfold assign.
      destruct (assoc k1 pm) as [p1|] eqn:Hp1.
      * destruct (Hpm _ _ Hp1) as [Hw Ha]. rewrite Hw.
        rewrite assoc_set_lookup. destruct (decide (k1 = k')) as [<-|Hne].
        -- by intros [= <-].
        -- apply Hpm.
      * destruct (match get_prop h Object_prototype k1 with
                  | Some p => p_writable p
                  | None => true
                  end) eqn:Ha; [|apply Hpm].
        rewrite assoc_set_lookup. destruct (decide (k1 = k')) as [<-|Hne].
        -- by intros [= <-].
        -- apply Hpm.
Qed.

(** X17.  Where the root prototype holds no member named like a field of
    an attribute record, the registry [__methods__] of a new class is a
    property that is not writable, not enumerable and not configurable, so
    an assignment to it is ignored.  It names a new object that holds, under each name the
    root prototype does not hold read-only, the value of the last entry of
    the merged mixins under that name, and nothing under the other
    names. *)
Theorem extend_registry (h : heap) (P : loc) (mixins : list value)
    (C : loc) (h' : heap) :
  wf_heap h → root_plain h = true → P < length h →
  Forall (fun v => value_ok h v = true) mixins →
  extend (VObj P) mixins h = Ret (VObj C) h' →
  ∃ m,
    own_prop h' C "__methods__" = Some (MkProp (VObj m) false false false)
    ∧ length h ≤ m
    ∧ proto_of h' m = Some Object_prototype
    ∧ (∀ w, put h' C "__methods__" w = h')
    ∧ ∀ k, own_value h' m k
           = if assignable_under h (Some Object_prototype) k
             then last_entry k (merged h mixins) else None.
Proof.
  intros Hwf _ HP Hms Hrun.
  destruct (extend_built h P mixins _ h' Hwf HP Hms Hrun) as (HC & Hpar & ->).
  injection HC as ->. set (parent := parent_of _) in *.
  set (pc := prototype_table (merged h mixins) []) in *.
  set (g := built _ _ _ _ _).
  assert (Hreg : own_prop g (length h) "__methods__"
                 = Some (MkProp (VObj (length h + 2)) false false false)).
  { unfold g, own_prop.
    pose proof (built_lookup h parent
      [("__methods__", MkProp (VObj (length h + 2)) false false false)]
      (methods_table h (merged h mixins) [])
      (assign match parent with
              | Some p => get_prop h p "constructor"
              | None => None
              end pc "constructor" (marker h parent pc)) 0) as Hl.
    rewrite Nat.add_0_r in Hl. by rewrite Hl. }
  exists (length h + 2). split; [done|]. split; [lia|]. split.
  { unfold g, proto_of. by rewrite built_lookup. }
  split.
  { intros w. apply put_refused. unfold can_put. by rewrite Hreg. }
  intros k. unfold own_value, g. rewrite built_own_methods.
  rewrite methods_table_value by done.
  by destruct (if assignable_under h (Some Object_prototype) k
               then last_entry k (merged h mixins) else None).
Qed.

Lemma extend_registry_witness :
  ∃ C h' m,
    extend (VObj Object_ctor) [VObj 16] HiddenExample.before = Ret (VObj C) h'
    ∧ own_prop h' C "__methods__" = Some (MkProp (VObj m) false false false)
    ∧ own_value h' m "visible" = Some (VObj 12).
Proof.
  destruct (extend (VObj Object_ctor) [VObj 16] HiddenExample.before)
    as [[| | | | |C] h'| | |] eqn:Hrun; try (by vm_compute in Hrun).
  destruct (extend_registry HiddenExample.before Object_ctor [VObj 16] C h')
    as (m & Hm & _ & _ & _ & Hk).
  - vm_compute. reflexivity.
  - vm_compute. reflexivity.
  - vm_compute. lia.
  - repeat constructor.
  - exact Hrun.
  - exists C, h', m. split; [reflexivity|]. split; [exact Hm|].
    rewrite (Hk "visible"). vm_compute. reflexivity.
Defined.

(** ** A class used as a mixin *)

Lemma assoc_set_Forall {A} (Q : string * A → Prop) k (a : A) ps :
  Q (k, a) → Forall Q ps → Forall Q (assoc_set k a ps).
Proof.
  intros Ha. induction ps as [|[k' a'] ps IH]; intros Hps; simpl.
  - by constructor.
  - inversion Hps as [|? ? Hp' Hps']; subst.
    destruct (decide (k = k')); constructor; try done. by apply IH.
Qed.

Lemma assoc_Forall {A} (Q : string * A → Prop) k (a : A) ps :
  Forall Q ps → assoc k ps = Some a → Q (k, a).
Proof.
  induction ps as [|[k' a'] ps IH]; [done|]. simpl.
  intros Hall. inversion Hall as [|? ? Hp Hps]; subst.
  destruct (decide (k = k')) as [->|Hne].
  - by intros [= <-].
  - by apply IH.
Qed.

Lemma assign_enumerable inh ps k v :
  Forall (fun kp : string * prop => p_enumerable kp.2 = true) ps →
  Forall (fun kp : string * prop => p_enumerable kp.2 = true)
         (assign inh ps k v).
Proof.
  intros Hps. unfold assign. destruct (assoc k ps) as [p|] eqn:Hp.
  - destruct (p_writable p); [|done]. apply assoc_set_Forall; [|done].
    simpl. by apply (assoc_Forall _ _ _ _ Hps Hp).
  - destruct (match inh with Some p => p_writable p | None => true end);
      [|done].
    by apply assoc_set_Forall.
Qed.

Lemma methods_table_enumerable h es pm :
  Forall (fun kp : string * prop => p_enumerable kp.2 = true) pm →
  Forall (fun kp : string * prop => p_enumerable kp.2 = true)
         (methods_table h es pm).
Proof.
  revert pm. induction es as [|[k v] es IH]; intros pm Hpm; [done|].
  simpl. apply IH. by apply assign_enumerable.
Qed.

Lemma enumerable_keys_all ps :
  Forall (fun kp : string * prop => p_enumerable kp.2 = true) ps →
  enumerable_keys ps = ps.*1.
Proof.
  unfold enumerable_keys. induction 1 as [|[k p] ps Hp Hps IH]; [done|].
  rewrite filter_cons_True by done. rewrite !fmap_cons. by rewrite IH.
Qed.

Lemma last_entry_map k (f : string → value) ks :
  last_entry k (map (fun k' => (k', f k')) ks)
  = if bool_decide (k ∈ ks) then Some (f k) else None.
Proof.
  induction ks as [|k1 ks IH].
  - by rewrite bool_decide_eq_false_2 by apply not_elem_of_nil.
  - simpl map. rewrite last_entry_cons, IH.
    destruct (decide (k ∈ ks)) as [Hin|Hin].
    + rewrite !bool_decide_eq_true_2; [done| by right | done].
    + rewrite (bool_decide_eq_false_2 _ Hin).
      destruct (decide (k = k1)) as [->|Hne].
      * by rewrite bool_decide_eq_true_2 by (by left).
      * rewrite bool_decide_eq_false_2; [done|].
        by intros [?|?]%elem_of_cons.
Qed.

Lemma built_own_registry h parent p pm pc :
  own_prop (built h parent [("__methods__", p)] pm pc) (length h)
    "__methods__" = Some p.
Proof.
  unfold own_prop.
  pose proof (built_lookup h parent [("__methods__", p)] pm pc 0) as Hl.
  rewrite Nat.add_0_r in Hl. by rewrite Hl.
Qed.

(** What a class made by [extend] contributes when it is itself a mixin:
    the entries of its registry. *)
Lemma merged_class h parent pm pc k :
  wf_heap h →
  Forall (fun kp : string * prop => p_enumerable kp.2 = true) pm →
  last_entry k
    (merged (built h parent
               [("__methods__", MkProp (VObj (length h + 2)) false false false)]
               pm pc)
            [VObj (length h)])
  = p_value <$> assoc k pm.
Proof.
  intros Hwf Hpm. set (g := built _ _ _ _ _).
  assert (Hd : descriptor_of g (VObj (length h)) = VObj (length h + 2)).
  { unfold descriptor_of, g.
    by rewrite (get_own _ _ _ _ (built_own_registry h parent _ pm pc)). }
  unfold merged. cbn [map concat]. rewrite app_nil_r, Hd.
  unfold entries, own_keys. unfold g at 2. rewrite built_lookup.
  cbn [lookup list_lookup o_props]. rewrite enumerable_keys_all by done.
  rewrite last_entry_map.
  destruct (assoc k pm) as [p|] eqn:Hp.
  - rewrite bool_decide_eq_true_2 by (apply assoc_is_Some; eauto).
    simpl. f_equal. apply get_own. unfold g. by rewrite built_own_methods.
  - rewrite bool_decide_eq_false_2; [done|].
    intros [? ?]%assoc_is_Some. congruence.
Qed.

(** X18.  A class used as a mixin hands on its registry.  With
    [A = P.extend(mixins...)] and then [B = Q.extend(A)], the prototype of
    [B] gets, under each name the root prototype does not hold read-only,
    the member that the last entry of [mixins] under that name carries,
    and (apart from [constructor]) nothing else: nothing [A] inherits from
    [P], and none of the members named like a read-only member of the root
    prototype. *)
Theorem extend_class_as_mixin (h : heap) (P Q : loc) (mixins : list value)
    (A : loc) (h1 : heap) (B : loc) (h2 : heap) :
  wf_heap h → P < length h →
  Forall (fun v => value_ok h v = true) mixins →
  extend (VObj P) mixins h = Ret (VObj A) h1 →
  Q < length h1 →
  extend (VObj Q) [VObj A] h1 = Ret (VObj B) h2 →
  ∃ cp,
    own_value h2 B "prototype" = Some (VObj cp)
    ∧ ∀ k, k ≠ "constructor" →
           own_value h2 cp k
           = if assignable_under h (Some Object_prototype) k
             then last_entry k (merged h mixins) else None.
Proof.
  intros Hwf HP Hms Hrun1 HQ Hrun2.
  pose proof (extend_wf h P mixins _ h1 Hwf HP Hms Hrun1) as Hwf1.
  destruct (extend_built h P mixins _ h1 Hwf HP Hms Hrun1)
    as (HA & Hpar & Hh1).
  injection HA as ->.
  assert (HA1 : Forall (fun v => value_ok h1 v = true) [VObj (length h)]).
  { repeat constructor. simpl. apply bool_decide_eq_true.
    rewrite Hh1, built_length. lia. }
  destruct (extend_built h1 Q [VObj (length h)] _ h2 Hwf1 HQ HA1 Hrun2)
    as (HB & Hpar2 & ->).
  injection HB as ->.
  exists (length h1 + 3). split; [apply built_own_class_prototype|].
  intros k Hk. unfold own_value. rewrite built_own_proto.
  rewrite assign_lookup_ne by done.
  rewrite prototype_table_value. simpl.
  rewrite Hh1 at 1. cbv zeta.
  rewrite merged_class;
    [|done|by apply methods_table_enumerable].
  rewrite methods_table_value by done.
  change (match get_prop h Object_prototype k with
          | Some q => p_writable q
          | None => true
          end) with (assignable_under h (Some Object_prototype) k).
  by destruct (if assignable_under h (Some Object_prototype) k
               then last_entry k (merged h mixins) else None).
Qed.

Lemma extend_class_as_mixin_witness :
  ∃ A h1 B h2 cp,
    extend (VObj 17) [VObj 34] DocExample.world = Ret (VObj A) h1
    ∧ extend (VObj Object_ctor) [VObj A] h1 = Ret (VObj B) h2
    ∧ own_value h2 B "prototype" = Some (VObj cp)
    ∧ own_value h2 cp "init" = Some (VObj 32)
    ∧ own_value h2 cp "dance" = None.
Proof.
  assert (Hwf : wf_heap DocExample.world) by (vm_compute; reflexivity).
  assert (HP : 17 < length DocExample.world) by (vm_compute; lia).
  pose proof (extend_runs DocExample.world 17 [VObj 34] Hwf HP
                ltac:(vm_compute; reflexivity)
                ltac:(repeat constructor)) as Hrun1.
  cbv zeta in Hrun1.
  set (h1 := built DocExample.world _ _ _ _) in Hrun1.
  destruct (extend (VObj Object_ctor) [VObj (length DocExample.world)] h1)
    as [[| | | | |B] h2| | |] eqn:Hrun2.
  1-5: (vm_compute in Hrun2; discriminate Hrun2).
  2-4: (vm_compute in Hrun2; discriminate Hrun2).
  destruct (extend_class_as_mixin DocExample.world 17 Object_ctor [VObj 34]
              (length DocExample.world) h1 B h2) as (cp & Hcp & Hk).
  - exact Hwf.
  - exact HP.
  - repeat constructor.
  - exact Hrun1.
  - vm_compute. lia.
  - exact Hrun2.
  - exists (length DocExample.world), h1, B, h2, cp.
    split; [exact Hrun1|]. split; [exact Hrun2|]. split; [exact Hcp|].
    split.
    + rewrite (Hk "init"); [|intros Heq; discriminate Heq].
      vm_compute. reflexivity.
    + rewrite (Hk "dance"); [|intros Heq; discriminate Heq].
      vm_compute. reflexivity.
Defined.

(** ** Instances and [instanceof] *)

(** X19.  An object whose prototype is the prototype of a class made by
    [P.extend(...)], as every object made with [new] from that class is,
    is an instance of the class and of [P], for as long as the objects of
    the class and the [prototype] of [P] stay as they are. *)
Theorem extend_instanceof (h : heap) (P pp : loc) (mixins : list value)
    (C : loc) (h' : heap) :
  wf_heap h → P < length h →
  Forall (fun v => value_ok h v = true) mixins →
  is_callable h (VObj P) = true →
  get h P "prototype" = VObj pp →
  extend (VObj P) mixins h = Ret (VObj C) h' →
  ∃ cp,
    own_value h' C "prototype" = Some (VObj cp)
    ∧ ∀ g o,
        preserves h' g → proto_of g o = Some cp →
        instanceof (VObj o) C g = Ret true g
        ∧ instanceof (VObj o) P g = Ret true g.
Proof.
  intros Hwf HP Hms Hcall Hpp Hrun.
  destruct (extend_built h P mixins _ h' Hwf HP Hms Hrun) as (HC & Hpar & ->).
  injection HC as ->. rewrite Hpp in *. cbn [parent_of] in *.
  set (h' := built _ _ _ _ _).
  exists (length h + 3). split; [apply built_own_class_prototype|].
  intros g o Hg Ho.
  pose proof (preserves_length _ _ Hg) as Hlen.
  unfold h' in Hlen. rewrite built_length in Hlen.
  assert (Hhg : preserves h g).
  { eapply preserves_trans; [apply built_preserves | exact Hg]. }
  assert (Hlg : ∃ n, length g = S (S n)) by (exists (length g - 2); lia).
  destruct Hlg as [n Hn].
  split.
  - unfold instanceof.
    rewrite (preserves_code h' g) by (done || unfold h'; rewrite built_length; lia).
    unfold h' at 1. rewrite built_code_class.
    assert (Hgc : get g (length h) "prototype" = VObj (length h + 3)).
    { apply own_value_Some_get. unfold own_value.
      rewrite (preserves_own_prop h' g)
        by (done || unfold h'; rewrite built_length; lia).
      apply built_own_class_prototype. }
    rewrite Hgc, Hn. simpl. rewrite Ho.
    by rewrite bool_decide_eq_true_2.
  - unfold instanceof. rewrite (preserves_code h g) by done.
    simpl in Hcall. destruct (code_of h P); [|done].
    rewrite (get_preserved h g) by done. rewrite Hpp, Hn. simpl.
    rewrite Ho.
    assert (Hcp : proto_of g (length h + 3) = Some pp).
    { unfold proto_of. rewrite Hg by (unfold h'; rewrite built_length; lia).
      unfold h'. by rewrite built_lookup. }
    rewrite Hcp. rewrite (bool_decide_eq_true_2 (pp = pp)) by done.
    by rewrite orb_true_r.
Qed.

Lemma extend_instanceof_witness :
  ∃ C h' cp,
    extend (VObj 17) [VObj 28; VObj 34] DocExample.world = Ret (VObj C) h'
    ∧ own_value h' C "prototype" = Some (VObj cp)
    ∧ instanceof (VObj (length h')) 17 (h' ++ [fresh_instance cp])
      = Ret true (h' ++ [fresh_instance cp]).
Proof.
  destruct (extend (VObj 17) [VObj 28; VObj 34] DocExample.world)
    as [[| | | | |C] h'| | |] eqn:Hrun; try (by vm_compute in Hrun).
  destruct (extend_instanceof DocExample.world 17 20 [VObj 28; VObj 34] C h')
    as (cp & Hcp & Hi).
  - vm_compute. reflexivity.
  - vm_compute. lia.
  - repeat constructor.
  - vm_compute. reflexivity.
  - vm_compute. reflexivity.
  - exact Hrun.
  - exists C, h', cp. split; [reflexivity|]. split; [exact Hcp|].
    apply (Hi (h' ++ [fresh_instance cp]) (length h')).
    + apply preserves_app.
    + unfold proto_of. by rewrite lookup_app_r, Nat.sub_diag by lia.
Defined.

(** ** Loading the file *)

Lemma own_prop_define_fresh h l k d h' :
  own_prop h l k = None →
  define_own_property h l k d = Some h' →
  own_prop h' l k = Some (define_fresh d).
Proof.
  unfold own_prop, define_own_property.
  destruct (h !! l) as [o|] eqn:Hl; [|done]. intros ->.
  destruct (o_extensible o); [|done]. intros [= <-].
  fold (own_prop (set_own h l k (define_fresh d)) l k).
  apply own_prop_set_own_eq. eauto.
Qed.

Lemma load_defines h0 h1 :
  Object_prototype < length h0 →
  load h0 = Ret tt h1 →
  length h1 = length h0 + 8
  ∧ (own_prop h0 Object_prototype "mixin" = None →
     own_prop h1 Object_prototype "mixin"
     = Some (MkProp (VObj (length h0)) false false false))
  ∧ (own_prop h0 Object_prototype "extend" = None →
     own_prop h1 Object_prototype "extend"
     = Some (MkProp (VObj (length h0 + 6)) false false false)).
Proof.
  unfold load. intros H0 Hrun.
  unfold and_then at 1, new_function in Hrun.
  set (ha := h0 ++ [_; _]) in Hrun.
  unfold and_then at 1, defineProperty at 1 in Hrun.
  destruct (define_own_property ha _ _ _) as [hb|] eqn:Hd1; [|done].
  unfold and_then at 1, new_function in Hrun.
  set (hc := hb ++ [_; _]) in Hrun.
  unfold and_then at 1, defineProperty at 1 in Hrun.
  destruct (define_own_property hc _ _ _) as [hd|] eqn:Hd2; [|done].
  unfold and_then at 1, new_function in Hrun.
  set (he := hd ++ [_; _]) in Hrun.
  unfold and_then at 1 in Hrun. rewrite putM_data in Hrun by done.
  set (hf := put he Function_prototype "bind" _) in Hrun.
  unfold and_then at 1, new_function in Hrun.
  set (hg := hf ++ [_; _]) in Hrun.
  unfold defineProperty in Hrun.
  destruct (define_own_property hg _ _ _) as [hh|] eqn:Hd3; [|done].
  injection Hrun as <-.
  assert (Hla : length ha = length h0 + 2).
  { unfold ha. rewrite length_app. simpl. lia. }
  pose proof (define_length _ _ _ _ _ Hd1) as Hlb.
  assert (Hlc : length hc = length h0 + 4).
  { unfold hc. rewrite length_app. simpl. lia. }
  pose proof (define_length _ _ _ _ _ Hd2) as Hld.
  assert (Hle : length he = length h0 + 6).
  { unfold he. rewrite length_app. simpl. lia. }
  assert (Hlf : length hf = length h0 + 6).
  { unfold hf. by rewrite put_length. }
  assert (Hlg : length hg = length h0 + 8).
  { unfold hg. rewrite length_app. simpl. lia. }
  pose proof (define_length _ _ _ _ _ Hd3) as Hlh.
  assert (Hfrom_b : ∀ k, k ≠ "extend" →
            own_prop hh Object_prototype k = own_prop hb Object_prototype k).
  { intros k Hk.
    rewrite (own_prop_define_ne _ _ _ _ _ _ k Hd3) by (right; congruence).
    unfold hg. rewrite own_prop_app_l by lia.
    unfold hf. rewrite own_prop_put_ne by (left; done).
    unfold he. rewrite own_prop_app_l by lia.
    rewrite (own_prop_define_ne _ _ _ _ _ _ k Hd2) by (left; done).
    unfold hc. rewrite own_prop_app_l by lia. done. }
  split; [lia|]. split.
  - intros Hm. rewrite Hfrom_b by done.
    apply (own_prop_define_fresh ha _ _ _ _) in Hd1; [done|].
    unfold ha. by rewrite own_prop_app_l.
  - intros Hx.
    assert (Hxg : own_prop hg Object_prototype "extend" = None).
    { unfold hg. rewrite own_prop_app_l by lia.
      unfold hf. rewrite own_prop_put_ne by (left; done).
      unfold he. rewrite own_prop_app_l by lia.
      rewrite (own_prop_define_ne _ _ _ _ _ _ "extend" Hd2) by (left; done).
      unfold hc. rewrite own_prop_app_l by lia.
      rewrite (own_prop_define_ne _ _ _ _ _ _ "extend" Hd1) by (right; done).
      unfold ha. by rewrite own_prop_app_l. }
    apply (own_prop_define_fresh hg _ _ _ _ Hxg) in Hd3.
    rewrite Hd3. unfold define_fresh. simpl. by rewrite Hlf.
Qed.

(** X20.  The file cannot be loaded twice.  On a host whose root prototype
    has no [mixin] and no member named like a field of an attribute record,
    the first load defines a [mixin] that is neither writable nor
    configurable, and the second load, which tries to define it again with
    a new function, faults with a [TypeError] on line 48. *)
Theorem load_twice (h0 h1 : heap) :
  wf_heap h0 →
  root_plain h0 = true →
  own_prop h0 Object_prototype "mixin" = None →
  load h0 = Ret tt h1 →
  ∃ h2, load h1 = Throw TypeError h2.
Proof.
  intros Hwf _ Hm Hrun. pose proof (wf_heap_inv h0 Hwf) as (H4 & _).
  destruct (load_defines h0 h1) as (Hlen & Hmixin & _);
    [unfold Object_prototype; lia | done |].
  specialize (Hmixin Hm).
  unfold load, and_then at 1, new_function.
  set (ha := h1 ++ [_; _]).
  assert (Ha : own_prop ha Object_prototype "mixin"
               = Some (MkProp (VObj (length h0)) false false false)).
  { unfold ha. rewrite own_prop_app_l by (unfold Object_prototype; lia).
    done. }
  unfold and_then at 1, defineProperty at 1, define_own_property.
  unfold own_prop in Ha. destruct (ha !! Object_prototype) as [o|]; [|done].
  rewrite Ha. unfold define_allowed. cbn [p_configurable p_writable p_value
    p_enumerable d_configurable d_enumerable d_writable d_value].
  rewrite (bool_decide_eq_false_2 (VObj (length h1) = VObj (length h0)))
    by (intros [= Heq]; lia).
  by eexists.
Qed.

Lemma load_twice_witness : ∃ h2, load loaded = Throw TypeError h2.
Proof.
  apply (load_twice host loaded).
  - vm_compute. reflexivity.
  - vm_compute. reflexivity.
  - vm_compute. reflexivity.
  - vm_compute. reflexivity.
Defined.

(** X21.  Loading the file reserves two names on every object.  Where the
    root prototype holds no member named like a field of an attribute
    record, [mixin] and [extend] become members of the root prototype that
    are not writable, not enumerable and not configurable, so an object that
    inherits from the root prototype and has no member of its own under
    one of these names cannot be given one by assignment: the assignment
    is ignored. *)
Theorem load_reserves_names (h0 h1 : heap) :
  wf_heap h0 →
  root_plain h0 = true →
  own_prop h0 Object_prototype "mixin" = None →
  own_prop h0 Object_prototype "extend" = None →
  load h0 = Ret tt h1 →
  ∀ k, k = "mixin" ∨ k = "extend" →
    ∃ f,
      own_prop h1 Object_prototype k = Some (MkProp (VObj f) false false false)
      ∧ length h0 ≤ f
      ∧ ∀ g l w,
          own_prop g Object_prototype k = own_prop h1 Object_prototype k →
          proto_of g l = Some Object_prototype →
          own_prop g l k = None →
          put g l k w = g.
Proof.
  intros Hwf _ Hm Hx Hrun k Hk. pose proof (wf_heap_inv h0 Hwf) as (H4 & _).
  destruct (load_defines h0 h1) as (Hlen & Hmixin & Hextend);
    [unfold Object_prototype; lia | done |].
  specialize (Hmixin Hm). specialize (Hextend Hx).
  assert (Hroot : ∃ f, own_prop h1 Object_prototype k
                       = Some (MkProp (VObj f) false false false)
                       ∧ length h0 ≤ f).
  { destruct Hk as [-> | ->]; eexists; (split; [eassumption | lia]). }
  destruct Hroot as (f & Hf & Hle). exists f. split; [done|]. split; [done|].
  intros g l w Hg Hl Hown. apply put_refused. unfold can_put.
  rewrite Hown. rewrite Hf in Hg.
  unfold proto_of in Hl. destruct (g !! l) as [ob|] eqn:Hob; [|done].
  assert (Hlen2 : 2 ≤ length g).
  { assert (l ≠ Object_prototype).
    { intros ->. unfold own_prop in Hown, Hg. rewrite Hob in Hown, Hg.
      congruence. }
    apply lookup_lt_Some in Hob. unfold Object_prototype in *. lia. }
  rewrite (get_prop_through g l ob Object_prototype k
             (MkProp (VObj f) false false false) Hlen2 Hob Hl);
    [by rewrite andb_false_r| |exact Hg].
  unfold own_prop in Hown. by rewrite Hob in Hown.
Qed.

Lemma load_reserves_names_witness :
  ∃ f,
    own_prop loaded Object_prototype "extend"
    = Some (MkProp (VObj f) false false false)
    ∧ put MixinExample.before 13 "extend" (VNum 1) = MixinExample.before.
Proof.
  destruct (load_reserves_names host loaded) with (k := "extend")
    as (f & Hf & _ & Hput).
  - vm_compute. reflexivity.
  - vm_compute. reflexivity.
  - vm_compute. reflexivity.
  - vm_compute. reflexivity.
  - vm_compute. reflexivity.
  - by right.
  - exists f. split; [exact Hf|]. apply Hput.
    + vm_compute. reflexivity.
    + vm_compute. reflexivity.
    + vm_compute. reflexivity.
Defined.

(** ** What enumeration sees *)

Lemma define_method_hidden pc k v :
  Forall (fun kp : string * prop => p_enumerable kp.2 = false) pc →
  Forall (fun kp : string * prop => p_enumerable kp.2 = false)
         (define_method pc k v).
Proof.
  intros Hpc. unfold define_method. apply assoc_set_Forall; [|done].
  destruct (assoc k pc) as [c|] eqn:Hc; [|done].
  simpl. by apply (assoc_Forall _ _ _ _ Hpc Hc).
Qed.

Lemma prototype_table_hidden es pc :
  Forall (fun kp : string * prop => p_enumerable kp.2 = false) pc →
  Forall (fun kp : string * prop => p_enumerable kp.2 = false)
         (prototype_table es pc).
Proof.
  revert pc. induction es as [|[k v] es IH]; intros pc Hpc; [done|].
  simpl. apply IH. by apply define_method_hidden.
Qed.

Lemma enumerable_keys_none ps :
  Forall (fun kp : string * prop => p_enumerable kp.2 = false) ps →
  enumerable_keys ps = [].
Proof.
  unfold enumerable_keys. induction 1 as [|[k p] ps Hp Hps IH]; [done|].
  rewrite filter_cons_False; [done|]. simpl in *. by rewrite Hp.
Qed.

Lemma enumerable_keys_new k p ps :
  assoc k ps = None →
  Forall (fun kp : string * prop => p_enumerable kp.2 = false) ps →
  p_enumerable p = true →
  enumerable_keys (assoc_set k p ps) = [k].
Proof.
  intros Hk Hps Hp. unfold enumerable_keys.
  induction Hps as [|[k' p'] ps Hp' Hps IH]; simpl in *.
  - by rewrite filter_cons_True, filter_nil.
  - destruct (decide (k = k')); [done|].
    rewrite filter_cons_False by (simpl; by rewrite Hp'). by apply IH.
Qed.

(** X22.  Where the root prototype holds no member named like a field of
    an attribute record, the members [extend] defines are hidden from
    enumeration, but the [constructor] that line 260 assigns is not: the
    own enumerable keys
    of a new class prototype are [constructor] alone when that assignment
    takes effect (no member named [constructor] among the mixins, no
    read-only [constructor] inherited), and none at all otherwise. *)
Theorem extend_prototype_keys (h : heap) (P : loc) (mixins : list value)
    (C : loc) (h' : heap) :
  wf_heap h → root_plain h = true → P < length h →
  Forall (fun v => value_ok h v = true) mixins →
  extend (VObj P) mixins h = Ret (VObj C) h' →
  ∃ cp,
    own_value h' C "prototype" = Some (VObj cp)
    ∧ Object_keys (VObj cp) h'
      = Ret (match last_entry "constructor" (merged h mixins) with
             | None =>
                 if assignable_under h (parent_of (get h P "prototype"))
                      "constructor"
                 then ["constructor"] else []
             | Some _ => []
             end) h'.
Proof.
  intros Hwf _ HP Hms Hrun.
  destruct (extend_built h P mixins _ h' Hwf HP Hms Hrun) as (HC & Hpar & ->).
  injection HC as ->. set (parent := parent_of _) in *.
  set (pc := prototype_table (merged h mixins) []) in *.
  exists (length h + 3). split; [apply built_own_class_prototype|].
  simpl Object_keys. f_equal. unfold own_keys. rewrite built_lookup.
  cbn [lookup list_lookup o_props].
  assert (Hhid : Forall (fun kp : string * prop => p_enumerable kp.2 = false)
                        pc).
  { by apply prototype_table_hidden. }
  assert (Hc : assoc "constructor" pc
               = match last_entry "constructor" (merged h mixins) with
                 | Some v => Some (MkProp v false false true)
                 | None => None
                 end).
  { unfold pc. by rewrite prototype_table_method. }
  unfold assign. rewrite Hc.
  destruct (last_entry "constructor" (merged h mixins)) as [v|] eqn:Hlast.
  - by apply enumerable_keys_none.
  - unfold assignable_under.
    destruct parent as [p|].
    + destruct (get_prop h p "constructor") as [q|].
      * destruct (p_writable q);
          [by apply enumerable_keys_new | by apply enumerable_keys_none].
      * by apply enumerable_keys_new.
    + by apply enumerable_keys_new.
Qed.

Lemma extend_prototype_keys_witness :
  ∃ C h' cp,
    extend (VObj 17) [VObj 28; VObj 34] DocExample.world = Ret (VObj C) h'
    ∧ own_value h' C "prototype" = Some (VObj cp)
    ∧ Object_keys (VObj cp) h' = Ret ["constructor"] h'.
Proof.
  destruct (extend (VObj 17) [VObj 28; VObj 34] DocExample.world)
    as [[| | | | |C] h'| | |] eqn:Hrun; try (by vm_compute in Hrun).
  destruct (extend_prototype_keys DocExample.world 17
              [VObj 28; VObj 34] C h') as (cp & Hcp & Hk).
  - vm_compute. reflexivity.
  - vm_compute. reflexivity.
  - vm_compute. lia.
  - repeat constructor.
  - exact Hrun.
  - exists C, h', cp. split; [reflexivity|]. split; [exact Hcp|].
    rewrite Hk. f_equal.
Defined.

(** X23.  The [_super] closure that a construction installs is an
    enumerable member of the instance: before [init] runs it is the one
    own enumerable key of the new object, and it is a new function for
    every instance. *)
Theorem instance_enumerable_super (g : heap) (C cp : loc) :
  wf_heap g →
  code_of g C = Some CClass →
  own_value g C "prototype" = Some (VObj cp) →
  assignable_under g (Some cp) "_super" = true →
  (let* o := new_instance C in install_super o ;; ret o) g
  = Ret (length g) (instantiated g cp)
  ∧ Object_keys (VObj (length g)) (instantiated g cp)
    = Ret ["_super"] (instantiated g cp)
  ∧ own_prop (instantiated g cp) (length g) "_super"
    = Some (MkProp (VObj (S (length g))) true true true)
  ∧ code_of (instantiated g cp) (S (length g)) = Some CSuper
  ∧ code_of g (S (length g)) = None.
Proof.
  intros Hwf HC Hp Ha.
  assert (Hcp : cp < length g) by (by eapply wf_own_value_lt).
  pose proof (wf_chain_ok _ _ Hwf Hcp) as Hchain.
  split; [by apply instantiate_run|].
  unfold assignable_under in Ha.
  assert (Htab : assign (get_prop g cp "_super") [] "_super"
                   (VObj (S (length g)))
                 = [("_super", MkProp (VObj (S (length g))) true true true)]).
  { unfold assign. simpl assoc. by rewrite Ha. }
  split; [|split; [|split]].
  - simpl Object_keys. f_equal. unfold own_keys.
    rewrite instantiated_lookup by done. cbn [o_props]. by rewrite Htab.
  - unfold own_prop. rewrite instantiated_lookup by done. cbn [o_props].
    by rewrite Htab.
  - apply instantiated_code.
  - unfold code_of. rewrite lookup_ge_None_2; [done | lia].
Qed.

Lemma instance_enumerable_super_witness :
  Object_keys (VObj (length DocExample.world))
    (instantiated DocExample.world 31)
  = Ret ["_super"] (instantiated DocExample.world 31).
Proof.
  destruct (instance_enumerable_super DocExample.world 28 31)
    as (_ & Hk & _).
  - vm_compute. reflexivity.
  - vm_compute. reflexivity.
  - vm_compute. reflexivity.
  - vm_compute. reflexivity.
  - exact Hk.
Defined.

Lemma inherits_preserved h g l t :
  wf_heap h → l < length h → preserves h g → inherits g l t = inherits h l t.
Proof.
  intros (_ & Hc & _)%wf_heap_inv Hl Hp. unfold inherits. f_equal.
  apply on_chain_preserved; [by apply Hc | by apply preserves_length | done].
Qed.

Lemma is_callable_preserved h g v :
  value_ok h v = true → preserves h g → is_callable g v = is_callable h v.
Proof.
  destruct v as [| | | | |l]; try done. simpl.
  intros Hl%bool_decide_eq_true Hp. by rewrite (preserves_code h g).
Qed.

Lemma get_prop_value_ok h l k p :
  wf_heap h → get_prop h l k = Some p → value_ok h (p_value p) = true.
Proof.
  intros (_ & _ & Hv)%wf_heap_inv Hg.
  apply get_prop_in_chain in Hg as [l0 Hown].
  destruct (p_value p) eqn:E; try done.
  simpl. apply bool_decide_eq_true. eauto.
Qed.

Lemma cannot_apply_preserved h g f :
  wf_heap h → value_ok h f = true → preserves h g →
  cannot_apply g f = cannot_apply h f.
Proof.
  intros Hwf Hf Hp.
  pose proof (wf_heap_inv h Hwf) as (H4 & _).
  assert (Hroot : get_prop g Object_prototype "apply"
                  = get_prop h Object_prototype "apply").
  { apply get_prop_preserved; [done | unfold Object_prototype; lia | done]. }
  unfold cannot_apply.
  destruct f as [| | | | |l]; try done.
  1-3: rewrite Hroot;
    destruct (get_prop h Object_prototype "apply") as [p|] eqn:Hg; [|done];
    by rewrite (is_callable_preserved h g)
      by (done || by eapply get_prop_value_ok).
  simpl in Hf. apply bool_decide_eq_true in Hf.
  rewrite (get_prop_preserved h g) by done.
  destruct (get_prop h l "apply") as [p|] eqn:Hg.
  - by rewrite (is_callable_preserved h g)
      by (done || by eapply get_prop_value_ok).
  - rewrite (inherits_preserved h g) by done.
    by rewrite (is_callable_preserved h g (VObj l))
      by (done || simpl; by apply bool_decide_eq_true).
Qed.

Lemma host_apply_preserved h g l :
  wf_heap h → l < length h → preserves h g →
  host_apply g l = host_apply h l.
Proof.
  intros Hwf Hl Hp. unfold host_apply.
  rewrite (get_prop_preserved h g) by done.
  by rewrite (inherits_preserved h g).
Qed.

(** ** The initializer of a class *)

(** C5, amended.  Let [init] be what the name [init] resolves to on the
    new class's prototype: the last [init] member among the mixins'
    entries, or, when they have none, what the parent's prototype chain
    gives.  When [init] is truthy, construction hands the new instance and
    the caller's arguments to [init.apply]; where the [apply] found on
    [init] is the host's, that is the call of [init] on the new instance
    with the caller's arguments.  And when neither a mixin entry
    named [constructor] nor a non-writable inherited [constructor] stands
    in the way of line 260, the prototype's own [constructor] is [init] if
    [init] is truthy and the class function itself otherwise. *)
Theorem extend_initializer (user : nat → user_function) (h : heap) (P : loc)
    (mixins : list value) (C : loc) (h' : heap) :
  wf_heap h → P < length h →
  Forall (fun v => value_ok h v = true) mixins →
  extend (VObj P) mixins h = Ret (VObj C) h' →
  ∃ cp init,
    own_value h' C "prototype" = Some (VObj cp)
    ∧ get h' cp "init" = init
    ∧ init = match last_entry "init" (merged h mixins) with
             | Some v => v
             | None =>
                 match parent_of (get h P "prototype") with
                 | Some pp => get h pp "init"
                 | None => VUndef
                 end
             end
    ∧ (last_entry "constructor" (merged h mixins) = None →
       assignable_under h (parent_of (get h P "prototype")) "constructor"
       = true →
       own_value h' cp "constructor"
       = Some (if truthy init then init else VObj C))
    ∧ ∀ n arguments,
        construct user (S n) (VObj C) arguments h'
        = initialize (call user n) init (length h') arguments
            (instantiated h' cp)
        ∧ ∀ fl,
            init = VObj fl → host_apply h' fl = true →
            construct user (S n) (VObj C) arguments h'
            = (call user n fl (VObj (length h')) arguments ;;
               ret (VObj (length h'))) (instantiated h' cp).
Proof.
  intros Hwf HP Hms Hrun.
  pose proof (extend_wf h P mixins _ h' Hwf HP Hms Hrun) as Hwf'.
  destruct (extend_built h P mixins _ h' Hwf HP Hms Hrun) as (HC & Hpar & ->).
  injection HC as ->. set (parent := parent_of _) in *.
  set (pc := prototype_table (merged h mixins) []) in *.
  set (inh := match parent with
              | Some p => get_prop h p "constructor"
              | None => None
              end).
  assert (Hinit : get (built h parent
               [("__methods__", MkProp (VObj (length h + 2)) false false false)]
               (methods_table h (merged h mixins) [])
               (assign inh pc "constructor" (marker h parent pc)))
             (length h + 3) "init" = chain_value h parent pc "init").
  { rewrite built_get_proto by done. by apply chain_value_assign_ne. }
  exists (length h + 3), (chain_value h parent pc "init").
  split; [apply built_own_class_prototype|]. split; [done|].
  split; [by apply chain_value_prototype_table|]. split.
  - intros Hlast Hassign. unfold own_value. rewrite built_own_proto.
    pose proof (prototype_table_value (merged h mixins) [] "constructor")
      as Hv.
    rewrite Hlast in Hv. fold pc in Hv. simpl in Hv.
    destruct (assoc "constructor" pc) as [c|] eqn:Hc; [done|].
    unfold assign. rewrite Hc.
    assert (Hw : match inh with Some p => p_writable p | None => true end
                 = true).
    { unfold inh. unfold assignable_under in Hassign. by destruct parent. }
    rewrite Hw. by rewrite assoc_set_eq.
  - intros n arguments.
    set (g := built h parent
               [("__methods__", MkProp (VObj (length h + 2)) false false false)]
               (methods_table h (merged h mixins) [])
               (assign inh pc "constructor" (marker h parent pc))) in *.
    assert (Hcons : construct user (S n) (VObj (length h)) arguments g
                    = initialize (call user n) (chain_value h parent pc "init")
                        (length g) arguments (instantiated g (length h + 3))).
    { rewrite <- Hinit. apply construct_class.
      - apply built_code_class.
      - apply built_own_class_prototype.
      - unfold g. rewrite built_length. lia.
      - by apply built_chain_ok. }
    split; [exact Hcons|]. intros fl Hfl Happly.
    rewrite Hcons, Hfl. unfold initialize. cbn [truthy]. unfold and_then.
    rewrite apply_host.
    + by destruct (call user n fl (VObj (length g)) arguments
                     (instantiated g (length h + 3))) as [r hr| | |].
    + rewrite (host_apply_preserved g); [done | done | |].
      * rewrite Hfl in Hinit. by eapply get_value_ok.
      * apply instantiated_preserves; [unfold g; rewrite built_length; lia|].
        by apply built_chain_ok.
Qed.

(** [Pirate]'s merged set defines [init]: it is what construction runs and
    what [constructor] names. *)
Lemma extend_initializer_witness :
  ∃ C h' cp,
    extend (VObj 17) [VObj 28; VObj 34] DocExample.world = Ret (VObj C) h'
    ∧ own_value h' C "prototype" = Some (VObj cp)
    ∧ get h' cp "init" = VObj 32
    ∧ own_value h' cp "constructor" = Some (VObj 32)
    ∧ construct DocExample.user 3 (VObj C) [] h'
      = (call DocExample.user 2 32 (VObj (length h')) [] ;;
         ret (VObj (length h'))) (instantiated h' cp).
Proof.
  destruct (extend (VObj 17) [VObj 28; VObj 34] DocExample.world)
    as [[| | | | |C] h'| | |] eqn:Hrun.
  1-5: (vm_compute in Hrun; discriminate Hrun).
  2-4: (vm_compute in Hrun; discriminate Hrun).
  destruct (extend_initializer DocExample.user DocExample.world 17
              [VObj 28; VObj 34] C h')
    as (cp & init & Hcp & Hget & Hinit & Hmark & Hnew).
  - vm_compute. reflexivity.
  - vm_compute. lia.
  - repeat constructor.
  - exact Hrun.
  - vm_compute in Hinit. rewrite Hinit in Hget, Hmark, Hnew. clear Hinit.
    exists C, h', cp. split; [reflexivity|]. split; [exact Hcp|].
    split; [exact Hget|]. split; [apply Hmark; vm_compute; reflexivity|].
    apply (proj2 (Hnew 2 []) 32); [reflexivity|].
    vm_compute in Hrun. injection Hrun as _ Hh. rewrite <- Hh.
    vm_compute. reflexivity.
Defined.

(** C5 as stated fails: [Person.extend()] has an empty merged method set,
    no initializer in it, and yet the [constructor] of its prototype is
    [Person]'s [init], which the new prototype inherits, and not the new
    class function. *)
Lemma extend_inherited_init_counterexample :
  merged DocExample.world [] = []
  ∧ ∃ h',
      extend (VObj 17) [] DocExample.world = Ret (VObj 48) h'
      ∧ own_value h' 48 "prototype" = Some (VObj 51)
      ∧ own_value h' 51 "init" = None
      ∧ own_value h' 51 "constructor" = Some (VObj 12)
      ∧ own_value DocExample.world 20 "init" = Some (VObj 12).
Proof. vm_compute. repeat split. eexists. repeat split. Qed.

(** X24.  A class whose [init] is truthy but cannot be applied (a number or
    a plain object, say, with no [apply] to be found on it, or any value on
    which the [apply] found is not callable) cannot be instantiated: [new]
    faults with a [TypeError] on line 231, after [_super] has been installed
    on the new object. *)
Theorem construct_bad_init (user : nat → user_function) (n : nat) (g : heap)
    (C cp : loc) (arguments : list value) :
  wf_heap g →
  code_of g C = Some CClass →
  own_value g C "prototype" = Some (VObj cp) →
  truthy (get g cp "init") = true →
  cannot_apply g (get g cp "init") = true →
  construct user (S (S n)) (VObj C) arguments g
  = Throw TypeError (instantiated g cp).
Proof.
  intros Hwf HC Hp Ht Hcall.
  assert (Hcp : cp < length g) by (by eapply wf_own_value_lt).
  pose proof (wf_chain_ok _ _ Hwf Hcp) as Hchain.
  rewrite (construct_class user (S n) g C cp arguments HC Hp Hcp Hchain).
  unfold initialize. rewrite Ht. unfold and_then.
  rewrite apply_cannot; [done|].
  rewrite (cannot_apply_preserved g); [done | done | |].
  - destruct (get g cp "init") as [| | | | |l] eqn:Hinit; try done.
    simpl. apply bool_decide_eq_true. by eapply get_value_ok.
  - by apply instantiated_preserves.
Qed.

Lemma construct_bad_init_witness :
  construct DocExample.user 2 (VObj 13) [] InitExample.before
  = Throw TypeError (instantiated InitExample.before 16).
Proof.
  apply (construct_bad_init DocExample.user 0 InitExample.before 13 16 []).
  - vm_compute. reflexivity.
  - vm_compute. reflexivity.
  - vm_compute. reflexivity.
  - vm_compute. reflexivity.
  - vm_compute. reflexivity.
Defined.

(** X25.  When the target has no [prototype] (as the host's own functions
    have none), [bind] only makes the bound function: nothing that existed
    changes, [Empty] included, and the bound function keeps the prototype
    object it was created with. *)
Theorem bind_without_prototype (call : caller) (h : heap) (f : loc)
    (arguments : list value) :
  wf_heap h →
  is_callable h (VObj f) = true →
  truthy (get h f "prototype") = false →
  ∃ h',
    bind call (VObj f) arguments h = Ret (VObj (length h)) h'
    ∧ length h' = length h + 2
    ∧ preserves h h'
    ∧ own_value h' (length h) "prototype" = Some (VObj (length h + 1))
    ∧ proto_of h' (length h + 1) = Some Object_prototype.
Proof.
  intros Hwf Hc Ht.
  assert (Hf : f < length h).
  { simpl in Hc. destruct (code_of h f) eqn:Hcf; [|done].
    by eapply code_of_lt. }
  unfold bind. simpl sloppy_receiver. rewrite Hc.
  unfold and_then at 1, new_function. set (h1 := h ++ [_; _]).
  assert (Hp1 : preserves h h1) by apply preserves_app.
  unfold and_then at 1 2, getM at 1.
  rewrite (get_preserved h h1) by done. rewrite Ht. unfold ret.
  exists h1. split; [done|]. split.
  { unfold h1. rewrite length_app. simpl. lia. }
  split; [done|]. split.
  - unfold own_value, h1. rewrite own_prop_app_0. simpl.
    by replace (S (length h)) with (length h + 1) by lia.
  - unfold proto_of, h1. rewrite lookup_app_r by lia.
    by replace (length h + 1 - length h) with 1 by lia.
Qed.

Lemma bind_without_prototype_witness :
  ∃ h',
    bind (call DocExample.user 0) (VObj Function_prototype) [VNull] loaded
    = Ret (VObj (length loaded)) h'
    ∧ preserves loaded h'.
Proof.
  destruct (bind_without_prototype (call DocExample.user 0) loaded
              Function_prototype [VNull])
    as (h' & Hrun & _ & Hp & _).
  - vm_compute. reflexivity.
  - vm_compute. reflexivity.
  - vm_compute. reflexivity.
  - exists h'. exact (conj Hrun Hp).
Defined.

(** ** More on instances and classes *)

(** X26.  For a class with no [init] on its prototype chain, [new C(...)]
    ignores its arguments and calls nothing: it allocates the instance and
    its [_super] closure and returns the instance. *)
Theorem construct_without_init (user : nat → user_function) (n : nat)
    (g : heap) (C cp : loc) (arguments : list value) :
  wf_heap g →
  code_of g C = Some CClass →
  own_value g C "prototype" = Some (VObj cp) →
  truthy (get g cp "init") = false →
  construct user (S n) (VObj C) arguments g
  = Ret (VObj (length g)) (instantiated g cp).
Proof.
  intros Hwf HC Hp Ht.
  assert (Hcp : cp < length g) by (by eapply wf_own_value_lt).
  rewrite (construct_class user n g C cp arguments HC Hp Hcp)
    by (by apply wf_chain_ok).
  unfold initialize. by rewrite Ht.
Qed.

Lemma construct_without_init_witness :
  construct DocExample.user 1 (VObj 17) [VNum 1] HiddenExample.statics
  = Ret (VObj (length HiddenExample.statics))
        (instantiated HiddenExample.statics 20).
Proof.
  apply (construct_without_init DocExample.user 0 HiddenExample.statics
           17 20 [VNum 1]).
  - vm_compute. reflexivity.
  - vm_compute. reflexivity.
  - vm_compute. reflexivity.
  - vm_compute. reflexivity.
Defined.

Lemma built_own_method h parent extra pm inh es k v mk :
  last_entry k es = Some v →
  own_prop (built h parent extra pm
              (assign inh (prototype_table es []) "constructor" mk))
           (length h + 3) k
  = Some (MkProp v false false true).
Proof.
  intros Hlast. rewrite built_own_proto.
  assert (Hk : assoc k (prototype_table es [])
               = Some (MkProp v false false true)).
  { rewrite prototype_table_method by done. by rewrite Hlast. }
  destruct (decide (k = "constructor")) as [->|Hne].
  - by rewrite (assign_readonly _ _ _ _ _ Hk).
  - by rewrite assign_lookup_ne.
Qed.

(** X27.  What [extend] has defined on a class prototype, a later [mixin]
    into that prototype cannot replace.  Where the root prototype holds no
    member named like a field of an attribute record, and the source's
    [hasOwnProperty] is the host's: the members of the source that are
    named like one of them are passed over, and the prototype keeps each of
    them with its value and its attributes. *)
Theorem mixin_keeps_methods (call : caller) (h : heap) (P : loc)
    (mixins : list value) (C : loc) (h' : heap) (obj : loc) :
  wf_heap h → root_plain h = true → P < length h →
  Forall (fun v => value_ok h v = true) mixins →
  extend (VObj P) mixins h = Ret (VObj C) h' →
  "__proto__" ∉ own_keys h' obj →
  host_hasOwnProperty h' obj = true →
  ∃ cp h'',
    own_value h' C "prototype" = Some (VObj cp)
    ∧ mixin call (VObj cp) [VObj obj] h' = Ret (VObj cp) h''
    ∧ ∀ k v,
        last_entry k (merged h mixins) = Some v →
        own_prop h'' cp k = Some (MkProp v false false true).
Proof.
  intros Hwf _ HP Hms Hrun Hproto Hhost.
  destruct (extend_built h P mixins _ h' Hwf HP Hms Hrun) as (HC & Hpar & Hh').
  injection HC as ->. cbv zeta in Hh'.
  set (cp := length h + 3).
  assert (Hks : ∀ k, k ∈ for_in_fuel (length h') h' obj [] →
                     is_Some (own_prop h' obj k) → k ≠ "__proto__").
  { intros k Hk Hown ->. apply Hproto. by apply for_in_own_keys. }
  destruct (mixin_loop call h' cp obj (for_in_fuel (length h') h' obj []) []
              h' Hks Hhost (mixing_start h' cp obj)) as (h'' & Hloop & _).
  exists cp, h''. split.
  { rewrite Hh'. apply built_own_class_prototype. }
  split.
  { unfold mixin. cbn [nth].
    rewrite (and_then_Ret _ _ h' cp h') by reflexivity.
    rewrite (and_then_Ret _ _ h' (for_in_fuel (length h') h' obj []) h')
      by reflexivity.
    by rewrite (and_then_Ret _ _ _ _ _ Hloop). }
  intros k v Hlast.
  assert (Hown : own_prop h' cp k = Some (MkProp v false false true)).
  { rewrite Hh'. by apply built_own_method. }
  rewrite (mixin_loop_props call h' cp obj _ [] h' h'' Hks Hhost
             (mixing_start h' cp obj));
    [|by intros k'; rewrite bool_decide_eq_false_2 by apply not_elem_of_nil
     |done].
  assert (Hcan : can_put h' cp k = false).
  { unfold can_put. by rewrite Hown. }
  by rewrite Hcan, andb_false_r.
Qed.

Lemma mixin_keeps_methods_witness :
  own_value DocExample.world 16 "dance" = Some (VObj 14)
  ∧ ∃ C h' cp h'',
      extend (VObj 17) [VObj 28; VObj 34] DocExample.world = Ret (VObj C) h'
      ∧ mixin (call DocExample.user 0) (VObj cp) [VObj 16] h'
        = Ret (VObj cp) h''
      ∧ own_prop h'' cp "dance" = Some (MkProp (VObj 23) false false true).
Proof.
  split; [vm_compute; reflexivity|].
  destruct (extend (VObj 17) [VObj 28; VObj 34] DocExample.world)
    as [[| | | | |C] h'| | |] eqn:Hrun.
  1-5: (vm_compute in Hrun; discriminate Hrun).
  2-4: (vm_compute in Hrun; discriminate Hrun).
  destruct (mixin_keeps_methods (call DocExample.user 0) DocExample.world 17
              [VObj 28; VObj 34] C h' 16) as (cp & h'' & _ & Hmix & Hk).
  - vm_compute. reflexivity.
  - vm_compute. reflexivity.
  - vm_compute. lia.
  - repeat constructor.
  - exact Hrun.
  - vm_compute in Hrun. injection Hrun as _ <-.
    apply (bool_decide_unpack _). vm_compute. exact I.
  - vm_compute in Hrun. injection Hrun as _ <-.
    vm_compute. reflexivity.
  - exists C, h', cp, h''. split; [reflexivity|]. split; [exact Hmix|].
    apply Hk. vm_compute. reflexivity.
Defined.

Lemma built_get_class h parent extra pm pc k :
  wf_heap h →
  assoc k ([("length", MkProp (VNum 0) false false false);
            ("prototype", MkProp (VObj (length h + 3)) true false false)]
           ++ extra) = None →
  get_prop (built h parent extra pm pc) (length h) k
  = get_prop h Function_prototype k.
Proof.
  intros Hwf Hk. pose proof (wf_heap_inv h Hwf) as (H4 & _).
  unfold get_prop at 1. rewrite built_length.
  replace (length h + 4) with (S (length h + 3)) by lia.
  pose proof (built_lookup h parent extra pm pc 0) as Hl.
  rewrite Nat.add_0_r in Hl.
  rewrite (get_prop_fuel_step _ _ _ _ _ Hl). cbn [o_props o_proto class_object].
  rewrite Hk.
  apply get_prop_fuel_old; [done | unfold Function_prototype; lia
                            | apply built_preserves | lia].
Qed.

(** X28.  A class does not inherit from the class it extends: the new
    class function has the function prototype as its prototype and, of
    the members this file gives it, owns [length], [prototype] and
    [__methods__] only.  Under every other name (leaving aside [name],
    [arguments] and [caller], which a host puts on a function object of
    its own accord) it has no own member and answers what the function
    prototype answers, whatever the parent class holds under that name:
    the parent's static members are not handed down. *)
Theorem extend_statics_not_inherited (h : heap) (P : loc)
    (mixins : list value) (C : loc) (h' : heap) :
  wf_heap h → P < length h →
  Forall (fun v => value_ok h v = true) mixins →
  extend (VObj P) mixins h = Ret (VObj C) h' →
  proto_of h' C = Some Function_prototype
  ∧ ∀ k,
      k ≠ "length" → k ≠ "prototype" → k ≠ "__methods__" →
      k ≠ "__proto__" →
      k ≠ "name" → k ≠ "arguments" → k ≠ "caller" →
      own_prop h' C k = None
      ∧ get h' C k = get h Function_prototype k.
Proof.
  intros Hwf HP Hms Hrun.
  destruct (extend_built h P mixins _ h' Hwf HP Hms Hrun) as (HC & Hpar & ->).
  injection HC as ->. set (parent := parent_of _) in *.
  set (pc := prototype_table (merged h mixins) []) in *.
  pose proof (built_lookup h parent
      [("__methods__", MkProp (VObj (length h + 2)) false false false)]
      (methods_table h (merged h mixins) [])
      (assign match parent with
              | Some p => get_prop h p "constructor"
              | None => None
              end pc "constructor" (marker h parent pc)) 0) as Hl.
  rewrite Nat.add_0_r in Hl.
  split; [unfold proto_of; by rewrite Hl|].
  intros k H1 H2 H3 H4 _ _ _.
  assert (Hk : assoc k ([("length", MkProp (VNum 0) false false false);
                 ("prototype", MkProp (VObj (length h + 3)) true false false)]
                ++ [("__methods__",
                     MkProp (VObj (length h + 2)) false false false)])
               = None).
  { simpl. by rewrite !decide_False by done. }
  split.
  - unfold own_prop. rewrite Hl. exact Hk.
  - rewrite !get_data by done. by rewrite built_get_class.
Qed.

Lemma extend_statics_not_inherited_witness :
  get HiddenExample.statics 17 "create" = VObj 14
  ∧ ∃ C h',
      extend (VObj 17) [] HiddenExample.statics = Ret (VObj C) h'
      ∧ get h' C "create" = VUndef.
Proof.
  split; [vm_compute; reflexivity|].
  destruct (extend (VObj 17) [] HiddenExample.statics)
    as [[| | | | |C] h'| | |] eqn:Hrun; try (by vm_compute in Hrun).
  destruct (extend_statics_not_inherited HiddenExample.statics 17 [] C h')
    as (_ & Hk).
  - vm_compute. reflexivity.
  - vm_compute. lia.
  - constructor.
  - exact Hrun.
  - exists C, h'. split; [reflexivity|].
    destruct (Hk "create") as [_ Hget];
      [intros Heq; discriminate Heq..|].
    rewrite Hget. vm_compute. reflexivity.
Defined.

(** * [bind] *)

(** ** The heap [bind] leaves behind *)

Lemma chain_ok_S n h a :
  chain_ok (S n) h a
  = bool_decide (a < length h)
    && match proto_of h a with
       | None => true
       | Some l' => chain_ok n h l'
       end.
Proof.
  simpl. unfold proto_of. destruct (h !! a) as [o|] eqn:Hl.
  - by rewrite bool_decide_eq_true_2 by (by eapply lookup_lt_Some).
  - rewrite bool_decide_eq_false_2; [done|].
    apply lookup_ge_None in Hl. lia.
Qed.

Lemma chain_ok_put n h l k v a : chain_ok n (put h l k v) a = chain_ok n h a.
Proof.
  revert a. induction n as [|n IH]; intros a; [done|].
  rewrite !chain_ok_S, put_length, put_proto.
  destruct (proto_of h a); [|done]. by rewrite IH.
Qed.

Lemma chain_ok_grow h tl l :
  chain_ok (length h) h l = true →
  chain_ok (length (h ++ tl)) (h ++ tl) l = true.
Proof.
  intros Hc. apply (chain_ok_preserved (length h) _ h); [done| |].
  - rewrite length_app. lia.
  - apply preserves_app.
Qed.

Lemma get_prop_grow h tl l k :
  chain_ok (length h) h l = true → get_prop (h ++ tl) l k = get_prop h l k.
Proof.
  intros Hc. unfold get_prop.
  apply get_prop_fuel_preserved; [done | rewrite length_app; lia |].
  apply preserves_app.
Qed.

Lemma get_grow h tl l k :
  chain_ok (length h) h l = true → k ≠ "__proto__" →
  get (h ++ tl) l k = get h l k.
Proof. intros Hc Hk. rewrite !get_data by done. by rewrite get_prop_grow. Qed.

Lemma scratch_inv h E :
  scratch h E = true →
  ∃ pe q,
    get_prop h global "Empty" = Some pe ∧ p_value pe = VObj E
    ∧ E ≠ Function_prototype
    ∧ code_of h E = Some CEmpty
    ∧ own_prop h E "prototype" = Some q ∧ p_writable q = true.
Proof.
  unfold scratch. rewrite !andb_true_iff. intros [[[HE HF] Hc] Hq].
  destruct (get_prop h global "Empty") as [pe|]; [|done].
  apply bool_decide_eq_true in HE.
  apply negb_true_iff, bool_decide_eq_false in HF.
  destruct (code_of h E) as [[]|]; try done.
  destruct (own_prop h E "prototype") as [q|]; [|done].
  by exists pe, q.
Qed.

Lemma read_Empty_at h pe E :
  get_prop h global "Empty" = Some pe → p_value pe = VObj E →
  read_Empty h = Ret (VObj E) h.
Proof. intros Hg HE. unfold read_Empty. by rewrite Hg, HE. Qed.

(** On a function, with the variable [Empty] as line 100 left it, [bind]
    returns the closure it allocates. *)
Lemma bind_runs (user : nat → user_function) (m : nat) (h : heap)
    (target : loc) (arguments : list value) (E : loc) :
  chain_ok (length h) h global = true →
  is_callable h (VObj target) = true →
  scratch h E = true →
  bind (call user (S m)) (VObj target) arguments h
  = Ret (VObj (length h)) (bound_heap h E target arguments).
Proof.
  intros Hchain Hc (pe & q & Hg & HE & _ & HcE & Hq & Hw)%scratch_inv.
  pose proof (code_of_lt _ _ _ HcE) as HltE.
  unfold bind, bound_heap. simpl sloppy_receiver. rewrite Hc.
  unfold and_then at 1, new_function.
  change [Obj (Some Function_prototype) true
            (Some (CBound target (nth 0 arguments VUndef) (drop 1 arguments)))
            [("length", MkProp (VNum 0) false false false);
             ("prototype", MkProp (VObj (S (length h))) true false false)];
          Obj (Some Object_prototype) true None
            [("constructor", MkProp (VObj (length h)) true false true)]]
    with (bound_function (length h) target (nth 0 arguments VUndef)
            (drop 1 arguments)).
  set (h1 := h ++ bound_function _ _ _ _).
  cbv zeta.
  assert (Hlen1 : length h1 = length h + 2).
  { unfold h1. rewrite length_app. simpl. lia. }
  unfold and_then at 1, getM at 1.
  set (tp := get h1 target "prototype").
  destruct (truthy tp) eqn:Ht; [|done].
  assert (Hg1 : get_prop h1 global "Empty" = Some pe).
  { unfold h1. by rewrite get_prop_grow. }
  assert (Hc1 : chain_ok (length h1) h1 global = true).
  { unfold h1. by apply chain_ok_grow. }
  unfold and_then at 1 2. rewrite (read_Empty_at h1 pe E Hg1 HE).
  unfold and_then at 1, getM at 1. fold tp.
  unfold and_then at 1. simpl put_v. rewrite putM_data by done.
  set (h2 := put h1 E "prototype" tp).
  assert (Hlen2 : length h2 = length h + 2).
  { unfold h2. by rewrite put_length. }
  assert (Hg2 : get_prop h2 global "Empty" = Some pe).
  { unfold h2. by rewrite get_prop_put_ne. }
  assert (Hc2 : chain_ok (length h2) h2 global = true).
  { unfold h2. by rewrite put_length, chain_ok_put. }
  assert (HE1 : own_prop h1 E "prototype" = Some q).
  { unfold h1. by rewrite own_prop_app_l. }
  assert (Hput1 : can_put h1 E "prototype" = true).
  { unfold can_put. by rewrite HE1. }
  assert (HE2 : own_prop h2 E "prototype" = Some (assigned (Some q) tp)).
  { unfold h2. rewrite own_prop_put, Hput1, HE1.
    by rewrite bool_decide_eq_true_2. }
  assert (HcE2 : code_of h2 E = Some CEmpty).
  { unfold h2. rewrite put_code. unfold h1. by rewrite code_of_app_l. }
  unfold and_then at 1. rewrite (read_Empty_at h2 pe E Hg2 HE).
  unfold and_then at 1, construct_with, is_callable. rewrite HcE2.
  unfold and_then at 1. rewrite (new_instance_own _ _ _ HE2).
  cbn [assigned p_value].
  fold (fresh_instance match tp with
                       | VObj l => l
                       | _ => Object_prototype
                       end).
  set (h3 := h2 ++ [fresh_instance _]).
  assert (HcE3 : code_of h3 E = Some CEmpty).
  { unfold h3. rewrite code_of_app_l by lia. done. }
  unfold and_then at 1. cbn [call]. rewrite HcE3.
  unfold ret at 1. cbn [is_object]. rewrite Hlen2.
  unfold and_then at 1. rewrite putM_data by done.
  set (h4 := put h3 (length h) "prototype" (VObj (length h + 2))).
  assert (Hg4 : get_prop h4 global "Empty" = Some pe).
  { unfold h4. rewrite get_prop_put_ne by done.
    unfold h3. by rewrite get_prop_grow. }
  unfold and_then at 1. rewrite (read_Empty_at h4 pe E Hg4 HE).
  simpl put_v. rewrite putM_data by done. done.
Qed.

Lemma bound_heap_frame h E target arguments :
  E < length h →
  length h ≤ length (bound_heap h E target arguments)
  ∧ (∀ l, l < length h → l ≠ E →
          bound_heap h E target arguments !! l = h !! l)
  ∧ (∀ k, k ≠ "prototype" →
          own_prop (bound_heap h E target arguments) E k = own_prop h E k)
  ∧ (∀ l, l < length h →
          proto_of (bound_heap h E target arguments) l = proto_of h l)
  ∧ (∀ l, l < length h →
          code_of (bound_heap h E target arguments) l = code_of h l)
  ∧ (∀ l, l < length h →
          extensible (bound_heap h E target arguments) l = extensible h l).
Proof.
  intros HE. unfold bound_heap. set (tl := bound_function _ _ _ _).
  cbv zeta. destruct (truthy (get (h ++ tl) target "prototype")).
  - set (v := get (h ++ tl) target "prototype"). set (e := fresh_instance _).
    split; [rewrite !put_length, !length_app, put_length, length_app; lia|].
    split.
    { intros l Hl Hne. rewrite put_lookup_ne by done.
      rewrite put_lookup_ne by lia.
      rewrite lookup_app_l by (rewrite put_length, length_app; lia).
      rewrite put_lookup_ne by done. by rewrite lookup_app_l. }
    split.
    { intros k Hk. rewrite own_prop_put_ne by (by right).
      rewrite own_prop_put_ne by (by right).
      rewrite own_prop_app_l by (rewrite put_length, length_app; lia).
      rewrite own_prop_put_ne by (by right). by rewrite own_prop_app_l. }
    split; [|split]; intros l Hl.
    + rewrite !put_proto. unfold proto_of.
      rewrite lookup_app_l by (rewrite put_length, length_app; lia).
      fold (proto_of (put (h ++ tl) E "prototype" v) l).
      rewrite put_proto. unfold proto_of. by rewrite lookup_app_l.
    + rewrite !put_code.
      rewrite code_of_app_l by (rewrite put_length, length_app; lia).
      rewrite put_code. by apply code_of_app_l.
    + rewrite !put_extensible. unfold extensible.
      rewrite lookup_app_l by (rewrite put_length, length_app; lia).
      fold (extensible (put (h ++ tl) E "prototype" v) l).
      rewrite put_extensible. unfold extensible. by rewrite lookup_app_l.
  - split; [rewrite length_app; lia|].
    split; [intros l Hl _; by rewrite lookup_app_l|].
    split; [intros k _; by rewrite own_prop_app_l|].
    unfold proto_of, code_of, extensible.
    split; [|split]; intros l Hl; by rewrite lookup_app_l.
Qed.

Lemma bound_heap_code h E target arguments :
  code_of (bound_heap h E target arguments) (length h)
  = Some (CBound target (nth 0 arguments VUndef) (drop 1 arguments)).
Proof.
  unfold bound_heap. set (tl := bound_function _ _ _ _).
  assert (Hc : code_of (h ++ tl) (length h)
               = Some (CBound target (nth 0 arguments VUndef)
                         (drop 1 arguments))).
  { by rewrite code_of_app_0. }
  cbv zeta. destruct (truthy (get (h ++ tl) target "prototype")); [|done].
  rewrite !put_code.
  rewrite code_of_app_l by (rewrite put_length, length_app; simpl; lia).
  by rewrite put_code.
Qed.


Lemma get_prop_bound_heap h E target arguments l k :
  chain_ok (length h) h l = true → k ≠ "prototype" →
  get_prop (bound_heap h E target arguments) l k = get_prop h l k.
Proof.
  intros Hc Hk. unfold bound_heap. set (tl := bound_function _ _ _ _).
  cbv zeta. destruct (truthy (get (h ++ tl) target "prototype"));
    [|by apply get_prop_grow].
  rewrite !get_prop_put_ne by done.
  rewrite get_prop_grow
    by (rewrite put_length, chain_ok_put; by apply chain_ok_grow).
  rewrite get_prop_put_ne by done. by apply get_prop_grow.
Qed.

Lemma chain_ok_bound_heap h E target arguments l :
  chain_ok (length h) h l = true →
  chain_ok (length (bound_heap h E target arguments))
    (bound_heap h E target arguments) l = true.
Proof.
  intros Hc. unfold bound_heap. set (tl := bound_function _ _ _ _).
  cbv zeta. destruct (truthy (get (h ++ tl) target "prototype"));
    [|by apply chain_ok_grow].
  rewrite !put_length, !chain_ok_put. apply chain_ok_grow.
  rewrite put_length, chain_ok_put. by apply chain_ok_grow.
Qed.

Lemma bound_heap_scratch h E target arguments :
  scratch h E = true → chain_ok (length h) h global = true →
  scratch (bound_heap h E target arguments) E = true.
Proof.
  intros (pe & q & Hg & HE & HF & HcE & Hq & Hw)%scratch_inv Hc.
  pose proof (code_of_lt _ _ _ HcE) as HltE.
  destruct (bound_heap_frame h E target arguments HltE)
    as (_ & _ & _ & _ & Hcode & _).
  unfold scratch.
  rewrite get_prop_bound_heap, Hg, HE by done.
  rewrite bool_decide_eq_true_2 by done.
  rewrite (bool_decide_eq_false_2 _ HF).
  rewrite Hcode, HcE by done. cbn [andb negb].
  unfold bound_heap. set (tl := bound_function _ _ _ _).
  assert (H1 : own_prop (h ++ tl) E "prototype" = Some q).
  { by rewrite own_prop_app_l. }
  cbv zeta. destruct (truthy (get (h ++ tl) target "prototype"));
    [|by rewrite H1].
  set (v := get (h ++ tl) target "prototype").
  assert (Hp1 : can_put (h ++ tl) E "prototype" = true).
  { unfold can_put. by rewrite H1. }
  assert (H2 : own_prop (put (h ++ tl) E "prototype" v) E "prototype"
               = Some (assigned (Some q) v)).
  { rewrite own_prop_put, Hp1, H1. by rewrite bool_decide_eq_true_2. }
  set (h3 := put (h ++ tl) E "prototype" v ++ _).
  assert (H4 : own_prop (put h3 (length h) "prototype" (VObj (length h + 2)))
                 E "prototype" = Some (assigned (Some q) v)).
  { rewrite own_prop_put_ne by (left; lia). unfold h3.
    by rewrite own_prop_app_l by (rewrite put_length, length_app; lia). }
  rewrite own_prop_put, H4.
  rewrite bool_decide_eq_true_2 by done.
  destruct (can_put (put h3 _ _ _) E "prototype"); simpl; exact Hw.
Qed.

Lemma wf_chain_global h : wf_heap h → chain_ok (length h) h global = true.
Proof.
  intros Hwf. pose proof (wf_heap_inv h Hwf) as (H4 & Hc & _).
  apply Hc. unfold global. lia.
Qed.

Lemma callable_lt h l : is_callable h (VObj l) = true → l < length h.
Proof.
  simpl. destruct (code_of h l) eqn:Hc; [|done]. intros _.
  by eapply code_of_lt.
Qed.



(** ** What [bind] accepts *)







(** ** Calling a bound function *)




(** ** [bind]: the prototype of a bound function *)

(** X10.  With the variable [Empty] holding the scratch function [E] of
    line 100: when the target has a prototype object [tp], the bound
    function gets a prototype of its own, a new object that inherits from
    [tp].  Objects made with [new] from the bound function are therefore
    instances of both the bound function and the target.  [E] is left with
    [prototype] reset to [null]. *)
Theorem bind_prototype_chain (user : nat → user_function) (m : nat)
    (h : heap) (f tp : loc) (arguments : list value) (E : loc) :
  wf_heap h →
  is_callable h (VObj f) = true →
  get h f "prototype" = VObj tp →
  scratch h E = true →
  ∃ h',
    bind (call user (S m)) (VObj f) arguments h = Ret (VObj (length h)) h'
    ∧ length h' = length h + 3
    ∧ own_value h' (length h) "prototype" = Some (VObj (length h + 2))
    ∧ h' !! (length h + 2) = Some (Obj (Some tp) true None [])
    ∧ own_value h' E "prototype" = Some VNull
    ∧ ∀ g o,
        preserves h' g →
        proto_of g o = Some (length h + 2) →
        get g f "prototype" = VObj tp →
        instanceof (VObj o) (length h) g = Ret true g
        ∧ instanceof (VObj o) f g = Ret true g.
Proof.
  intros Hwf Hc Htp Hs.
  pose proof (scratch_inv h E Hs) as (pe & q & _ & _ & _ & HcE & HE & Hw).
  pose proof (code_of_lt _ _ _ HcE) as HltE.
  pose proof (callable_lt _ _ Hc) as Hf.
  exists (bound_heap h E f arguments). split.
  { apply bind_runs; [by apply wf_chain_global | done..]. }
  unfold bound_heap.
  set (c := CBound f (nth 0 arguments VUndef) (drop 1 arguments)).
  set (h1 := h ++ bound_function _ _ _ _).
  assert (Hp1 : preserves h h1) by apply preserves_app.
  assert (Hlen1 : length h1 = length h + 2).
  { unfold h1. rewrite length_app. simpl. lia. }
  assert (Hget1 : get h1 f "prototype" = VObj tp).
  { by rewrite (get_preserved h h1). }
  cbv zeta. rewrite Hget1. cbn [truthy].
  set (h2 := put h1 E "prototype" (VObj tp)).
  assert (HE1 : own_prop h1 E "prototype" = Some q).
  { by rewrite (preserves_own_prop h h1). }
  assert (Hput1 : can_put h1 E "prototype" = true).
  { unfold can_put. by rewrite HE1. }
  assert (Hlen2 : length h2 = length h + 2).
  { unfold h2. by rewrite put_length. }
  assert (HE2 : own_prop h2 E "prototype"
                = Some (assigned (Some q) (VObj tp))).
  { unfold h2. rewrite own_prop_put, Hput1, HE1.
    by rewrite bool_decide_eq_true_2. }
  set (e := fresh_instance tp).
  set (h3 := h2 ++ [e]).
  set (h4 := put h3 (length h) "prototype" (VObj (length h + 2))).
  assert (Hb3 : own_prop h3 (length h) "prototype"
                = Some (MkProp (VObj (S (length h))) true false false)).
  { unfold h3. rewrite own_prop_app_l by lia.
    unfold h2. rewrite own_prop_put_ne by (left; lia).
    unfold h1. by rewrite own_prop_app_0. }
  assert (Hput3 : can_put h3 (length h) "prototype" = true).
  { unfold can_put. by rewrite Hb3. }
  assert (HE4 : own_prop h4 E "prototype"
                = Some (assigned (Some q) (VObj tp))).
  { unfold h4. rewrite own_prop_put_ne by (left; lia).
    unfold h3. rewrite own_prop_app_l by lia. done. }
  assert (Hput4 : can_put h4 E "prototype" = true).
  { unfold can_put. by rewrite HE4. }
  set (h5 := put h4 E "prototype" VNull).
  assert (Hlen5 : length h5 = length h + 3).
  { unfold h5, h4, h3. rewrite !put_length, length_app, Hlen2. simpl. lia. }
  assert (Hb5 : own_value h5 (length h) "prototype"
                = Some (VObj (length h + 2))).
  { unfold h5, own_value. rewrite own_prop_put_ne by (left; lia).
    by apply own_value_put_eq. }
  assert (He5 : h5 !! (length h + 2) = Some e).
  { unfold h5, h4. rewrite !put_lookup_ne by lia.
    unfold h3. rewrite lookup_app_r by lia.
    by replace (length h + 2 - length h2) with 0 by lia. }
  assert (Hcf5 : code_of h5 f = code_of h f).
  { unfold h5, h4. rewrite !put_code. unfold h3.
    rewrite code_of_app_l by lia. unfold h2. rewrite put_code.
    by apply preserves_code. }
  assert (Hcb5 : code_of h5 (length h) = Some c).
  { unfold h5, h4. rewrite !put_code. unfold h3.
    rewrite code_of_app_l by lia. unfold h2. rewrite put_code.
    unfold h1. by rewrite code_of_app_0. }
  split; [done|]. split; [done|].
  split; [done|]. split; [by apply own_value_put_eq|].
  intros g o Hg Ho Hgf.
  pose proof (preserves_length _ _ Hg) as Hlen.
  assert (Hlg : ∃ n, length g = S (S n)) by (exists (length g - 2); lia).
  destruct Hlg as [n Hn].
  assert (He : proto_of g (length h + 2) = Some tp).
  { unfold proto_of. rewrite Hg by lia. by rewrite He5. }
  split.
  - unfold instanceof. rewrite (preserves_code h5 g) by (done || lia).
    rewrite Hcb5.
    assert (Hgb : get g (length h) "prototype" = VObj (length h + 2)).
    { apply own_value_Some_get. unfold own_value.
      rewrite (preserves_own_prop h5 g) by (done || lia). exact Hb5. }
    rewrite Hgb, Hn. simpl. rewrite Ho.
    by rewrite bool_decide_eq_true_2.
  - unfold instanceof. rewrite (preserves_code h5 g) by (done || lia).
    rewrite Hcf5. simpl in Hc. destruct (code_of h f); [|done].
    rewrite Hgf, Hn. simpl. rewrite Ho, He.
    rewrite (bool_decide_eq_true_2 (tp = tp)) by done.
    by rewrite orb_true_r.
Qed.

Lemma bind_prototype_chain_witness :
  ∃ h',
    bind (call BindExample.user 1) (VObj 12) [VObj 14] BindExample.before
    = Ret (VObj 15) h'
    ∧ own_value h' 15 "prototype" = Some (VObj 17)
    ∧ h' !! 17 = Some (Obj (Some 13) true None [])
    ∧ own_value h' Empty "prototype" = Some VNull.
Proof.
  destruct (bind_prototype_chain BindExample.user 0 BindExample.before 12 13
              [VObj 14] Empty)
    as (h' & Hrun & _ & Hb & He & HE & _).
  - vm_compute. reflexivity.
  - vm_compute. reflexivity.
  - vm_compute. reflexivity.
  - vm_compute. reflexivity.
  - exists h'. exact (conj Hrun (conj Hb (conj He HE))).
Defined.



(** X12.  Binding a bound function does not rebind it.  With
    [b1 = f.bind(a, xs...)] and [b2 = b1.bind(b, ys...)], where the
    [apply] found on [f] and on [b1] is the host's, a plain call
    [b2(zs...)] calls [f] with receiver [a], the context of the first
    [bind], and with the arguments [xs], [ys], [zs] in that order. *)
Theorem bind_twice (user : nat → user_function) (m : nat) (h : heap)
    (f : loc) (a b : value) (xs ys : list value) (E : loc) :
  wf_heap h →
  is_callable h (VObj f) = true →
  scratch h E = true →
  ∃ b1 h1 b2 h2,
    bind (call user (S m)) (VObj f) (a :: xs) h = Ret (VObj b1) h1
    ∧ bind (call user (S m)) (VObj b1) (b :: ys) h1 = Ret (VObj b2) h2
    ∧ code_of h2 b1 = Some (CBound f a xs)
    ∧ code_of h2 b2 = Some (CBound b1 b ys)
    ∧ ∀ g n this self self' zs,
        code_of g b1 = Some (CBound f a xs) →
        code_of g b2 = Some (CBound b1 b ys) →
        host_apply g b1 = true →
        host_apply g f = true →
        this_object this g = Ret self g →
        instanceof (VObj self) b2 g = Ret false g →
        this_object b g = Ret self' g →
        instanceof (VObj self') b1 g = Ret false g →
        call user (S (S n)) b2 this zs g
        = call user n f a (xs ++ ys ++ zs) g.
Proof.
  intros Hwf Hc Hs.
  pose proof (wf_chain_global h Hwf) as Hchain.
  pose proof (scratch_inv h E Hs) as (_ & _ & _ & _ & _ & HcE & _).
  pose proof (code_of_lt _ _ _ HcE) as HltE.
  set (h1 := bound_heap h E f (a :: xs)).
  assert (Hc1 : code_of h1 (length h) = Some (CBound f a xs)).
  { unfold h1. rewrite bound_heap_code. cbn [nth drop]. by rewrite drop_0. }
  assert (Hlt1 : length h < length h1) by (by eapply code_of_lt).
  assert (Hcall1 : is_callable h1 (VObj (length h)) = true).
  { simpl. by rewrite Hc1. }
  set (h2 := bound_heap h1 E (length h) (b :: ys)).
  exists (length h), h1, (length h1), h2.
  split; [by apply bind_runs|]. split.
  { apply bind_runs; [by apply chain_ok_bound_heap | done |].
    by apply bound_heap_scratch. }
  assert (HltE1 : E < length h1) by lia.
  destruct (bound_heap_frame h1 E (length h) (b :: ys) HltE1)
    as (_ & _ & _ & _ & Hcode & _).
  split; [unfold h2; by rewrite Hcode|]. split.
  { unfold h2. rewrite bound_heap_code. cbn [nth drop]. by rewrite drop_0. }
  intros g n this self self' zs Hg1 Hg2 Ha1 Haf Hthis Hinst Hthis' Hinst'.
  rewrite (call_bound _ _ _ _ _ _ _ _ _ Hg2).
  unfold bound_fn at 1, and_then. rewrite Hthis, Hinst.
  rewrite (apply_host _ _ _ _ _ Ha1).
  rewrite (call_bound _ _ _ _ _ _ _ _ _ Hg1).
  unfold bound_fn, and_then. rewrite Hthis', Hinst'.
  rewrite (apply_host _ _ _ _ _ Haf).
  by rewrite app_assoc.
Qed.

Lemma bind_twice_witness :
  ∃ b1 h1 b2 h2,
    bind (call BindExample.user 1) (VObj 12) [VObj 14; VNum 1]
      BindExample.before = Ret (VObj b1) h1
    ∧ bind (call BindExample.user 1) (VObj b1) [VNull; VNum 2] h1
      = Ret (VObj b2) h2
    ∧ code_of h2 b1 = Some (CBound 12 (VObj 14) [VNum 1])
    ∧ code_of h2 b2 = Some (CBound b1 VNull [VNum 2]).
Proof.
  destruct (bind_twice BindExample.user 0 BindExample.before 12 (VObj 14)
              VNull [VNum 1] [VNum 2] Empty)
    as (b1 & h1 & b2 & h2 & H1 & H2 & H3 & H4 & _).
  - vm_compute. reflexivity.
  - vm_compute. reflexivity.
  - vm_compute. reflexivity.
  - exists b1, h1, b2, h2. exact (conj H1 (conj H2 (conj H3 H4))).
Defined.
